(** * Telegram bonus scraper: extraction, dedup store, delivery queue, reconnect

    A shallow embedding of the JavaScript sources
      - shared/models/Message.js    (schema, unique index, [extractData])
      - scraper/telegramClient.js   ([connect], [getChannelEntity],
                                     [getChannelMessages])
      - scraper/messageSender.js    ([formatMessage], [truncateText],
                                     [sendToTargetGroups], [processQueue])
      - scraper/scraperService.js   ([processMessage], [scrapeChannel],
                                     [scrapeAllChannels], [shouldSendToGroups])
      - scraper/realTimeListener.js ([handleNewMessage], [start],
                                     [handleReconnect], [stop])
      - scraper/api.js              (the routes that add and remove a
                                     source channel)
    followed by the properties of the specification, each proved or refuted
    on the embedding, and by further properties of the same methods and of
    the start of the service.

    Conventions.
    - A JavaScript string is the list of its UTF-16 code units ([str]); the
      [length] of the list is the string's [.length].
    - [null] and [undefined] are both [None]; a value that JavaScript tests
      for truthiness is tested with [truthy].
    - A number is an integer or [Infinity] ([number]): the doubles that the
      code computes have integer values, and [parseInt] and [*] round to
      the nearest double.
    - Asynchronous methods are run to completion one at a time: a method is a
      function from the world before the call to its completion (returned
      or thrown) and the world after it. The calls that [processMessageBatch]
      starts together before it awaits them are the exception: they are cut
      at their [await]s and take their turns among each other.
    - The store, the sink and the transport answer from scripts that are part
      of the world, so every statement over all worlds is a statement over
      all their failures.
    - A timer that the code arms is recorded; the callbacks of the two
      intervals are the operations [queueTick] and [heartbeatTick].
    - [console.log] has no model. *)

From Stdlib Require Import String Ascii.
From Stdlib Require Import Bool Arith NArith ZArith Lia List.
Import ListNotations.

Local Open Scope nat_scope.

(* ===================================================================== *)
(** ** JavaScript strings *)
(* ===================================================================== *)

Module JS.

Definition str := list N.

(** A literal of the source, given by its ASCII spelling. *)
Definition lit (s : string) : str := map N_of_ascii (list_ascii_of_string s).

Fixpoint str_eqb (a b : str) : bool :=
  match a, b with
  | [], [] => true
  | x :: a', y :: b' => N.eqb x y && str_eqb a' b'
  | _, _ => false
  end.

Definition inRange (lo hi c : N) : bool := (N.leb lo c && N.leb c hi)%N.

(** ECMAScript WhiteSpace and LineTerminator code points, the set that
    [String.prototype.trim] strips. *)
Definition isWhiteSpace (c : N) : bool :=
  inRange 9 13 c || N.eqb c 32 || N.eqb c 160 || N.eqb c 5760
  || inRange 8192 8202 c || N.eqb c 8232 || N.eqb c 8233 || N.eqb c 8239
  || N.eqb c 8287 || N.eqb c 12288 || N.eqb c 65279.

Fixpoint dropWhile {A} (p : A -> bool) (l : list A) : list A :=
  match l with
  | [] => []
  | x :: l' => if p x then dropWhile p l' else l
  end.

Fixpoint takeWhile {A} (p : A -> bool) (l : list A) : list A :=
  match l with
  | [] => []
  | x :: l' => if p x then x :: takeWhile p l' else []
  end.

(** [s.trim()] *)
Definition trim (s : str) : str :=
  rev (dropWhile isWhiteSpace (rev (dropWhile isWhiteSpace s))).

(** [s.split(sep)] for a separator of one code unit. *)
Fixpoint split (sep : N) (s : str) : list str :=
  match s with
  | [] => [[]]
  | c :: s' =>
      if N.eqb c sep then [] :: split sep s'
      else match split sep s' with
           | h :: t => (c :: h) :: t
           | [] => [[c]]
           end
  end.

(** [s.startsWith(p)] *)
Fixpoint startsWith (s p : str) : bool :=
  match p, s with
  | [], _ => true
  | x :: p', y :: s' => N.eqb x y && startsWith s' p'
  | _ :: _, [] => false
  end.

(** [s.includes(p)] *)
Fixpoint includes (s p : str) : bool :=
  startsWith s p ||
  match s with
  | [] => false
  | _ :: s' => includes s' p
  end.

(** [l.join(sep)] *)
Fixpoint join (sep : str) (l : list str) : str :=
  match l with
  | [] => []
  | [x] => x
  | x :: l' => x ++ sep ++ join sep l'
  end.

(** [s.substring(0, n)], with a negative [n] clamped to 0. *)
Definition substring0 (s : str) (n : Z) : str := firstn (Z.to_nat n) s.

(** Truthiness of a string-or-null value: [null], [undefined] and the empty
    string are falsy. *)
Definition truthy (o : option str) : bool :=
  match o with
  | Some (_ :: _) => true
  | _ => false
  end.

(** [a || b] on strings. *)
Definition orElse (o : option str) (d : str) : str :=
  match o with
  | Some (c :: s) => c :: s
  | _ => d
  end.

(** [s.toLowerCase()] on the ASCII letters. *)
Definition lowerAscii (c : N) : N := if inRange 65 90 c then (c + 32)%N else c.

(** [\[A-Za-z0-9\]] *)
Definition isAlnum (c : N) : bool :=
  inRange 48 57 c || inRange 65 90 c || inRange 97 122 c.

(** [\d] *)
Definition isDigit (c : N) : bool := inRange 48 57 c.

Definition backtick : N := 96.
Definition dot : N := 46.
Definition newline : N := 10.

(** *** Numbers

    The numbers that the modelled code computes are non-negative integers
    or [Infinity]; a double whose value is an integer is held as that
    integer. *)
Inductive number : Set :=
| Int (z : Z)
| Infinity.

(** The integer nearest to [z >= 0] among those that a double with its
    53-bit significand holds, a tie going to the even significand. *)
Definition nearest (z : Z) : Z :=
  if (z <? 2 ^ 53)%Z then z
  else
    let e := (Z.log2 z - 52)%Z in
    let q := (z / 2 ^ e)%Z in
    let r := (z mod 2 ^ e)%Z in
    let half := (2 ^ (e - 1))%Z in
    let q' := if (r <? half)%Z then q
              else if (half <? r)%Z then (q + 1)%Z
              else if Z.even q then q else (q + 1)%Z in
    (q' * 2 ^ e)%Z.

(** The Number value of the mathematical integer [z >= 0]: the nearest
    double, [Infinity] when that would be 2^1024. *)
Definition toNumber (z : Z) : number :=
  if (nearest z <? 2 ^ 1024)%Z then Int (nearest z) else Infinity.

(** [a * k] for a number [a >= 0] and a constant [k > 0]. *)
Definition times (a : number) (k : Z) : number :=
  match a with
  | Int z => toNumber (z * k)
  | Infinity => Infinity
  end.

End JS.
Import JS.

Coercion Int : Z >-> number.
Bind Scope Z_scope with number.

(* ===================================================================== *)
(** ** shared/models/Message.js *)
(* ===================================================================== *)

(** The fields of [messageSchema] that the code reads or writes
    ([rawMessage], [scrapedAt] and the mongoose timestamps are stored and
    never read). [_id] is the ObjectId mongoose gives a document when it is
    constructed. *)
Record Message := mkMessage {
  _id : nat;
  messageId : Z;
  channelId : str;
  channelUsername : str;
  channelName : str;
  text : str;
  bonusCode : option str;
  allBonusCodes : list str;
  websiteUrl : option str;
  matchedKeywords : list str;
  messageDate : Z;
  processed : bool;
  hasBonus : bool;
  hasWebsite : bool
}.

Definition set_bonusCode (v : option str) (m : Message) : Message :=
  mkMessage (_id m) (messageId m) (channelId m) (channelUsername m)
    (channelName m) (text m) v (allBonusCodes m) (websiteUrl m)
    (matchedKeywords m) (messageDate m) (processed m) (hasBonus m)
    (hasWebsite m).

Definition set_allBonusCodes (v : list str) (m : Message) : Message :=
  mkMessage (_id m) (messageId m) (channelId m) (channelUsername m)
    (channelName m) (text m) (bonusCode m) v (websiteUrl m)
    (matchedKeywords m) (messageDate m) (processed m) (hasBonus m)
    (hasWebsite m).

Definition set_websiteUrl (v : option str) (m : Message) : Message :=
  mkMessage (_id m) (messageId m) (channelId m) (channelUsername m)
    (channelName m) (text m) (bonusCode m) (allBonusCodes m) v
    (matchedKeywords m) (messageDate m) (processed m) (hasBonus m)
    (hasWebsite m).

Definition set_processed (v : bool) (m : Message) : Message :=
  mkMessage (_id m) (messageId m) (channelId m) (channelUsername m)
    (channelName m) (text m) (bonusCode m) (allBonusCodes m) (websiteUrl m)
    (matchedKeywords m) (messageDate m) v (hasBonus m) (hasWebsite m).

Definition set_hasBonus (v : bool) (m : Message) : Message :=
  mkMessage (_id m) (messageId m) (channelId m) (channelUsername m)
    (channelName m) (text m) (bonusCode m) (allBonusCodes m) (websiteUrl m)
    (matchedKeywords m) (messageDate m) (processed m) v (hasWebsite m).

Definition set_hasWebsite (v : bool) (m : Message) : Message :=
  mkMessage (_id m) (messageId m) (channelId m) (channelUsername m)
    (channelName m) (text m) (bonusCode m) (allBonusCodes m) (websiteUrl m)
    (matchedKeywords m) (messageDate m) (processed m) (hasBonus m) v.

(** [new Message({...})] as both ingestion paths call it: the schema
    defaults for the extracted fields, [processed: false]. *)
Definition newMessage (oid : nat) (mid : Z) (cid cuser cname txt : str)
    (kws : list str) (date : Z) : Message :=
  mkMessage oid mid cid cuser cname txt None [] None kws date false false
    false.

Module MessageModel.

(** *** Pass 1: [/`([A-Za-z0-9]{4,20})`/g]

    At a backtick the quantifier first takes as many alphanumerics as it
    can, at most 20, and gives them back one at a time down to 4 until a
    closing backtick follows. *)
Fixpoint closeBacktick (k : nat) (rest : str) : option str :=
  if k <? 4 then None
  else match nth_error rest k with
       | Some c =>
           if N.eqb c backtick
           then Some (backtick :: firstn k rest ++ [backtick])
           else match k with
                | 0 => None
                | S k' => closeBacktick k' rest
                end
       | None => match k with
                 | 0 => None
                 | S k' => closeBacktick k' rest
                 end
       end.

Definition matchBacktickAt (s : str) : option str :=
  match s with
  | c :: rest =>
      if N.eqb c backtick
      then closeBacktick (Nat.min 20 (length (takeWhile isAlnum rest))) rest
      else None
  | [] => None
  end.

(** [s.match(re)] with the [g] flag: all matches, leftmost first, the scan
    resuming after the end of each match ([skip] counts the code units of
    the last match that are still to be passed). A null result is []. *)
Fixpoint scanBackticks (skip : nat) (s : str) : list str :=
  match s with
  | [] => []
  | _ :: s' =>
      match skip with
      | S k => scanBackticks k s'
      | 0 =>
          match matchBacktickAt s with
          | Some m => m :: scanBackticks (length m - 1) s'
          | None => scanBackticks 0 s'
          end
      end
  end.

Definition backtickMatches (cleanLine : str) : list str :=
  scanBackticks 0 cleanLine.

(** [match.replace(/`/g, '')] *)
Definition stripBackticks (m : str) : str :=
  filter (fun c => negb (N.eqb c backtick)) m.

(** The first loop of [extractData]. *)
Definition pass1 (lines : list str) : list str :=
  flat_map (fun line => map stripBackticks (backtickMatches (trim line))) lines.

(** *** The domain pattern [/([a-zA-Z0-9-]+\.(com|net|org|co\.uk|tr))/i] *)

Definition isDomainChar (c : N) : bool := isAlnum c || N.eqb c 45.

(** The alternatives, in the order the pattern tries them. *)
Definition tlds : list str :=
  [lit "com"; lit "net"; lit "org"; lit "co.uk"; lit "tr"].

(** A literal of the pattern against the input, ignoring ASCII case. *)
Fixpoint startsWithCI (s p : str) : bool :=
  match p, s with
  | [], _ => true
  | x :: p', y :: s' => N.eqb (lowerAscii x) (lowerAscii y) && startsWithCI s' p'
  | _ :: _, [] => false
  end.

Fixpoint firstTld (alts : list str) (r : str) : option str :=
  match alts with
  | [] => None
  | t :: alts' =>
      if startsWithCI r t then Some (firstn (length t) r) else firstTld alts' r
  end.

(** The label takes [k] characters, then fewer, down to one. *)
Fixpoint matchDomainLabel (k : nat) (s : str) : option str :=
  match k with
  | 0 => None
  | S k' =>
      match skipn k s with
      | c :: r =>
          if N.eqb c dot then
            match firstTld tlds r with
            | Some t => Some (firstn k s ++ dot :: t)
            | None => matchDomainLabel k' s
            end
          else matchDomainLabel k' s
      | [] => matchDomainLabel k' s
      end
  end.

Definition matchDomainAt (s : str) : option str :=
  matchDomainLabel (length (takeWhile isDomainChar s)) s.

(** [cleanLine.match(re)] without [g]: the leftmost match, element [0]. *)
Fixpoint domainMatch (s : str) : option str :=
  match matchDomainAt s with
  | Some d => Some d
  | None => match s with
            | [] => None
            | _ :: s' => domainMatch s'
            end
  end.

(** *** Pass 2 *)

(** The test that opens the second loop's first branch. *)
Definition isUrlLine (cleanLine : str) : bool :=
  includes cleanLine (lit "http") || includes cleanLine (lit ".com")
  || includes cleanLine (lit ".net") || includes cleanLine (lit ".org").

(** [cleanLine.replace(/[^A-Za-z0-9]/g, '')] *)
Definition stripNonAlnum (cleanLine : str) : str := filter isAlnum cleanLine.

(** One iteration of the second loop, on the pair of the loop's two
    variables [bonusCodes] and [websiteUrl]. *)
Definition pass2_step (st : list str * option str) (line : str)
  : list str * option str :=
  let cleanLine := trim line in
  let '(bonusCodes, websiteUrl) := st in
  if isUrlLine cleanLine then
    if startsWith cleanLine (lit "http") then (bonusCodes, Some cleanLine)
    else match domainMatch cleanLine with
         | Some d => (bonusCodes, Some (lit "https://" ++ d))
         | None => (bonusCodes, websiteUrl)
         end
  else if negb (includes cleanLine [backtick]) && (length bonusCodes =? 0) then
    let code := stripNonAlnum cleanLine in
    if (4 <=? length code) && (length code <=? 20)
    then (bonusCodes ++ [code], websiteUrl)
    else (bonusCodes, websiteUrl)
  else (bonusCodes, websiteUrl).

Definition pass2 (lines : list str) (st : list str * option str)
  : list str * option str :=
  fold_left pass2_step lines st.

(** [text.split('\n').filter(line => line.trim().length > 0)] on the trimmed
    text. *)
Definition linesOf (txt : str) : list str :=
  filter (fun line => 0 <? length (trim line)) (split newline (trim txt)).

(** The values of [bonusCodes] and [websiteUrl] when both loops are done. *)
Definition scan (txt : str) : list str * option str :=
  let lines := linesOf txt in
  pass2 lines (pass1 lines, None).

(** "Set the results" *)
Definition setResults (r : list str * option str) (m : Message) : Message :=
  let '(bonusCodes, url) := r in
  let m1 := if truthy url
            then set_hasWebsite true (set_websiteUrl url m) else m in
  match bonusCodes with
  | c :: _ =>
      set_allBonusCodes bonusCodes (set_hasBonus true (set_bonusCode (Some c) m1))
  | [] => m1
  end.

(** "Only mark as valid if we have BOTH bonus code AND website" *)
Definition collapse (m : Message) : Message :=
  if negb (hasBonus m) || negb (hasWebsite m)
  then set_bonusCode None (set_hasBonus false m)
  else m.

(** [messageSchema.methods.extractData], on the document [this]. *)
Definition extractData (this : Message) : Message :=
  collapse (setResults (scan (text this)) this).

End MessageModel.
Import MessageModel.

(* ===================================================================== *)
(** ** config/channels.json and the platform *)
(* ===================================================================== *)

(** The configuration file is read, never written, by the modelled code; it
    is a parameter of every method. [formatDate] and [toLowerCase] stand for
    [Intl.DateTimeFormat('tr-TR', ...).format] and
    [String.prototype.toLowerCase]. *)
Record GroupConfig := mkGroupConfig {
  g_id : str;
  g_name : str;
  g_username : str;
  g_active : bool;
  g_messageTemplate : str
}.

Record ChannelConfig := mkChannelConfig {
  c_name : str;
  c_username : str;
  c_active : bool;
  c_keywords : list str;
  c_realTimeEnabled : bool
}.

Record Config := mkConfig {
  channels : list ChannelConfig;
  targetGroups : list GroupConfig;
  batchSize : Z;                  (* settings.messaging.batchSize *)
  sendDelay : Z;                  (* settings.messaging.sendDelay *)
  onlyWithBonusCode : bool;       (* settings.messaging.onlyWithBonusCode *)
  minMessageLength : Z;           (* settings.messaging.minMessageLength *)
  realTimeEnabled : bool;         (* settings.realTime.enabled *)
  heartbeatIntervalMs : Z;        (* settings.realTime.heartbeatInterval *)
  reconnectDelay : Z;             (* settings.realTime.reconnectDelay *)
  maxAgeHours : Z;                (* settings.maxAgeHours *)
  maxMessagesPerCheck : Z;        (* settings.maxMessagesPerCheck *)
  formatDate : Z -> str;
  toLowerCase : str -> str
}.

(* ===================================================================== *)
(** ** The world the methods run in *)
(* ===================================================================== *)

(** A thrown value: [error.code] and [error.message]. *)
Record Error := mkError {
  code : option Z;
  message : str
}.

(** [error.code === c] *)
Definition codeIs (c : Z) (error : Error) : bool :=
  match code error with
  | Some c' => Z.eqb c' c
  | None => false
  end.

Inductive Completion (A : Type) : Type :=
| Returned (a : A)
| Threw (e : Error).
Arguments Returned {A} a.
Arguments Threw {A} e.

(** What the model records of the calls that leave the process. *)
Inductive Event :=
| EvConnect (ok : bool)              (* client.connect() of the transport *)
| EvClientRetryArmed                 (* setTimeout(() => this.connect(), 10000) *)
| EvGetEntity (username : str)
| EvAddHandler
| EvSend (groupId : str) (msg : str) (ok : bool)   (* client.sendMessage *)
| EvSleep (ms : number)
| EvReconnectArmed                   (* setTimeout(() => this.handleReconnect(), ...) *)
| EvDisconnect.

(** The source platform's message; [tm_channelId] is
    [peerId?.channelId?.toString()]. *)
Record TelegramMessage := mkTelegramMessage {
  tm_id : Z;
  tm_text : option str;
  tm_channelId : option str;
  tm_date : Z
}.

(** [telegramMessage.peerId?.channelId?.toString() || 'unknown'] *)
Definition channelIdOf (tm : TelegramMessage) : str :=
  orElse (tm_channelId tm) (lit "unknown").

(** [telegramMessage.text] as the string a document holds for it; a text
    that is undefined is told apart where the code reads it without a test
    ([processRealTimeMessage]). *)
Definition textOf (tm : TelegramMessage) : str := orElse (tm_text tm) [].

(** The collaborators' answers: one scripted outcome per call of the store,
    of [sendMessage], of the transport's [connect] and of [getMessages]
    ([None], or an exhausted script, is success; an exhausted script of
    [getMessages] answers with no message), the directory [getEntity]
    resolves user names in (the entity is identified by the string of its
    id), and, for each batch of calls that run together, the order in which
    their awaited answers arrive: the indices, within the batch, of the
    calls that are resumed one after the other (with the script of a batch
    exhausted, its pending calls take turns in the order of the batch). *)
Record Net := mkNet {
  storeFaults : list (option Error);
  sendOutcomes : list (option Error);
  connectOutcomes : list (option Error);
  fetchOutcomes : list (Error + list TelegramMessage);
  getEntity : str -> Error + str;
  arrivals : list (list nat)
}.

Definition set_storeFaults (v : list (option Error)) (n : Net) : Net :=
  mkNet v (sendOutcomes n) (connectOutcomes n) (fetchOutcomes n) (getEntity n)
    (arrivals n).

Definition set_sendOutcomes (v : list (option Error)) (n : Net) : Net :=
  mkNet (storeFaults n) v (connectOutcomes n) (fetchOutcomes n) (getEntity n)
    (arrivals n).

Definition set_connectOutcomes (v : list (option Error)) (n : Net) : Net :=
  mkNet (storeFaults n) (sendOutcomes n) v (fetchOutcomes n) (getEntity n)
    (arrivals n).

Definition set_fetchOutcomes (v : list (Error + list TelegramMessage))
    (n : Net) : Net :=
  mkNet (storeFaults n) (sendOutcomes n) (connectOutcomes n) v (getEntity n)
    (arrivals n).

Definition set_arrivals (v : list (list nat)) (n : Net) : Net :=
  mkNet (storeFaults n) (sendOutcomes n) (connectOutcomes n) (fetchOutcomes n)
    (getEntity n) v.

(** scraper/telegramClient.js *)
Record Client := mkClient {
  clientMade : bool;        (* this.client !== null *)
  isConnected : bool;
  retryCount : nat;
  maxRetries : nat
}.

Record GroupData := mkGroupData {
  gd_entity : str;
  gd_config : GroupConfig
}.

Record QueueItem := mkQueueItem {
  groupData : GroupData;
  q_message : str;
  originalMessage : Message;
  timestamp : Z
}.

(** scraper/messageSender.js; [groupEntities] is a [Map] keyed by group id,
    kept in insertion order. *)
Record Sender := mkSender {
  groupEntities : list (str * GroupData);
  sendQueue : list QueueItem;
  isProcessingQueue : bool;
  sentCount : nat
}.

Record ChannelData := mkChannelData {
  cd_entity : str;
  cd_config : ChannelConfig
}.

(** scraper/realTimeListener.js; [heartbeatInterval] holds the handle of the
    interval timer. *)
Record Listener := mkListener {
  isListening : bool;
  channelEntities : list (str * ChannelData);
  heartbeatInterval : option nat;
  reconnectAttempts : nat;
  maxReconnectAttempts : nat
}.

(** scraper/scraperService.js *)
Record Scraper := mkScraper {
  isRunning : bool;
  intervalId : option nat;
  processedCount : nat
}.

Record World := mkWorld {
  store : list Message;      (* the collection 'messages', in insertion order *)
  nextOid : nat;
  net : Net;
  clock : Z;                 (* Date.now() *)
  timers : list nat;         (* the interval timers that are armed *)
  nextTimer : nat;
  client : Client;
  sender : Sender;
  listener : Listener;
  scraper : Scraper;
  trace : list Event
}.

Definition with_store (f : list Message -> list Message) (w : World) : World :=
  mkWorld (f (store w)) (nextOid w) (net w) (clock w) (timers w) (nextTimer w)
    (client w) (sender w) (listener w) (scraper w) (trace w).

Definition with_nextOid (n : nat) (w : World) : World :=
  mkWorld (store w) n (net w) (clock w) (timers w) (nextTimer w)
    (client w) (sender w) (listener w) (scraper w) (trace w).

Definition with_net (f : Net -> Net) (w : World) : World :=
  mkWorld (store w) (nextOid w) (f (net w)) (clock w) (timers w) (nextTimer w)
    (client w) (sender w) (listener w) (scraper w) (trace w).

Definition with_clock (f : Z -> Z) (w : World) : World :=
  mkWorld (store w) (nextOid w) (net w) (f (clock w)) (timers w) (nextTimer w)
    (client w) (sender w) (listener w) (scraper w) (trace w).

Definition with_timers (f : list nat -> list nat) (n : nat) (w : World) : World :=
  mkWorld (store w) (nextOid w) (net w) (clock w) (f (timers w)) n
    (client w) (sender w) (listener w) (scraper w) (trace w).

Definition with_client (f : Client -> Client) (w : World) : World :=
  mkWorld (store w) (nextOid w) (net w) (clock w) (timers w) (nextTimer w)
    (f (client w)) (sender w) (listener w) (scraper w) (trace w).

Definition with_sender (f : Sender -> Sender) (w : World) : World :=
  mkWorld (store w) (nextOid w) (net w) (clock w) (timers w) (nextTimer w)
    (client w) (f (sender w)) (listener w) (scraper w) (trace w).

Definition with_listener (f : Listener -> Listener) (w : World) : World :=
  mkWorld (store w) (nextOid w) (net w) (clock w) (timers w) (nextTimer w)
    (client w) (sender w) (f (listener w)) (scraper w) (trace w).

Definition with_scraper (f : Scraper -> Scraper) (w : World) : World :=
  mkWorld (store w) (nextOid w) (net w) (clock w) (timers w) (nextTimer w)
    (client w) (sender w) (listener w) (f (scraper w)) (trace w).

Definition emit (e : Event) (w : World) : World :=
  mkWorld (store w) (nextOid w) (net w) (clock w) (timers w) (nextTimer w)
    (client w) (sender w) (listener w) (scraper w) (trace w ++ [e]).

(** *** The monad of an [async] method *)

Definition M (A : Type) : Type := World -> Completion A * World.

Definition ret {A} (a : A) : M A := fun w => (Returned a, w).

Definition throw {A} (e : Error) : M A := fun w => (Threw e, w).

Definition bind {A B} (m : M A) (k : A -> M B) : M B :=
  fun w => match m w with
           | (Returned a, w') => k a w'
           | (Threw e, w') => (Threw e, w')
           end.

(** [try { m } catch (error) { h(error) }] *)
Definition try_catch {A} (m : M A) (h : Error -> M A) : M A :=
  fun w => match m w with
           | (Returned a, w') => (Returned a, w')
           | (Threw e, w') => h e w'
           end.

(** [try { m } finally { f }], for an [f] that does not throw. *)
Definition finally {A} (m : M A) (f : World -> World) : M A :=
  fun w => let '(r, w') := m w in (r, f w').

Definition gets {A} (f : World -> A) : M A := fun w => (Returned (f w), w).

Definition modify (f : World -> World) : M unit := fun w => (Returned tt, f w).

Declare Scope js_scope.
Delimit Scope js_scope with js.
Notation "x <- m ;; k" := (bind m (fun x => k))
  (at level 61, m at next level, right associativity) : js_scope.
Notation "m ;; k" := (bind m (fun _ => k))
  (at level 61, right associativity) : js_scope.
Local Open Scope js_scope.

(** [for (const x of l) { body(x) }] *)
Fixpoint forEach {A} (l : list A) (body : A -> M unit) : M unit :=
  match l with
  | [] => ret tt
  | x :: l' => body x ;; forEach l' body
  end.

(** The delay that Node arms the timer of [setTimeout(callback, ms)] with:
    a delay that is not within 1 .. 2^31 - 1 is set to 1. *)
Definition timerDelay (ms : number) : Z :=
  match ms with
  | Int z => if (1 <=? z)%Z && (z <=? 2147483647)%Z then z else 1%Z
  | Infinity => 1%Z
  end.

(** [await this.sleep(ms)]: the event holds the delay that was asked for,
    the clock moves by the delay of the timer. *)
Definition sleep (ms : number) : M unit :=
  modify (fun w =>
    emit (EvSleep ms) (with_clock (fun t => (t + timerDelay ms)%Z) w)).

(** *** Calls that run together

    A call of an [async] method runs until its first [await] and hands back
    a promise; what follows the [await] runs in a later turn of the event
    loop, when the awaited answer has arrived, and other calls may have
    their turns in between. *)

(** A call after it was started: settled, or pending with what it does when
    it is resumed, up to its next [await]. *)
#[local] Unset Elimination Schemes.
Inductive Task (A : Type) : Type :=
| Settled (r : Completion A)
| Pending (resume : World -> Task A * World).
#[local] Set Elimination Schemes.
Arguments Settled {A} r.
Arguments Pending {A} resume.

(** Induction over the turns of a call. *)
Fixpoint Task_ind {A} (P : Task A -> Prop)
    (HS : forall r, P (Settled r))
    (HP : forall resume, (forall w, P (fst (resume w))) -> P (Pending resume))
    (t : Task A) : P t :=
  match t with
  | Settled r => HS r
  | Pending resume => HP resume (fun w => Task_ind P HS HP (fst (resume w)))
  end.

(** An [async] method: the start of a call. *)
Definition Async (A : Type) : Type := World -> Task A * World.

(** Code without an [await]. *)
Definition sync {A} (m : M A) : Async A :=
  fun w => let '(r, w') := m w in (Settled r, w').

(** What follows a call in the method that made it. *)
Fixpoint andThen {A B} (t : Task A) (k : A -> Async B) {struct t} : Async B :=
  fun w =>
    match t with
    | Settled (Returned a) => k a w
    | Settled (Threw e) => (Settled (Threw e), w)
    | Pending resume =>
        (Pending (fun w1 => let '(t', w2) := resume w1 in andThen t' k w2), w)
    end.

Definition abind {A B} (a : Async A) (k : A -> Async B) : Async B :=
  fun w => let '(t, w') := a w in andThen t k w'.

(** [try { a } catch (error) { h(error) }] around code with [await]s. *)
Fixpoint orCatch {A} (t : Task A) (h : Error -> Async A) {struct t} : Async A :=
  fun w =>
    match t with
    | Settled (Returned a) => (Settled (Returned a), w)
    | Settled (Threw e) => h e w
    | Pending resume =>
        (Pending (fun w1 => let '(t', w2) := resume w1 in orCatch t' h w2), w)
    end.

Definition atry {A} (a : Async A) (h : Error -> Async A) : Async A :=
  fun w => let '(t, w') := a w in orCatch t h w'.

(** The awaiting method goes on in the turn after the one in which the
    awaited call settled. *)
Fixpoint afterSettled {A} (t : Task A) : Task A :=
  match t with
  | Settled r => Pending (fun w => (Settled r, w))
  | Pending resume =>
      Pending (fun w => let '(t', w') := resume w in (afterSettled t', w'))
  end.

(** [await a()]: the call is started here. *)
Definition await {A} (a : Async A) : Async A :=
  fun w => let '(t, w') := a w in (afterSettled t, w').

Notation "x <~ a ;; k" := (abind a (fun x => k))
  (at level 61, a at next level, right associativity) : js_scope.
Notation "a ~;; k" := (abind a (fun _ => k))
  (at level 61, right associativity) : js_scope.

(** A call that is awaited with nothing else running. *)
Fixpoint runTask {A} (t : Task A) : M A :=
  fun w =>
    match t with
    | Settled r => (r, w)
    | Pending resume => let '(t', w') := resume w in runTask t' w'
    end.

Definition alone {A} (a : Async A) : M A :=
  fun w => let '(t, w') := a w in runTask t w'.

(** [calls.map(call => call())]: the calls are started in order, each up to
    its first [await]. *)
Fixpoint startAll {A} (calls : list (Async A)) : World -> list (Task A) * World :=
  fun w =>
    match calls with
    | [] => ([], w)
    | a :: rest =>
        let '(t, w1) := a w in
        let '(ts, w2) := startAll rest w1 in
        (t :: ts, w2)
    end.

Definition started {A} (calls : list (Async A)) : M (list (Task A)) :=
  fun w => let '(ts, w') := startAll calls w in (Returned ts, w').

(** The answer that the call at index [i] awaits has arrived: the call has
    its turn, if it is pending. *)
Fixpoint resumeAt {A} (i : nat) (calls : list (Task A))
  : World -> list (Task A) * World :=
  fun w =>
    match calls, i with
    | [], _ => ([], w)
    | Pending resume :: rest, 0 => let '(t, w') := resume w in (t :: rest, w')
    | Settled r :: rest, 0 => (calls, w)
    | c :: rest, S i' => let '(rest', w') := resumeAt i' rest w in (c :: rest', w')
    end.

Fixpoint inOrder {A} (order : list nat) (calls : list (Task A))
  : World -> list (Task A) * World :=
  fun w =>
    match order with
    | [] => (calls, w)
    | i :: order' => let '(calls', w') := resumeAt i calls w in
                     inOrder order' calls' w'
    end.

(** The calls [t :: ts] taking turns: in every round the pending ones among
    them are resumed once each, in their order; [ts] stands for the rest of
    the calls, already joined. *)
Fixpoint joined {A} (t : Task A)
  : Task (list (Completion A)) -> Task (list (Completion A)) :=
  fix rest (ts : Task (list (Completion A))) : Task (list (Completion A)) :=
    match t, ts with
    | Settled r, Settled (Returned rs) => Settled (Returned (r :: rs))
    | Settled _, Settled (Threw e) => Settled (Threw e)
    | Settled _, Pending resumes =>
        Pending (fun w => let '(ts', w') := resumes w in (rest ts', w'))
    | Pending resume, Settled _ =>
        Pending (fun w => let '(t', w') := resume w in (joined t' ts, w'))
    | Pending resume, Pending resumes =>
        Pending (fun w => let '(t', w1) := resume w in
                          let '(ts', w2) := resumes w1 in
                          (joined t' ts', w2))
    end.

Definition together {A} (calls : list (Task A)) : Task (list (Completion A)) :=
  fold_right joined (Settled (Returned [])) calls.

(** The script of arrivals for the next batch. *)
Definition nextArrivals : M (list nat) :=
  fun w =>
    match arrivals (net w) with
    | [] => (Returned [], w)
    | order :: rest => (Returned order, with_net (set_arrivals rest) w)
    end.

(** [await Promise.allSettled(promises)]: the calls are resumed as their
    answers arrive, until all of them have settled; the results are in the
    order of the calls. *)
Definition allSettled {A} (promises : list (Task A))
  : M (list (Completion A)) :=
  order <- nextArrivals ;;
  fun w => let '(calls, w') := inOrder order promises w in
           runTask (together calls) w'.

(* ===================================================================== *)
(** ** The store: mongoose over the collection 'messages' *)
(* ===================================================================== *)

Module Store.

(** The condition MongoDB raises on a violated unique index. *)
Definition duplicateKey : Error :=
  mkError (Some 11000%Z) (lit "E11000 duplicate key error collection: messages").

(** The key of [messageSchema.index({ channelId: 1, messageId: 1 },
    { unique: true })]. *)
Definition sameKey (a b : Message) : bool :=
  str_eqb (channelId a) (channelId b) && Z.eqb (messageId a) (messageId b).

(** The insert of a new document under the unique index, on the collection
    alone. *)
Definition insertDoc (m : Message) (docs : list Message)
  : Error + list Message :=
  if existsb (sameKey m) docs then inl duplicateKey else inr (docs ++ [m]).

(** [{ processed: true }] written to the document(s) with this [_id]. *)
Definition markProcessed (oid : nat) (docs : list Message) : list Message :=
  map (fun d => if _id d =? oid then set_processed true d else d) docs.

Definition lookup (oid : nat) (docs : list Message) : option Message :=
  find (fun d => _id d =? oid) docs.

(** Every call of the store first takes its scripted outcome: a failure of
    the connection or of the server is a scripted error, the duplicate key
    is decided by the collection itself. *)
Definition call {A} (op : M A) : M A :=
  fun w =>
    match storeFaults (net w) with
    | [] => op w
    | o :: rest =>
        let w' := with_net (set_storeFaults rest) w in
        match o with
        | Some e => (Threw e, w')
        | None => op w'
        end
    end.

(** [Message.findOne(query)]: the first document, in insertion order, that
    matches. *)
Definition findOne (query : Message -> bool) : M (option Message) :=
  call (gets (fun w => find query (store w))).

(** The schema's [required: true] on the four strings of a document:
    mongoose's validation refuses the empty string. *)
Definition valid (m : Message) : bool :=
  (0 <? length (channelId m)) && (0 <? length (channelUsername m))
  && (0 <? length (channelName m)) && (0 <? length (text m)).

(** The ValidationError [save()] rejects with. *)
Definition validationError : Error :=
  mkError None (lit "Message validation failed").

(** [doc.save()] of a document that is new: the document is validated
    first, and nothing is sent to the server when that fails. *)
Definition saveNew (m : Message) : M unit :=
  if valid m then
    call (fun w => match insertDoc m (store w) with
                   | inl e => (Threw e, w)
                   | inr docs => (Returned tt, with_store (fun _ => docs) w)
                   end)
  else throw validationError.

(** [doc.save()] after [doc.processed = true] on a stored document, and
    [Message.findByIdAndUpdate(id, { processed: true })]. *)
Definition saveProcessed (oid : nat) : M unit :=
  call (modify (with_store (markProcessed oid))).

(** A call of the store as the method that awaits it sees it: the command
    is sent at once, and takes effect in a turn of its own, before the one
    in which the method goes on. *)
Definition request {A} (op : M A) : Async A :=
  fun w => (Pending (fun w1 => let '(r, w2) := op w1 in (Settled r, w2)), w).

(** [new Message(fields)]: mongoose draws the ObjectId. *)
Definition construct (mid : Z) (cid cuser cname txt : str) (kws : list str)
    (date : Z) : M Message :=
  fun w => (Returned (newMessage (nextOid w) mid cid cuser cname txt kws date),
            with_nextOid (S (nextOid w)) w).

End Store.

(* ===================================================================== *)
(** ** scraper/telegramClient.js *)
(* ===================================================================== *)

Module TelegramClient.

Definition isClientConnected : M bool := gets (fun w => isConnected (client w)).

Definition set_made (c : Client) : Client :=
  mkClient true (isConnected c) (retryCount c) (maxRetries c).

Definition set_connected (b : bool) (c : Client) : Client :=
  mkClient (clientMade c) b (retryCount c) (maxRetries c).

Definition set_retryCount (n : nat) (c : Client) : Client :=
  mkClient (clientMade c) (isConnected c) n (maxRetries c).

(** [await this.client.connect()] of the transport. *)
Definition transportConnect : M unit :=
  fun w =>
    match connectOutcomes (net w) with
    | Some e :: rest =>
        (Threw e, emit (EvConnect false)
           (with_net (set_connectOutcomes rest) w))
    | None :: rest =>
        (Returned tt, emit (EvConnect true)
           (with_net (set_connectOutcomes rest) w))
    | [] => (Returned tt, emit (EvConnect true) w)
    end.

Definition handleConnectionError : M unit :=
  c <- gets client ;;
  if retryCount c <? maxRetries c then
    modify (with_client (set_retryCount (S (retryCount c)))) ;;
    modify (emit EvClientRetryArmed)
  else
    throw (mkError None
             (lit "Failed to connect to Telegram after multiple attempts")).

Definition connect : M unit :=
  try_catch
    (c <- isClientConnected ;;
     if c then ret tt
     else
       modify (with_client set_made) ;;
       transportConnect ;;
       modify (with_client (fun c => set_retryCount 0 (set_connected true c))))
    (fun _ => handleConnectionError).

(** A method called on [this.client] while it is still [null]. *)
Definition nullClient : Error :=
  mkError None (lit "Cannot read properties of null").

Definition getChannelEntity (username : str) : M str :=
  try_catch
    (c <- isClientConnected ;;
     (if c then ret tt else connect) ;;
     made <- gets (fun w => clientMade (client w)) ;;
     if made then
       modify (emit (EvGetEntity username)) ;;
       r <- gets (fun w => getEntity (net w) username) ;;
       match r with
       | inr entity => ret entity
       | inl e => throw e
       end
     else throw nullClient)
    (fun e => throw e).

(** [await this.telegramClient.client.sendMessage(entity, { message })] *)
Definition sendMessage (g : GroupData) (msg : str) : M unit :=
  made <- gets (fun w => clientMade (client w)) ;;
  if made then
    fun w =>
      match sendOutcomes (net w) with
      | Some e :: rest =>
          (Threw e, emit (EvSend (g_id (gd_config g)) msg false)
             (with_net (set_sendOutcomes rest) w))
      | None :: rest =>
          (Returned tt, emit (EvSend (g_id (gd_config g)) msg true)
             (with_net (set_sendOutcomes rest) w))
      | [] => (Returned tt, emit (EvSend (g_id (gd_config g)) msg true) w)
      end
  else throw nullClient.

(** [/FLOOD_WAIT_(\d+)/]: the leftmost place where the marker is followed by
    a digit, and the digits after it. *)
Fixpoint floodWaitDigits (s : str) : option str :=
  match (if startsWith s (lit "FLOOD_WAIT_")
         then takeWhile isDigit (skipn 11 s) else []) with
  | d :: ds => Some (d :: ds)
  | [] => match s with
          | [] => None
          | _ :: s' => floodWaitDigits s'
          end
  end.

(** The integer that a string of decimal digits spells. *)
Definition digitsValue (ds : str) : Z :=
  fold_left (fun acc d => (10 * acc + (Z.of_N d - 48))%Z) ds 0%Z.

(** [parseInt] of a string of decimal digits: the Number value of the
    integer they spell. *)
Definition parseInt (ds : str) : number := toNumber (digitsValue ds).

Definition extractFloodWaitTime (errorMessage : str) : number :=
  match floodWaitDigits errorMessage with
  | Some ds => parseInt ds
  | None => 60%Z
  end.

(** [await this.client.getMessages(entity, { limit, offsetId, reverse })] *)
Definition getMessages (entity : str) (limit : Z) : M (list TelegramMessage) :=
  made <- gets (fun w => clientMade (client w)) ;;
  if made then
    fun w =>
      match fetchOutcomes (net w) with
      | inl e :: rest => (Threw e, with_net (set_fetchOutcomes rest) w)
      | inr messages :: rest =>
          (Returned messages, with_net (set_fetchOutcomes rest) w)
      | [] => (Returned [], w)
      end
  else throw nullClient.

(** The [try] block of [getChannelMessages]. *)
Definition fetchBody (channelUsername : str) (limit : Z)
  : M (list TelegramMessage) :=
  c <- isClientConnected ;;
  (if c then ret tt else connect) ;;
  entity <- getChannelEntity channelUsername ;;
  getMessages entity limit.

(** [getChannelMessages] calls itself again after a flood wait; [fuel]
    bounds the depth of these calls, and [None] is the recursion cut
    short. *)
Fixpoint getChannelMessages (fuel : nat) (channelUsername : str) (limit : Z)
    (w : World) : option (Completion (list TelegramMessage) * World) :=
  match fuel with
  | 0 => None
  | S fuel' =>
      match fetchBody channelUsername limit w with
      | (Returned messages, w') => Some (Returned messages, w')
      | (Threw e, w') =>
          if includes (message e) (lit "FLOOD_WAIT") then
            let waitTime := extractFloodWaitTime (message e) in
            getChannelMessages fuel' channelUsername limit
              (snd (sleep (times waitTime 1000) w'))
          else Some (Threw e, w')
      end
  end.

Definition disconnect : M unit :=
  c <- gets client ;;
  if clientMade c && isConnected c then
    modify (emit EvDisconnect) ;;
    modify (with_client (set_connected false))
  else ret tt.

End TelegramClient.

(* ===================================================================== *)
(** ** scraper/messageSender.js *)
(* ===================================================================== *)

Module MessageSender.

Definition set_groupEntities (v : list (str * GroupData)) (s : Sender) : Sender :=
  mkSender v (sendQueue s) (isProcessingQueue s) (sentCount s).

Definition set_sendQueue (v : list QueueItem) (s : Sender) : Sender :=
  mkSender (groupEntities s) v (isProcessingQueue s) (sentCount s).

Definition set_isProcessingQueue (v : bool) (s : Sender) : Sender :=
  mkSender (groupEntities s) (sendQueue s) v (sentCount s).

Definition set_sentCount (v : nat) (s : Sender) : Sender :=
  mkSender (groupEntities s) (sendQueue s) (isProcessingQueue s) v.

(** [map.set(key, value)] on an insertion-ordered [Map]. *)
Fixpoint mapSet {V} (k : str) (v : V) (m : list (str * V)) : list (str * V) :=
  match m with
  | [] => [(k, v)]
  | (k', v') :: m' =>
      if str_eqb k' k then (k', v) :: m' else (k', v') :: mapSet k v m'
  end.

Fixpoint mapGet {V} (k : str) (m : list (str * V)) : option V :=
  match m with
  | [] => None
  | (k', v') :: m' => if str_eqb k' k then Some v' else mapGet k m'
  end.

Definition loadGroupEntities (cfg : Config) : M unit :=
  forEach (filter g_active (targetGroups cfg))
    (fun group =>
       try_catch
         (entity <- TelegramClient.getChannelEntity (g_username group) ;;
          modify (with_sender (fun s =>
            set_groupEntities
              (mapSet (g_id group) (mkGroupData entity group) (groupEntities s)) s)))
         (fun _ => ret tt)).

(** [truncateText(text, maxLength)] *)
Definition truncateText (txt : str) (maxLength : Z) : str :=
  if (Z.of_nat (length txt) <=? maxLength)%Z then txt
  else substring0 txt (maxLength - 3) ++ lit "...".

(** The replacement text of [String.prototype.replace] for a pattern with
    no capture group: [$$], [$&], [$`] and [$'] are expanded, any other [$]
    stands for itself. *)
Fixpoint expandReplacement (value matched before after : str) : str :=
  match value with
  | [] => []
  | c :: r =>
      if N.eqb c 36 then
        match r with
        | d :: r' =>
            if N.eqb d 36 then 36%N :: expandReplacement r' matched before after
            else if N.eqb d 38 then matched ++ expandReplacement r' matched before after
            else if N.eqb d 96 then before ++ expandReplacement r' matched before after
            else if N.eqb d 39 then after ++ expandReplacement r' matched before after
            else c :: expandReplacement r matched before after
        | [] => [c]
        end
      else c :: expandReplacement r matched before after
  end.

(** [subject.replace(new RegExp(escaped(placeholder), 'g'), value)] for a
    placeholder that is not empty; [seen] is the part of the subject already
    passed, reversed, and [skip] what is left of the last match. *)
Fixpoint replaceFrom (placeholder value : str) (seen : str) (skip : nat)
    (rest : str) : str :=
  match rest with
  | [] => []
  | c :: rest' =>
      match skip with
      | S k => replaceFrom placeholder value (c :: seen) k rest'
      | 0 =>
          if startsWith rest placeholder then
            expandReplacement value placeholder (rev seen)
              (skipn (length placeholder) rest)
            ++ replaceFrom placeholder value (c :: seen)
                 (length placeholder - 1) rest'
          else c :: replaceFrom placeholder value (c :: seen) 0 rest'
      end
  end.

Definition replaceAll (placeholder value subject : str) : str :=
  replaceFrom placeholder value [] 0 subject.

Definition quoted (c : str) : str := backtick :: c ++ [backtick].

Definition allBonusCodesText (messageDoc : Message) : str :=
  match allBonusCodes messageDoc with
  | _ :: _ => join [newline] (map quoted (allBonusCodes messageDoc))
  | [] => match bonusCode messageDoc with
          | Some (c :: s) => quoted (c :: s)
          | _ => []
          end
  end.

(** 'Bulunamadı' *)
Definition notFound : str := lit "Bulunamad" ++ [305%N].

(** The object [replacements], as [Object.entries] lists it. *)
Definition replacements (cfg : Config) (messageDoc : Message)
  : list (str * str) :=
  [ (lit "{channelName}", channelName messageDoc);
    (lit "{bonusCode}", orElse (bonusCode messageDoc) notFound);
    (lit "{allBonusCodes}", allBonusCodesText messageDoc);
    (lit "{websiteUrl}", orElse (websiteUrl messageDoc) notFound);
    (lit "{messageText}", truncateText (text messageDoc) 200);
    (lit "{messageDate}", formatDate cfg (messageDate messageDoc));
    (lit "{keywords}", join (lit ", ") (matchedKeywords messageDoc)) ].

Definition formatMessage (cfg : Config) (messageDoc : Message)
    (groupConfig : GroupConfig) : str :=
  fold_left (fun template pv => replaceAll (fst pv) (snd pv) template)
    (replacements cfg messageDoc) (g_messageTemplate groupConfig).

Definition push (item : QueueItem) : M unit :=
  modify (with_sender (fun s => set_sendQueue (sendQueue s ++ [item]) s)).

Definition unshift (item : QueueItem) : M unit :=
  modify (with_sender (fun s => set_sendQueue (item :: sendQueue s) s)).

Definition sendToTargetGroups (cfg : Config) (messageDoc : Message) : M unit :=
  try_catch
    (entities <- gets (fun w => groupEntities (sender w)) ;;
     let activeGroups :=
       filter (fun g => g_active (gd_config g)) (map snd entities) in
     match activeGroups with
     | [] => ret tt
     | _ :: _ =>
         forEach activeGroups
           (fun g =>
              let formattedMessage := formatMessage cfg messageDoc (gd_config g) in
              now <- gets clock ;;
              push (mkQueueItem g formattedMessage messageDoc now))
     end)
    (fun _ => ret tt).

(** The same method as in the client. *)
Definition extractFloodWaitTime (errorMessage : str) : number :=
  TelegramClient.extractFloodWaitTime errorMessage.

Definition sendSingleMessage (queueItem : QueueItem) : M unit :=
  try_catch
    (c <- TelegramClient.isClientConnected ;;
     (if c then ret tt else TelegramClient.connect) ;;
     TelegramClient.sendMessage (groupData queueItem) (q_message queueItem) ;;
     (* [if (originalMessage._id)]: an ObjectId is truthy *)
     Store.saveProcessed (_id (originalMessage queueItem)))
    (fun e => throw e).

(** The body of the loop over the batch, with its own try/catch. *)
Definition sendOrRequeue (cfg : Config) (queueItem : QueueItem) : M unit :=
  try_catch
    (sendSingleMessage queueItem ;;
     modify (with_sender (fun s => set_sentCount (S (sentCount s)) s)) ;;
     if (sendDelay cfg >? 0)%Z then sleep (sendDelay cfg) else ret tt)
    (fun e =>
       if includes (message e) (lit "FLOOD_WAIT") then
         let waitTime := extractFloodWaitTime (message e) in
         unshift queueItem ;;
         sleep (times waitTime 1000)
       else ret tt).

Definition processQueue (cfg : Config) : M unit :=
  q <- gets (fun w => sendQueue (sender w)) ;;
  match q with
  | [] => ret tt
  | _ :: _ =>
      modify (with_sender (set_isProcessingQueue true)) ;;
      finally
        (try_catch
           (q <- gets (fun w => sendQueue (sender w)) ;;
            (* const batch = this.sendQueue.splice(0, batchSize) *)
            let batch := firstn (Z.to_nat (batchSize cfg)) q in
            modify (with_sender
                      (set_sendQueue (skipn (Z.to_nat (batchSize cfg)) q))) ;;
            forEach batch (sendOrRequeue cfg))
           (fun _ => ret tt))
        (with_sender (set_isProcessingQueue false))
  end.

(** The callback of [startQueueProcessor]'s interval. *)
Definition queueTick (cfg : Config) : M unit :=
  s <- gets sender ;;
  if negb (isProcessingQueue s) && (0 <? length (sendQueue s))
  then processQueue cfg else ret tt.

Definition clearQueue : M unit :=
  modify (with_sender (set_sendQueue [])).

Definition stop : M unit :=
  clearQueue ;;
  modify (with_sender (set_groupEntities [])).

End MessageSender.

(* ===================================================================== *)
(** ** scraper/scraperService.js *)
(* ===================================================================== *)

Module ScraperService.

Definition shouldSendToGroups (messageDoc : Message) : bool :=
  if negb (hasBonus messageDoc) || negb (hasWebsite messageDoc) then false
  else if negb (truthy (bonusCode messageDoc))
          || (length (trim (orElse (bonusCode messageDoc) [])) <? 4) then false
  else if negb (truthy (websiteUrl messageDoc))
          || negb (startsWith (orElse (websiteUrl messageDoc) []) (lit "http"))
       then false
  else true.

(** [telegramMessage.text.trim().split('\n')
      .filter(line => line.trim().length > 0)] *)
Definition formatLines (txt : str) : list str :=
  filter (fun line => 0 <? length (trim line)) (split newline (trim txt)).

(** The test of [lines.some(...)]. *)
Definition lineHasUrl (line : str) : bool :=
  includes line (lit "http") || includes line (lit ".com")
  || includes line (lit ".net") || includes line (lit ".org").

(** [processMessage] fulfils with [undefined] or with ['bonus_sent']. *)
Inductive Outcome := Undefined | BonusSent.

(** [await this.processMessage(telegramMessage, channelConfig)], with
    nothing else running. *)
Definition processMessage (cfg : Config) (telegramMessage : TelegramMessage)
    (channelConfig : ChannelConfig) : M Outcome :=
  try_catch
    (if negb (truthy (tm_text telegramMessage)) then ret Undefined
     else
       existingMessage <-
         Store.findOne (fun d =>
           Z.eqb (messageId d) (tm_id telegramMessage)
           && str_eqb (channelUsername d) (c_username channelConfig)) ;;
       match existingMessage with
       | Some existing =>
           if hasBonus existing && hasWebsite existing
              && negb (processed existing) then
             if shouldSendToGroups existing then
               MessageSender.sendToTargetGroups cfg existing ;;
               Store.saveProcessed (_id existing) ;;
               ret BonusSent
             else ret Undefined
           else ret Undefined
       | None =>
           let lines := formatLines (textOf telegramMessage) in
           (* "Must have 2-5 lines total" *)
           if (length lines <? 2) || (5 <? length lines) then ret Undefined
           else
           (* "Must contain at least one URL" *)
           let hasUrl := existsb lineHasUrl lines in
           if negb hasUrl then ret Undefined
           else
             doc <- Store.construct (tm_id telegramMessage)
                      (channelIdOf telegramMessage) (c_username channelConfig)
                      (c_name channelConfig) (textOf telegramMessage)
                      [lit "bonus_format"] (tm_date telegramMessage * 1000) ;;
             let messageDoc := extractData doc in
             Store.saveNew messageDoc ;;
             if shouldSendToGroups messageDoc then
               MessageSender.sendToTargetGroups cfg messageDoc ;;
               Store.saveProcessed (_id messageDoc) ;;
               ret BonusSent
             else ret Undefined
       end)
    (fun error =>
       if codeIs 11000 error
       then ret Undefined     (* "Message already exists, skip silently" *)
       else ret Undefined).   (* console.error *)

(** [processMessage] as a call among others: the same method, cut at its
    [await]s ([processMessage] above is this call awaited alone). *)
Definition processMessageCall (cfg : Config) (telegramMessage : TelegramMessage)
    (channelConfig : ChannelConfig) : Async Outcome :=
  atry
    (if negb (truthy (tm_text telegramMessage)) then sync (ret Undefined)
     else
       existingMessage <~
         await (Store.request (Store.findOne (fun d =>
           Z.eqb (messageId d) (tm_id telegramMessage)
           && str_eqb (channelUsername d) (c_username channelConfig)))) ;;
       match existingMessage with
       | Some existing =>
           if hasBonus existing && hasWebsite existing
              && negb (processed existing) then
             if shouldSendToGroups existing then
               await (sync (MessageSender.sendToTargetGroups cfg existing)) ~;;
               await (Store.request (Store.saveProcessed (_id existing))) ~;;
               sync (ret BonusSent)
             else sync (ret Undefined)
           else sync (ret Undefined)
       | None =>
           let lines := formatLines (textOf telegramMessage) in
           if (length lines <? 2) || (5 <? length lines) then sync (ret Undefined)
           else
           let hasUrl := existsb lineHasUrl lines in
           if negb hasUrl then sync (ret Undefined)
           else
             doc <~ sync (Store.construct (tm_id telegramMessage)
                      (channelIdOf telegramMessage) (c_username channelConfig)
                      (c_name channelConfig) (textOf telegramMessage)
                      [lit "bonus_format"] (tm_date telegramMessage * 1000)) ;;
             let messageDoc := extractData doc in
             await (Store.request (Store.saveNew messageDoc)) ~;;
             if shouldSendToGroups messageDoc then
               await (sync (MessageSender.sendToTargetGroups cfg messageDoc)) ~;;
               await (Store.request (Store.saveProcessed (_id messageDoc))) ~;;
               sync (ret BonusSent)
             else sync (ret Undefined)
       end)
    (fun error =>
       if codeIs 11000 error
       then sync (ret Undefined)
       else sync (ret Undefined)).

(** [result.status === 'fulfilled' && result.value === 'bonus_sent'] *)
Definition isBonusSent (result : Completion Outcome) : bool :=
  match result with
  | Returned BonusSent => true
  | _ => false
  end.

(** [processMessageBatch]: the calls of [processMessage] are all started,
    in the order of the batch, before [Promise.allSettled] is awaited; the
    result counts those that fulfilled with ['bonus_sent']. *)
Definition processMessageBatch (cfg : Config) (messages : list TelegramMessage)
    (channelConfig : ChannelConfig) : M nat :=
  messagePromises <-
    started (map (fun msg => processMessageCall cfg msg channelConfig)
               messages) ;;
  results <- allSettled messagePromises ;;
  ret (length (filter isBonusSent results)).

(** The same method as in the client. *)
Definition extractFloodWaitTime (errorMessage : str) : number :=
  TelegramClient.extractFloodWaitTime errorMessage.

(** [config.scraping.batchSize] of config/env.js. *)
Definition scrapingBatchSize : nat := 10.

(** The loop of [scrapeChannel] over the slices of [recentMessages]; [k]
    bounds the number of slices (the length of the list is enough). The
    result is the pair of [newMessageCount] and [bonusFoundCount]. *)
Fixpoint processInBatches (cfg : Config) (k : nat)
    (recentMessages : list TelegramMessage) (channelConfig : ChannelConfig)
  : M (nat * nat) :=
  match k, recentMessages with
  | S k', _ :: _ =>
      let batch := firstn scrapingBatchSize recentMessages in
      bonusCount <- processMessageBatch cfg batch channelConfig ;;
      rest <- processInBatches cfg k' (skipn scrapingBatchSize recentMessages)
                channelConfig ;;
      ret (length batch + fst rest, bonusCount + snd rest)
  | _, _ => ret (0, 0)
  end.

Definition set_processedCount (v : nat) (s : Scraper) : Scraper :=
  mkScraper (isRunning s) (intervalId s) v.

(** [scrapeChannel]; its [catch] logs and throws the error again. *)
Definition scrapeChannel (cfg : Config) (fuel : nat)
    (channelConfig : ChannelConfig) (w : World)
  : option (Completion nat * World) :=
  match TelegramClient.getChannelMessages fuel (c_username channelConfig)
          (maxMessagesPerCheck cfg) w with
  | None => None
  | Some (Threw e, w') => Some (Threw e, w')
  | Some (Returned messages, w') =>
      Some
        ((match messages with
          | [] => ret 0
          | _ :: _ =>
              now <- gets clock ;;
              let oneDayAgo := (now - maxAgeHours cfg * 60 * 60 * 1000)%Z in
              let recentMessages :=
                filter (fun msg => (oneDayAgo <? tm_date msg * 1000)%Z)
                  messages in
              match recentMessages with
              | [] => ret 0
              | _ :: _ =>
                  counts <- processInBatches cfg (length recentMessages)
                              recentMessages channelConfig ;;
                  modify (with_scraper (fun s =>
                    set_processedCount (processedCount s + fst counts) s)) ;;
                  ret (fst counts)
              end
          end) w')
  end.

(** [scrapeAllChannels] *)
Fixpoint scrapeChannels (cfg : Config) (fuel : nat)
    (activeChannels : list ChannelConfig) (w : World)
  : option (Completion unit * World) :=
  match activeChannels with
  | [] => Some (Returned tt, w)
  | channel :: rest =>
      match scrapeChannel cfg fuel channel w with
      | None => None
      | Some (Returned _, w') =>
          scrapeChannels cfg fuel rest (snd (sleep 2000 w'))
      | Some (Threw error, w') =>
          if includes (message error) (lit "FLOOD_WAIT") then
            let waitTime := extractFloodWaitTime (message error) in
            scrapeChannels cfg fuel rest
              (snd (sleep (times waitTime 1000) w'))
          else scrapeChannels cfg fuel rest w'
      end
  end.

Definition scrapeAllChannels (cfg : Config) (fuel : nat) (w : World)
  : option (Completion unit * World) :=
  scrapeChannels cfg fuel (filter c_active (channels cfg)) w.

(** [Message.findOne({ hasBonus: true, hasWebsite: true })
      .sort({ messageDate: -1 })]: the first of the matching documents with
    the greatest date. *)
Fixpoint latest (best : option Message) (docs : list Message) : option Message :=
  match docs with
  | [] => best
  | d :: docs' =>
      if hasBonus d && hasWebsite d then
        match best with
        | Some b => if (messageDate b <? messageDate d)%Z
                    then latest (Some d) docs' else latest best docs'
        | None => latest (Some d) docs'
        end
      else latest best docs'
  end.

Definition sendLatestBonusMessage (cfg : Config) : M unit :=
  try_catch
    (latestMessage <- Store.call (gets (fun w => latest None (store w))) ;;
     match latestMessage with
     | Some m => MessageSender.sendToTargetGroups cfg m
     | None => ret tt
     end)
    (fun _ => ret tt).

End ScraperService.

(* ===================================================================== *)
(** ** scraper/realTimeListener.js *)
(* ===================================================================== *)

Module RealTimeListener.

Definition set_isListening (v : bool) (l : Listener) : Listener :=
  mkListener v (channelEntities l) (heartbeatInterval l) (reconnectAttempts l)
    (maxReconnectAttempts l).

Definition set_channelEntities (v : list (str * ChannelData)) (l : Listener)
  : Listener :=
  mkListener (isListening l) v (heartbeatInterval l) (reconnectAttempts l)
    (maxReconnectAttempts l).

Definition set_heartbeatInterval (v : option nat) (l : Listener) : Listener :=
  mkListener (isListening l) (channelEntities l) v (reconnectAttempts l)
    (maxReconnectAttempts l).

Definition set_reconnectAttempts (v : nat) (l : Listener) : Listener :=
  mkListener (isListening l) (channelEntities l) (heartbeatInterval l) v
    (maxReconnectAttempts l).

Definition shouldSendToGroups (cfg : Config) (messageDoc : Message) : bool :=
  if onlyWithBonusCode cfg && negb (hasBonus messageDoc) then false
  else if (Z.of_nat (length (text messageDoc)) <? minMessageLength cfg)%Z
       then false
  else true.

(** The TypeError of [this.text.trim()], the first statement of
    [extractData], on a document whose text is undefined. *)
Definition textUndefined : Error :=
  mkError None (lit "Cannot read properties of undefined (reading 'trim')").

Definition processRealTimeMessage (cfg : Config)
    (telegramMessage : TelegramMessage) (channelConfig : ChannelConfig)
    (matched : list str) : M unit :=
  try_catch
    (doc <- Store.construct (tm_id telegramMessage)
              (channelIdOf telegramMessage) (c_username channelConfig)
              (c_name channelConfig) (textOf telegramMessage) matched
              (tm_date telegramMessage * 1000) ;;
     (* messageDoc.extractData() *)
     messageDoc <- match tm_text telegramMessage with
                   | Some _ => ret (extractData doc)
                   | None => throw textUndefined
                   end ;;
     Store.saveNew messageDoc ;;
     if shouldSendToGroups cfg messageDoc
     then MessageSender.sendToTargetGroups cfg messageDoc
     else ret tt)
    (fun error =>
       if codeIs 11000 error
       then ret tt     (* "already exists in database" *)
       else ret tt).   (* console.error *)

(** [handleNewMessage(event)], on [event.message]. *)
Definition handleNewMessage (cfg : Config) (message : TelegramMessage) : M unit :=
  try_catch
    (if negb (truthy (tm_text message)) then ret tt
     else
       entities <- gets (fun w => channelEntities (listener w)) ;;
       match tm_channelId message with
       | Some (c :: s) =>
           match MessageSender.mapGet (c :: s) entities with
           | Some channelData =>
               let channelConfig := cd_config channelData in
               let messageText := toLowerCase cfg (textOf message) in
               let matched :=
                 filter (fun keyword =>
                           includes messageText (toLowerCase cfg keyword))
                   (c_keywords channelConfig) in
               match matched with
               | [] => ret tt
               | _ :: _ =>
                   processRealTimeMessage cfg message channelConfig matched
               end
           | None => ret tt
           end
       | _ => ret tt
       end)
    (fun _ => ret tt).

Definition loadChannelEntities (cfg : Config) : M unit :=
  forEach (filter (fun c => c_active c && c_realTimeEnabled c) (channels cfg))
    (fun channel =>
       try_catch
         (entity <- TelegramClient.getChannelEntity (c_username channel) ;;
          modify (with_listener (fun l =>
            set_channelEntities
              (MessageSender.mapSet entity (mkChannelData entity channel)
                 (channelEntities l)) l)))
         (fun _ => ret tt)).

(** [setInterval(callback, interval)]: a fresh handle, armed. *)
Definition startHeartbeat : M unit :=
  modify (fun w =>
    let t := nextTimer w in
    with_listener (set_heartbeatInterval (Some t))
      (with_timers (fun ts => ts ++ [t]) (S t) w)).

Definition removeTimer (t : nat) (ts : list nat) : list nat :=
  filter (fun t' => negb (t' =? t)) ts.

Definition stop : M unit :=
  modify (with_listener (set_isListening false)) ;;
  h <- gets (fun w => heartbeatInterval (listener w)) ;;
  (match h with
   | Some t =>
       modify (fun w => with_timers (removeTimer t) (nextTimer w) w) ;;
       modify (with_listener (set_heartbeatInterval None))
   | None => ret tt
   end) ;;
  modify (with_listener (set_channelEntities [])).

(** The [try] block of [start]. *)
Definition startBody (cfg : Config) : M unit :=
  if negb (realTimeEnabled cfg) then ret tt
  else
    c <- TelegramClient.isClientConnected ;;
    (if c then ret tt else TelegramClient.connect) ;;
    loadChannelEntities cfg ;;
    made <- gets (fun w => clientMade (client w)) ;;
    (if made then modify (emit EvAddHandler)
     else throw TelegramClient.nullClient) ;;
    modify (with_listener (set_isListening true)) ;;
    modify (with_listener (set_reconnectAttempts 0)) ;;
    startHeartbeat.

(** [start] and [handleReconnect] call each other; [fuel] bounds the depth
    of that nesting, and [None] is the nesting cut short. *)
Definition Run := World -> option (Completion unit * World).

(** [start], its [catch] calling [handleReconnect]. *)
Definition startWith (cfg : Config) (handleReconnect : Run) : Run :=
  fun w =>
    match startBody cfg w with
    | (Returned u, w') => Some (Returned u, w')
    | (Threw _, w') => handleReconnect w'
    end.

Fixpoint handleReconnect (cfg : Config) (fuel : nat) : Run :=
  fun w =>
    match fuel with
    | 0 => None
    | S fuel' =>
        if maxReconnectAttempts (listener w) <=? reconnectAttempts (listener w)
        then Some (stop w)
        else
          let w1 :=
            with_listener
              (fun l => set_reconnectAttempts (S (reconnectAttempts l)) l) w in
          let w2 := snd (sleep (reconnectDelay cfg) w1) in
          match stop w2 with
          | (Returned _, w3) =>
              match startWith cfg (handleReconnect cfg fuel') w3 with
              | Some (Returned u, w4) => Some (Returned u, w4)
              | Some (Threw _, w4) => Some (Returned tt, emit EvReconnectArmed w4)
              | None => None
              end
          | (Threw _, w3) => Some (Returned tt, emit EvReconnectArmed w3)
          end
    end.

Definition start (cfg : Config) (fuel : nat) : Run :=
  startWith cfg (handleReconnect cfg fuel).

(** The callback of the heartbeat interval [t]; an interval that has been
    cleared does not fire. *)
Definition heartbeatTick (cfg : Config) (fuel : nat) (t : nat) : Run :=
  fun w =>
    if existsb (Nat.eqb t) (timers w) then
      if isListening (listener w) && isConnected (client w)
      then Some (Returned tt, w)
      else
        match handleReconnect cfg fuel w with
        | Some (Threw _, w') => handleReconnect cfg fuel w'
        | r => r
        end
    else Some (Returned tt, w).

End RealTimeListener.

(** [ScraperService.stop] *)
Definition scraperStop : M unit :=
  modify (with_scraper (fun s => mkScraper false (intervalId s) (processedCount s))) ;;
  i <- gets (fun w => intervalId (scraper w)) ;;
  (match i with
   | Some t =>
       modify (fun w => with_timers (RealTimeListener.removeTimer t) (nextTimer w) w) ;;
       modify (with_scraper (fun s => mkScraper (isRunning s) None (processedCount s)))
   | None => ret tt
   end) ;;
  RealTimeListener.stop ;;
  MessageSender.stop ;;
  TelegramClient.disconnect.

(* ===================================================================== *)
(** ** The operations of the system, and what the properties speak of *)
(* ===================================================================== *)

(** The methods that the timers, the push handler and the control surface
    invoke, with their arguments. *)
Inductive Operation :=
| OpProcessMessage (tm : TelegramMessage) (ch : ChannelConfig)
| OpProcessMessageBatch (tms : list TelegramMessage) (ch : ChannelConfig)
| OpScrapeChannel (fuel : nat) (ch : ChannelConfig)
| OpScrapeAllChannels (fuel : nat)
| OpHandleNewMessage (tm : TelegramMessage)
| OpProcessRealTimeMessage (tm : TelegramMessage) (ch : ChannelConfig)
    (matched : list str)
| OpSendToTargetGroups (doc : Message)
| OpSendLatestBonusMessage
| OpLoadGroupEntities
| OpQueueTick
| OpProcessQueue
| OpSendSingleMessage (item : QueueItem)
| OpClearQueue
| OpSenderStop
| OpListenerStart (fuel : nat)
| OpHandleReconnect (fuel : nat)
| OpHeartbeatTick (fuel : nat) (t : nat)
| OpListenerStop
| OpScraperStop
| OpClientConnect
| OpClientDisconnect.

Definition after {A} (m : M A) (w : World) : option World := Some (snd (m w)).

Definition afterRun {A} (r : World -> option (Completion A * World))
    (w : World) : option World :=
  match r w with
  | Some (_, w') => Some w'
  | None => None
  end.

(** The world an operation leaves, [None] when the nesting of [start] and
    [handleReconnect], or the retries of [getChannelMessages], were cut
    short. *)
Definition run (cfg : Config) (op : Operation) (w : World) : option World :=
  match op with
  | OpProcessMessage tm ch => after (ScraperService.processMessage cfg tm ch) w
  | OpProcessMessageBatch tms ch =>
      after (ScraperService.processMessageBatch cfg tms ch) w
  | OpScrapeChannel fuel ch => afterRun (ScraperService.scrapeChannel cfg fuel ch) w
  | OpScrapeAllChannels fuel => afterRun (ScraperService.scrapeAllChannels cfg fuel) w
  | OpHandleNewMessage tm => after (RealTimeListener.handleNewMessage cfg tm) w
  | OpProcessRealTimeMessage tm ch matched =>
      after (RealTimeListener.processRealTimeMessage cfg tm ch matched) w
  | OpSendToTargetGroups doc => after (MessageSender.sendToTargetGroups cfg doc) w
  | OpSendLatestBonusMessage => after (ScraperService.sendLatestBonusMessage cfg) w
  | OpLoadGroupEntities => after (MessageSender.loadGroupEntities cfg) w
  | OpQueueTick => after (MessageSender.queueTick cfg) w
  | OpProcessQueue => after (MessageSender.processQueue cfg) w
  | OpSendSingleMessage item => after (MessageSender.sendSingleMessage item) w
  | OpClearQueue => after MessageSender.clearQueue w
  | OpSenderStop => after MessageSender.stop w
  | OpListenerStart fuel => afterRun (RealTimeListener.start cfg fuel) w
  | OpHandleReconnect fuel => afterRun (RealTimeListener.handleReconnect cfg fuel) w
  | OpHeartbeatTick fuel t => afterRun (RealTimeListener.heartbeatTick cfg fuel t) w
  | OpListenerStop => after RealTimeListener.stop w
  | OpScraperStop => after scraperStop w
  | OpClientConnect => after TelegramClient.connect w
  | OpClientDisconnect => after TelegramClient.disconnect w
  end.

Fixpoint runAll (cfg : Config) (ops : list Operation) (w : World)
  : option World :=
  match ops with
  | [] => Some w
  | op :: ops' =>
      match run cfg op w with
      | Some w' => runAll cfg ops' w'
      | None => None
      end
  end.

(** What may happen to one stored document: nothing, or its [processed]
    flag goes from [false] to [true]. *)
Definition flagStep (d d' : Message) : Prop :=
  d' = d \/ (processed d = false /\ d' = set_processed true d).

(** Every document of [before] is still in [after'], under the same [_id],
    changed by a [flagStep] at most. *)
Definition processedMonotone (before after' : list Message) : Prop :=
  forall oid d,
    Store.lookup oid before = Some d ->
    exists d', Store.lookup oid after' = Some d' /\ flagStep d d'.

(** A computation preserves a relation on worlds when every run of it
    leaves a world related to the one it started in, whether it returns or
    throws. *)
Definition preserves (R : World -> World -> Prop) {A} (m : M A) : Prop :=
  forall w, R w (snd (m w)).

(** Every turn of a call leaves a world related to the one the turn
    started in. *)
Fixpoint turnsPreserve (R : World -> World -> Prop) {A} (t : Task A) : Prop :=
  match t with
  | Settled _ => True
  | Pending resume =>
      forall w, R w (snd (resume w)) /\ turnsPreserve R (fst (resume w))
  end.

(** ... and so does the start of the call. *)
Definition callPreserves (R : World -> World -> Prop) {A} (a : Async A)
  : Prop :=
  forall w, R w (snd (a w)) /\ turnsPreserve R (fst (a w)).

(** Whenever the call settles, its completion satisfies [P]. *)
Fixpoint settlesIn {A} (P : Completion A -> Prop) (t : Task A) : Prop :=
  match t with
  | Settled r => P r
  | Pending resume => forall w, settlesIn P (fst (resume w))
  end.

(** A completion that is not a rejection. *)
Definition fulfilled {A} (r : Completion A) : Prop := exists a, r = Returned a.

(** The results of [n] calls, none of them rejected. *)
Definition allFulfilled {A} (n : nat) (r : Completion (list (Completion A)))
  : Prop :=
  exists rs, r = Returned rs /\ length rs = n /\ Forall fulfilled rs.

(** The results of the calls of [processMessageBatch], before they are
    counted. *)
Definition batchResults (cfg : Config) (messages : list TelegramMessage)
    (channelConfig : ChannelConfig) : M (list (Completion ScraperService.Outcome)) :=
  messagePromises <-
    started (map (fun msg =>
                    ScraperService.processMessageCall cfg msg channelConfig)
               messages) ;;
  allSettled messagePromises.

(** A computation whose throws leave a world related to the start. *)
Definition throwsWithin (R : World -> World -> Prop) {A} (m : M A) : Prop :=
  forall w e w', m w = (Threw e, w') -> R w w'.

(** The relations that are carried through the methods: reflexive and
    transitive. *)
Class Frame (R : World -> World -> Prop) : Prop := {
  frame_refl : forall w, R w w;
  frame_trans : forall a b c, R a b -> R b c -> R a c
}.

(** The store moves by [processedMonotone]. *)
Definition storeRel (w w' : World) : Prop :=
  processedMonotone (store w) (store w').

(** The listener's attempt counter and its bound are as they were. *)
Definition countersRel (w w' : World) : Prop :=
  reconnectAttempts (listener w') = reconnectAttempts (listener w)
  /\ maxReconnectAttempts (listener w') = maxReconnectAttempts (listener w).

(** The documents stored under the unique index's key of [m]. *)
Definition withKey (m : Message) (docs : list Message) : list Message :=
  filter (Store.sameKey m) docs.

(** The unique index holds: no key is stored twice. *)
Definition uniqueIndex (docs : list Message) : Prop :=
  forall m, length (withKey m docs) <= 1.

(** The unique index, if it held, still holds. *)
Definition indexRel (w w' : World) : Prop :=
  uniqueIndex (store w) -> uniqueIndex (store w').

(** The relations that look at the store alone, and hold across the two
    writes the store has. *)
Class StoreFrame (R : World -> World -> Prop) : Prop := {
  sf_frame :: Frame R;
  sf_store : forall w w', store w' = store w -> R w w';
  sf_insert :
    forall m w docs,
      Store.insertDoc m (store w) = inr docs ->
      R w (with_store (fun _ => docs) w);
  sf_mark : forall oid w, R w (with_store (Store.markProcessed oid) w)
}.

(** A key that is stored stays stored. *)
Definition keyRel (m : Message) (w w' : World) : Prop :=
  existsb (Store.sameKey m) (store w) = true ->
  existsb (Store.sameKey m) (store w') = true.

(** No document of the list has the key of a later one. *)
Fixpoint uniqueKeys (docs : list Message) : bool :=
  match docs with
  | [] => true
  | d :: docs' => negb (existsb (Store.sameKey d) docs') && uniqueKeys docs'
  end.

(** The [sendMessage] calls of a trace, in order: group id and success. *)
Fixpoint sends (tr : list Event) : list (str * bool) :=
  match tr with
  | [] => []
  | EvSend g _ ok :: tr' => (g, ok) :: sends tr'
  | _ :: tr' => sends tr'
  end.

(** The connect attempts of a trace. *)
Fixpoint connects (tr : list Event) : nat :=
  match tr with
  | [] => 0
  | EvConnect _ :: tr' => S (connects tr')
  | _ :: tr' => connects tr'
  end.




(** The query of [processMessage]'s lookup. *)
Definition byHandle (tm : TelegramMessage) (ch : ChannelConfig) (d : Message)
  : bool :=
  Z.eqb (messageId d) (tm_id tm) && str_eqb (channelUsername d) (c_username ch).

(** The document either ingestion path constructs for a message. *)
Definition docOf (oid : nat) (tm : TelegramMessage) (ch : ChannelConfig)
    (kws : list str) : Message :=
  newMessage oid (tm_id tm) (channelIdOf tm) (c_username ch) (c_name ch)
    (textOf tm) kws (tm_date tm * 1000).

(** The same world up to the collaborators' scripts. *)
Definition sameButNet (w w' : World) : Prop :=
  store w' = store w /\ nextOid w' = nextOid w /\ clock w' = clock w
  /\ timers w' = timers w /\ client w' = client w /\ sender w' = sender w
  /\ listener w' = listener w /\ scraper w' = scraper w
  /\ trace w' = trace w.

(** *** Fixtures for the concrete runs *)

Module Fixture.

Definition nl : str := [newline].

Definition group (gid : string) : GroupConfig :=
  mkGroupConfig (lit gid) (lit gid) (lit gid) true
    (lit "{bonusCode} {websiteUrl}").

Definition chan : ChannelConfig :=
  mkChannelConfig (lit "Chan") (lit "chan") true [lit "bonus"] true.

Definition cfg : Config :=
  mkConfig [chan] [group "g"] 3 0 true 0 true 30000 5000 24 50
    (fun _ => lit "01.01.2025 00:00") (map lowerAscii).

Definition net0 : Net :=
  mkNet [] [] [] [] (fun u => inr u) [].

Definition world0 : World :=
  mkWorld [] 0 net0 0 [] 0
    (mkClient true true 0 5)
    (mkSender [(lit "g", mkGroupData (lit "g") (group "g"))] [] false 0)
    (mkListener false [] None 0 3)
    (mkScraper true None 0)
    [].

Definition doc (n : nat) (txt : str) : Message :=
  newMessage n (Z.of_nat n) (lit "100") (lit "chan") (lit "Chan") txt [] 0.

Definition job (gid : string) (n : nat) : QueueItem :=
  mkQueueItem (mkGroupData (lit gid) (group gid)) (lit gid)
    (doc n (lit "x")) 0.

Definition floodWait : Error :=
  mkError None (lit "A wait of 5 seconds is required (caused by FLOOD_WAIT_5)").

(** The queue [A, B, C], a sink that answers the first send with a
    rate-limit error and every later one with success. *)
Definition queued : World :=
  with_net (set_sendOutcomes [Some floodWait])
    (with_sender (MessageSender.set_sendQueue [job "A" 1; job "B" 2; job "C" 3])
       world0).

(** A one-line message with a backtick code and a URL. *)
Definition oneLine : TelegramMessage :=
  mkTelegramMessage 7 (Some (lit "bonus `ABCD1234` http://x.com"))
    (Some (lit "100")) 0.

(** A two-line message with a backtick code and a URL. *)
Definition twoLine : TelegramMessage :=
  mkTelegramMessage 8 (Some (lit "`ABCD1234`" ++ nl ++ lit "http://x.com"))
    (Some (lit "100")) 0.

(** The same channel under another handle. *)
Definition renamed : ChannelConfig :=
  mkChannelConfig (lit "Chan") (lit "chan2") true [lit "bonus"] true.

(** The world after the live-push path has taken [oneLine], and after it
    has taken [twoLine]. *)
Definition afterLive : World :=
  snd (RealTimeListener.processRealTimeMessage cfg oneLine chan [lit "bonus"]
         world0).

Definition afterLive2 : World :=
  snd (RealTimeListener.processRealTimeMessage cfg twoLine chan [lit "bonus"]
         world0).

(** The document the live-push path stores for [twoLine]. *)
Definition storedTwoLine : Message :=
  extractData (docOf 0 twoLine chan [lit "bonus"]).

(** ... and after a drain of the queue has delivered [oneLine]; the source
    holds both messages for the next poll. *)
Definition afterDrain : World :=
  with_net (set_fetchOutcomes [inr [oneLine; twoLine]])
    (snd (MessageSender.processQueue cfg afterLive)).

Definition laterOps : list Operation :=
  [OpProcessMessage oneLine chan; OpHandleNewMessage oneLine;
   OpProcessRealTimeMessage oneLine chan [lit "bonus"];
   OpScrapeAllChannels 2; OpQueueTick; OpScraperStop].

Definition afterLaterOps : World :=
  match runAll cfg laterOps afterDrain with
  | Some w => w
  | None => afterDrain
  end.

(** A listener that is listening with its heartbeat armed and its
    reconnect attempts used up. *)
Definition exhausted : World :=
  with_timers (fun _ => [0]) 1
    (with_listener
       (fun _ => mkListener true
                   [(lit "100", mkChannelData (lit "100") chan)] (Some 0) 3 3)
       world0).

End Fixture.

(* ===================================================================== *)
(** ** scraper/scraperService.js and scraper/messageSender.js: starting *)
(* ===================================================================== *)

(** [MessageSender.startQueueProcessor]: [setInterval(callback, 1000)]; the
    handle that [setInterval] returns is not kept. *)
Definition startQueueProcessor : M unit :=
  modify (fun w => with_timers (fun ts => ts ++ [nextTimer w]) (S (nextTimer w)) w).

(** [MessageSender.initialize]; its [catch] logs and throws the error
    again. *)
Definition initialize (cfg : Config) : M unit :=
  try_catch
    (MessageSender.loadGroupEntities cfg ;;
     startQueueProcessor)
    (fun e => throw e).

Definition set_isRunning (v : bool) (s : Scraper) : Scraper :=
  mkScraper v (intervalId s) (processedCount s).

Definition set_intervalId (v : option nat) (s : Scraper) : Scraper :=
  mkScraper (isRunning s) v (processedCount s).

(** [this.intervalId = setInterval(callback, checkInterval)] *)
Definition armScrapeInterval : M unit :=
  modify (fun w =>
    let t := nextTimer w in
    with_scraper (set_intervalId (Some t))
      (with_timers (fun ts => ts ++ [t]) (S t) w)).

(** [ScraperService.start]; its [catch] logs and throws the error again.
    [fuel] bounds the nested calls of the listener's [start] and of
    [getChannelMessages]. *)
Definition scraperStart (cfg : Config) (fuel : nat) (w : World)
  : option (Completion unit * World) :=
  match (TelegramClient.connect ;; initialize cfg) w with
  | (Threw e, w1) => Some (Threw e, w1)
  | (Returned _, w1) =>
      match RealTimeListener.start cfg fuel w1 with
      | None => None
      | Some (Threw e, w2) => Some (Threw e, w2)
      | Some (Returned _, w2) =>
          let w3 := with_scraper (set_isRunning true) w2 in
          match ScraperService.scrapeAllChannels cfg fuel w3 with
          | None => None
          | Some (Threw e, w4) => Some (Threw e, w4)
          | Some (Returned _, w4) => Some (armScrapeInterval w4)
          end
      end
  end.

(* ===================================================================== *)
(** ** scraper/api.js: the routes that edit the source channels *)
(* ===================================================================== *)

(** The routes edit the file on disk. The [Config] that the methods above
    take is the file as [require] loaded it; a running service does not
    read it again. *)
Module Api.

(** An entry of [config.channels]: the members the routes read or write,
    and the remaining members of the JSON object, which they carry along. *)
Record SourceEntry := mkSourceEntry {
  se_name : str;
  se_username : str;
  se_description : option str;
  se_active : bool;
  se_rest : list (str * str)
}.

(** config/channels.json on disk: [channelsFile] is the [channels] array of
    the parsed file, [None] when the file cannot be read or parsed;
    [writable] says whether [fs.writeFile] succeeds. *)
Record Disk := mkDisk {
  channelsFile : option (list SourceEntry);
  writable : bool
}.

(** The status of the response. *)
Inductive Status := Ok200 | BadRequest400 | NotFound404 | ServerError500.

(** [req.body] of POST /api/channels/source. *)
Record SourceBody := mkSourceBody {
  b_name : option str;
  b_username : option str;
  b_description : option str;
  b_active : option bool
}.

Definition atSign : N := 64.

(** [username.startsWith('@') ? username : `@${username}`] *)
Definition withAt (username : str) : str :=
  if startsWith username [atSign] then username else atSign :: username.

(** POST /api/channels/source *)
Definition addSourceChannel (body : SourceBody) (disk : Disk) : Status * Disk :=
  if negb (truthy (b_name body)) || negb (truthy (b_username body))
  then (BadRequest400, disk)
  else
    let name := orElse (b_name body) [] in
    let username := orElse (b_username body) [] in
    match channelsFile disk with
    | None => (ServerError500, disk)
    | Some channels =>
        match find (fun ch => str_eqb (se_username ch) username) channels with
        | Some _ => (BadRequest400, disk)
        | None =>
            let newChannel :=
              mkSourceEntry name (withAt username) (b_description body)
                (match b_active body with Some a => a | None => true end) [] in
            if writable disk
            then (Ok200, mkDisk (Some (channels ++ [newChannel])) true)
            else (ServerError500, disk)
        end
    end.

(** [array.findIndex(p)], [None] for -1. *)
Fixpoint findIndex {A} (p : A -> bool) (l : list A) : option nat :=
  match l with
  | [] => None
  | x :: l' => if p x then Some 0 else option_map S (findIndex p l')
  end.

(** [array.splice(index, 1)], the array that is left. *)
Definition spliceOne {A} (index : nat) (l : list A) : list A :=
  firstn index l ++ skipn (S index) l.

(** DELETE /api/channels/source/:username *)
Definition removeSourceChannel (username : str) (disk : Disk) : Status * Disk :=
  match channelsFile disk with
  | None => (ServerError500, disk)
  | Some channels =>
      match findIndex
              (fun ch => str_eqb (se_username ch) username
                         || str_eqb (se_username ch) (atSign :: username))
              channels with
      | None => (NotFound404, disk)
      | Some channelIndex =>
          if writable disk
          then (Ok200, mkDisk (Some (spliceOne channelIndex channels)) true)
          else (ServerError500, disk)
      end
  end.

End Api.

(* ===================================================================== *)
(** ** What the further properties speak of *)
(* ===================================================================== *)

(** The shape the code pattern demands: 4 to 20 alphanumerics. *)
Definition codeShaped (c : str) : bool :=
  (4 <=? length c) && (length c <=? 20) && forallb isAlnum c.

(** What both loops keep: every candidate is code-shaped and the URL, once
    set, starts with [http]. *)
Definition scanInv (st : list str * option str) : Prop :=
  Forall (fun c => codeShaped c = true) (fst st)
  /\ match snd st with
     | Some u => startsWith u (lit "http") = true
     | None => True
     end.

(** The same world up to the sender's queue. *)
Definition sameButQueue (w w' : World) : Prop :=
  store w' = store w /\ nextOid w' = nextOid w /\ net w' = net w
  /\ clock w' = clock w /\ timers w' = timers w /\ nextTimer w' = nextTimer w
  /\ client w' = client w /\ listener w' = listener w /\ scraper w' = scraper w
  /\ trace w' = trace w
  /\ groupEntities (sender w') = groupEntities (sender w)
  /\ isProcessingQueue (sender w') = isProcessingQueue (sender w)
  /\ sentCount (sender w') = sentCount (sender w).

(** The job [sendToTargetGroups] makes for one group. *)
Definition jobFor (cfg : Config) (messageDoc : Message) (now : Z) (g : GroupData)
  : QueueItem :=
  mkQueueItem g (MessageSender.formatMessage cfg messageDoc (gd_config g))
    messageDoc now.

(** The groups [sendToTargetGroups] fans a message out to. *)
Definition activeGroups (w : World) : list GroupData :=
  filter (fun g => g_active (gd_config g)) (map snd (groupEntities (sender w))).

(** A client that is connected and collaborators that answer every call
    with success. *)
Definition healthy (w : World) : Prop :=
  isConnected (client w) = true /\ clientMade (client w) = true
  /\ sendOutcomes (net w) = [] /\ storeFaults (net w) = [].

(** What the sink records of the delivery of a job. *)
Definition delivered (j : QueueItem) : str * bool :=
  (g_id (gd_config (groupData j)), true).

(** The store after the documents of a batch have been marked. *)
Definition markAll (batch : list QueueItem) (docs : list Message)
  : list Message :=
  fold_left (fun ds j => Store.markProcessed (_id (originalMessage j)) ds)
    batch docs.

(** The calls that the delivery of a job makes: [sendMessage] for the group
    of the job with the text of the job, and the pause after it. *)
Definition deliveryOf (cfg : Config) (j : QueueItem) : list Event :=
  EvSend (g_id (gd_config (groupData j))) (q_message j) true
  :: (if (sendDelay cfg >? 0)%Z then [EvSleep (sendDelay cfg)] else []).

(** Nothing is sent and the sender is as it was. *)
Definition quiet (w w' : World) : Prop :=
  sender w' = sender w /\ sends (trace w') = sends (trace w).

(** At most one call of [sendMessage], the sender as it was. *)
Definition oneSend (w w' : World) : Prop :=
  sender w' = sender w
  /\ length (sends (trace w')) <= length (sends (trace w)) + 1.

(** What the handling of [k] jobs can do to the sink and to the sender: at
    most [k] calls of [sendMessage]; the count of sent messages and the
    queue only grow, and together by [k] at most. *)
Definition jobSteps (k : nat) (w w' : World) : Prop :=
  length (sends (trace w')) <= length (sends (trace w)) + k
  /\ sentCount (sender w) <= sentCount (sender w')
  /\ length (sendQueue (sender w)) <= length (sendQueue (sender w'))
  /\ sentCount (sender w') + length (sendQueue (sender w'))
     <= sentCount (sender w) + length (sendQueue (sender w)) + k
  /\ isProcessingQueue (sender w') = isProcessingQueue (sender w)
  /\ groupEntities (sender w') = groupEntities (sender w).

(** What the sink records of a rejected job. *)
Definition rejected (j : QueueItem) : str * bool :=
  (g_id (gd_config (groupData j)), false).

Definition notFloodWait (e : Error) : bool :=
  negb (includes (message e) (lit "FLOOD_WAIT")).

(** The document the polling path constructs for a message. *)
Definition polled (oid : nat) (tm : TelegramMessage) (ch : ChannelConfig)
  : Message :=
  extractData (docOf oid tm ch [lit "bonus_format"]).

(** The document that [processMessage] finds for a message is marked as
    processed. *)
Definition handled (tm : TelegramMessage) (ch : ChannelConfig)
    (docs : list Message) : bool :=
  match find (byHandle tm ch) docs with
  | Some d => processed d
  | None => false
  end.

(** A message that is handled stays handled. *)
Definition handledRel (tm : TelegramMessage) (ch : ChannelConfig)
    (w w' : World) : Prop :=
  handled tm ch (store w) = true -> handled tm ch (store w') = true.


(** The listener is up: listening, the reconnect attempts reset, the
    heartbeat armed. *)
Definition listening (w : World) : Prop :=
  isListening (listener w) = true
  /\ reconnectAttempts (listener w) = 0
  /\ exists t, heartbeatInterval (listener w) = Some t /\ In t (timers w).

(** The listener has given up: stopped, its attempts used up. *)
Definition gaveUp (w : World) : Prop :=
  isListening (listener w) = false
  /\ heartbeatInterval (listener w) = None
  /\ channelEntities (listener w) = []
  /\ maxReconnectAttempts (listener w) <= reconnectAttempts (listener w).

(** The decimal numeral of [n], most significant digit first; [fuel] bounds
    the number of digits. *)
Fixpoint decimalFrom (fuel n : nat) (acc : str) : str :=
  match fuel with
  | 0 => acc
  | S fuel' =>
      let acc' := N.of_nat (48 + n mod 10) :: acc in
      if n <? 10 then acc' else decimalFrom fuel' (n / 10) acc'
  end.

Definition decimal (n : nat) : str := decimalFrom (S n) n [].

(** [d] is a document of [docs], as it is or with its flag set. *)
Definition fromOld (docs : list Message) (d : Message) : Prop :=
  exists d0, In d0 docs /\ (d = d0 \/ d = set_processed true d0).

(** The clock stands still, and every stored document is an old one or
    satisfies [P]. *)
Definition addsOnly (P : Message -> Prop) (w w' : World) : Prop :=
  clock w' = clock w
  /\ forall d, In d (store w') -> fromOld (store w) d \/ P d.

(** The store is as it was. *)
Definition sameStore (w w' : World) : Prop := store w' = store w.

(** The documents dated after [cutoff]. *)
Definition datedAfter (cutoff : Z) (d : Message) : Prop :=
  (cutoff < messageDate d)%Z.

(** The test of [scrapeChannel]'s filter: [messageDate > oneDayAgo]. *)
Definition recent (cutoff : Z) (tm : TelegramMessage) : Prop :=
  (cutoff < tm_date tm * 1000)%Z.

(** The timer [t] is armed, and is not one of the two handles that the
    service keeps (and that its [stop] clears). *)
Definition keeps (t : nat) (w : World) : Prop :=
  In t (timers w) /\ t < nextTimer w
  /\ heartbeatInterval (listener w) <> Some t
  /\ intervalId (scraper w) <> Some t.

Definition keepsRel (t : nat) (w w' : World) : Prop := keeps t w -> keeps t w'.

(** The handles that the service keeps are handles that [setInterval] has
    given out. *)
Definition handlesBelow (w : World) : bool :=
  match heartbeatInterval (listener w) with
  | Some t => t <? nextTimer w
  | None => true
  end
  && match intervalId (scraper w) with
     | Some t => t <? nextTimer w
     | None => true
     end.

(** The service is running, or not, as it was. *)
Definition runningRel (w w' : World) : Prop :=
  isRunning (scraper w') = isRunning (scraper w).

(** The relations that look at the timers, at the two handles and at
    [isRunning] alone. *)
Class ServiceFrame (R : World -> World -> Prop) : Prop := {
  svf_frame :: Frame R;
  svf_quiet :
    forall w w',
      timers w' = timers w -> nextTimer w' = nextTimer w ->
      heartbeatInterval (listener w') = heartbeatInterval (listener w) ->
      intervalId (scraper w') = intervalId (scraper w) ->
      isRunning (scraper w') = isRunning (scraper w) ->
      R w w'
}.

(** The timers and the handles are as they were. *)
Definition handlesRel (w w' : World) : Prop :=
  timers w' = timers w /\ nextTimer w' = nextTimer w
  /\ heartbeatInterval (listener w') = heartbeatInterval (listener w)
  /\ scraper w' = scraper w.

(** Every queued job was queued before, or carries a document that
    satisfies [P]. *)
Definition enqueuesOnly (P : Message -> Prop) (w w' : World) : Prop :=
  forall j, In j (sendQueue (sender w')) ->
    In j (sendQueue (sender w)) \/ P (originalMessage j).

(** The document passes the polling path's policy: both flags set, a code
    of 4 characters or more, a URL that starts with 'http'. *)
Definition deliverable (d : Message) : Prop :=
  ScraperService.shouldSendToGroups d = true.

(** *** Fixtures for the further concrete runs *)

Module KeyFixture.

(** The world after the live-push path has taken [oneLine] and then
    [twoLine]. *)
Definition afterBoth : World :=
  snd (RealTimeListener.processRealTimeMessage Fixture.cfg Fixture.twoLine
         Fixture.chan [lit "bonus"] Fixture.afterLive).

Definition storedOneLine : Message :=
  extractData (docOf 0 Fixture.oneLine Fixture.chan [lit "bonus"]).

End KeyFixture.

Module DrainFixture.

(** A job for the group [gid] with the text [txt]. *)
Definition jobWith (gid txt : string) (n : nat) : QueueItem :=
  mkQueueItem (mkGroupData (lit gid) (Fixture.group gid)) (lit txt)
    (Fixture.doc n (lit "x")) 0.

(** Two jobs for the group A, one for B and one for D, in that order. *)
Definition queued : World :=
  with_sender
    (MessageSender.set_sendQueue
       [jobWith "A" "first" 1; jobWith "A" "second" 2; jobWith "B" "third" 3;
        jobWith "D" "fourth" 4])
    Fixture.world0.

End DrainFixture.

Module ApiFixture.

Definition listed : Api.SourceEntry :=
  Api.mkSourceEntry (lit "Bonus") (lit "@bonuskanali") None true
    [(lit "keywords", lit "bonus")].

Definition disk0 : Api.Disk := Api.mkDisk (Some [listed]) true.

Definition request (username : string) : Api.SourceBody :=
  Api.mkSourceBody (Some (lit "Yeni")) (Some (lit username)) None None.

End ApiFixture.

Module AgeFixture.

Definition old : TelegramMessage :=
  mkTelegramMessage 8 (tm_text Fixture.twoLine) (Some (lit "100")) 1.

Definition fresh : TelegramMessage :=
  mkTelegramMessage 9 (tm_text Fixture.twoLine) (Some (lit "100")) 150000.

(** The source answers with an old and a fresh message, 200000 seconds
    after the epoch. *)
Definition world : World :=
  with_clock (fun _ => 200000000%Z)
    (with_net (set_fetchOutcomes [inr [old; fresh]]) Fixture.world0).

Definition polledWorld : World :=
  match ScraperService.scrapeChannel Fixture.cfg 1 Fixture.chan world with
  | Some (_, w') => w'
  | None => world
  end.

End AgeFixture.

Module StartFixture.

(** A client that has used up its retries, and a transport that refuses. *)
Definition unreachable : World :=
  with_net (set_connectOutcomes [Some (mkError None (lit "ECONNREFUSED"))])
    (with_client (fun _ => mkClient false false 5 5)
       (with_scraper (set_isRunning false) Fixture.world0)).

Definition afterStart : World :=
  match scraperStart Fixture.cfg 2 unreachable with
  | Some (_, w') => w'
  | None => unreachable
  end.

End StartFixture.

(* ===================================================================== *)
(** * Properties *)
(* ===================================================================== *)

(** ** Extraction *)

Section ExtractionFacts.

Lemma pass2_step_keeps_codes (c : str) (cs : list str) (url : option str)
    (line : str) :
  fst (pass2_step (c :: cs, url) line) = c :: cs.
Proof.
  unfold pass2_step.
  destruct (isUrlLine (trim line)).
  - destruct (startsWith (trim line) (lit "http")); [reflexivity|].
    destruct (domainMatch (trim line)); reflexivity.
  - rewrite andb_false_r. reflexivity.
Qed.

Lemma pass2_keeps_codes (lines : list str) (c : str) (cs : list str)
    (url : option str) :
  fst (pass2 lines (c :: cs, url)) = c :: cs.
Proof.
  revert url. induction lines as [|line lines IH]; intros url; [reflexivity|].
  unfold pass2 in *. cbn [fold_left].
  pose proof (pass2_step_keeps_codes c cs url line) as Hk.
  destruct (pass2_step (c :: cs, url) line) as [codes' url'].
  simpl in Hk. subst codes'. apply IH.
Qed.

(** A step adds at most one candidate, and only to an empty list. *)
Lemma pass2_step_length (codes : list str) (url : option str) (line : str) :
  length (fst (pass2_step (codes, url) line)) <= Nat.max 1 (length codes).
Proof.
  unfold pass2_step.
  destruct (isUrlLine (trim line)).
  - destruct (startsWith (trim line) (lit "http")); [cbn [fst]; lia|].
    destruct (domainMatch (trim line)); cbn [fst]; lia.
  - destruct codes as [|c cs].
    + destruct (negb (includes (trim line) [backtick]) && (length (@nil str) =? 0));
        [|cbn [fst length]; lia].
      destruct ((4 <=? length (stripNonAlnum (trim line)))
                && (length (stripNonAlnum (trim line)) <=? 20));
        cbn [fst length app]; lia.
    + rewrite andb_false_r. cbn [fst]. lia.
Qed.

Lemma pass2_length (lines : list str) (codes : list str) (url : option str) :
  length (fst (pass2 lines (codes, url))) <= Nat.max 1 (length codes).
Proof.
  revert codes url.
  induction lines as [|line lines IH]; intros codes url.
  - unfold pass2. cbn [fold_left fst]. lia.
  - unfold pass2 in *. cbn [fold_left].
    pose proof (pass2_step_length codes url line) as Hs.
    destruct (pass2_step (codes, url) line) as [codes' url'].
    cbn [fst] in Hs. specialize (IH codes' url'). lia.
Qed.

(** With no backtick code, the candidate list never grows past the first
    fallback candidate. *)
Lemma fallback_at_most_one (txt : str) :
  pass1 (linesOf txt) = [] -> length (fst (scan txt)) <= 1.
Proof.
  intros H. unfold scan. rewrite H.
  pose proof (pass2_length (linesOf txt) [] None) as Hl. simpl in Hl. exact Hl.
Qed.

Lemma scan_codes_of_pass1 (txt : str) (c : str) (cs : list str) :
  pass1 (linesOf txt) = c :: cs -> fst (scan txt) = c :: cs.
Proof.
  intros H. unfold scan. rewrite H. apply pass2_keeps_codes.
Qed.

End ExtractionFacts.

(** C1, as stated, fails: a text with a URL line and no code candidate
    returns a record whose [hasWebsite] is [true]. *)
Lemma url_without_code_keeps_hasWebsite :
  let m := newMessage 0 1 (lit "100") (lit "chan") (lit "Chan")
             (lit "http://x.com") [] 0 in
  fst (scan (text m)) = []
  /\ snd (scan (text m)) = Some (lit "http://x.com")
  /\ hasWebsite (extractData m) = true
  /\ hasBonus (extractData m) = false.
Proof. vm_compute. repeat split. Qed.

(** C1 (amended): on a document with both flags unset, as [new Message]
    makes it, a code without a URL leaves both flags false and the primary
    code null; a URL without a code leaves [hasBonus] false and the primary
    code null, while [hasWebsite] is true and the URL is stored. *)
Theorem partial_match_collapse (m : Message) :
  hasBonus m = false ->
  hasWebsite m = false ->
  let r := extractData m in
  (fst (scan (text m)) <> [] -> truthy (snd (scan (text m))) = false ->
     hasBonus r = false /\ hasWebsite r = false /\ bonusCode r = None)
  /\ (fst (scan (text m)) = [] -> truthy (snd (scan (text m))) = true ->
     hasBonus r = false /\ bonusCode r = None
     /\ hasWebsite r = true /\ websiteUrl r = snd (scan (text m))).
Proof.
  intros Hb Hw r. subst r. unfold extractData.
  destruct (scan (text m)) as [codes url]. simpl fst. simpl snd.
  destruct m as [oid mid cid cu cn txt bc abc wu kw md pr hb hw].
  simpl in Hb, Hw. subst hb hw.
  split.
  - intros Hc Hu. destruct codes as [|c cs]; [congruence|].
    unfold setResults. rewrite Hu. simpl. auto.
  - intros Hc Hu. subst codes.
    unfold setResults. rewrite Hu. simpl. auto.
Qed.

Lemma partial_match_collapse_witness :
  let m := newMessage 0 1 (lit "100") (lit "chan") (lit "Chan")
             (lit "http://x.com") [] 0 in
  let m' := newMessage 0 1 (lit "100") (lit "chan") (lit "Chan")
              (lit "PROMO2024") [] 0 in
  (hasBonus (extractData m) = false /\ bonusCode (extractData m) = None
   /\ hasWebsite (extractData m) = true
   /\ websiteUrl (extractData m) = Some (lit "http://x.com"))
  /\ (hasBonus (extractData m') = false /\ hasWebsite (extractData m') = false
      /\ bonusCode (extractData m') = None).
Proof.
  intros m m'. split.
  - destruct (partial_match_collapse m eq_refl eq_refl) as [_ H].
    apply H; reflexivity.
  - destruct (partial_match_collapse m' eq_refl eq_refl) as [H _].
    apply H; [discriminate|reflexivity].
Defined.

(** C3: the code stops collecting fallback candidates after the first one.
    In this text pass 1 finds nothing and both of the first two lines are
    not URL lines, hold no backtick and strip to four alphanumerics, yet
    [allBonusCodes] holds only the first. *)
Theorem fallback_stops_after_first_candidate :
  let txt := lit "ABCD" ++ Fixture.nl ++ lit "EFGH" ++ Fixture.nl ++ lit "http://x.com" in
  let r := extractData (newMessage 0 1 (lit "100") (lit "chan") (lit "Chan")
                          txt [] 0) in
  linesOf txt = [lit "ABCD"; lit "EFGH"; lit "http://x.com"]
  /\ pass1 (linesOf txt) = []
  /\ Forall (fun line =>
               isUrlLine (trim line) = false
               /\ includes (trim line) [backtick] = false
               /\ 4 <= length (stripNonAlnum (trim line)) <= 20)
            [lit "ABCD"; lit "EFGH"]
  /\ allBonusCodes r = [lit "ABCD"]
  /\ bonusCode r = Some (lit "ABCD").
Proof.
  vm_compute. repeat split; repeat constructor.
Qed.

(** C7, as stated, fails: pass 1 finds a backtick code, but with no URL in
    the text the returned primary code is null. *)
Lemma backtick_code_without_url_is_cleared :
  let m := newMessage 0 1 (lit "100") (lit "chan") (lit "Chan")
             (lit "`ABCD1234`") [] 0 in
  pass1 (linesOf (text m)) = [lit "ABCD1234"]
  /\ bonusCode (extractData m) = None
  /\ allBonusCodes (extractData m) = [lit "ABCD1234"].
Proof. vm_compute. repeat split. Qed.

(** C7 (amended): when pass 1 finds backtick codes [c :: cs], the candidate
    list of the result is exactly that list (no fallback candidate is
    added), in line order then left-to-right order; the primary code is [c]
    when the text also yields a URL, and null when it does not. *)
Theorem backtick_codes_take_precedence (m : Message) (c : str) (cs : list str) :
  pass1 (linesOf (text m)) = c :: cs ->
  let r := extractData m in
  allBonusCodes r = c :: cs
  /\ (truthy (snd (scan (text m))) = true ->
        bonusCode r = Some c /\ hasBonus r = true /\ hasWebsite r = true)
  /\ (truthy (snd (scan (text m))) = false -> hasWebsite m = false ->
        bonusCode r = None /\ hasBonus r = false).
Proof.
  intros H1 r. subst r. unfold extractData.
  pose proof (scan_codes_of_pass1 (text m) c cs H1) as Hc.
  destruct (scan (text m)) as [codes url]. simpl in Hc. subst codes.
  simpl snd.
  destruct m as [oid mid cid cu cn txt bc abc wu kw md pr hb hw].
  unfold setResults, collapse. simpl.
  split; [|split].
  - destruct (truthy url); simpl; destruct hw; reflexivity.
  - intros Hu. rewrite Hu. simpl. auto.
  - intros Hu Hw. subst hw. rewrite Hu. simpl. auto.
Qed.

Lemma backtick_codes_take_precedence_witness :
  let m := newMessage 0 1 (lit "100") (lit "chan") (lit "Chan")
             (lit "`ABCD1234`" ++ Fixture.nl ++ lit "randomline" ++ Fixture.nl
              ++ lit "http://x.com") [] 0 in
  allBonusCodes (extractData m) = [lit "ABCD1234"]
  /\ bonusCode (extractData m) = Some (lit "ABCD1234").
Proof.
  intros m.
  destruct (backtick_codes_take_precedence m (lit "ABCD1234") [] eq_refl)
    as [Ha [Hb _]].
  split; [exact Ha|]. apply Hb. reflexivity.
Defined.

(** *** The markers of a URL line *)

Section Markers.

Lemma startsWith_app (p s : str) : startsWith (p ++ s) p = true.
Proof.
  induction p as [|c p IH]; [destruct s; reflexivity|].
  cbn [app startsWith]. rewrite N.eqb_refl. exact IH.
Qed.











End Markers.


(** The domain pattern accepts [.tr] and [.co.uk] names, which hold none of
    the four markers. *)
Example domain_pattern_accepts_tr_and_co_uk :
  domainMatch (lit "bonus.tr") = Some (lit "bonus.tr")
  /\ isUrlLine (lit "bonus.tr") = false
  /\ domainMatch (lit "site.co.uk") = Some (lit "site.co.uk")
  /\ isUrlLine (lit "site.co.uk") = false.
Proof. vm_compute. repeat split. Qed.




(** ** Formatting *)

(** C10: [truncateText(text, 200)] is the text itself up to 200 code units
    and otherwise its first 197 followed by '...'; the value that
    [formatMessage] substitutes for [{messageText}] is that result, of
    length at most 200. *)
Theorem truncateText_cap (txt : str) :
  (length txt <= 200 -> MessageSender.truncateText txt 200 = txt)
  /\ (200 < length txt ->
      MessageSender.truncateText txt 200 = firstn 197 txt ++ lit "...")
  /\ length (MessageSender.truncateText txt 200) <= 200
  /\ (forall cfg m,
        text m = txt ->
        MessageSender.mapGet (lit "{messageText}")
          (MessageSender.replacements cfg m)
        = Some (MessageSender.truncateText txt 200)).
Proof.
  unfold MessageSender.truncateText, substring0.
  change (Z.to_nat (200 - 3)) with 197.
  repeat split.
  - intros H. destruct (Z.leb_spec (Z.of_nat (length txt)) 200); [reflexivity|lia].
  - intros H. destruct (Z.leb_spec (Z.of_nat (length txt)) 200); [lia|reflexivity].
  - destruct (Z.leb_spec (Z.of_nat (length txt)) 200); [lia|].
    rewrite length_app, length_firstn.
    change (length (lit "...")) with 3. lia.
  - intros cfg m Hm. subst txt. reflexivity.
Qed.

Lemma truncateText_cap_witness :
  MessageSender.truncateText (repeat 97%N 201) 200
  = repeat 97%N 197 ++ lit "...".
Proof.
  destruct (truncateText_cap (repeat 97%N 201)) as [_ [H _]].
  rewrite H; [reflexivity|]. vm_compute. lia.
Defined.

(** ** The delivery queue *)

(** C2: with the batch [A, B, C] and a rate-limit answer to the send of A,
    the drain puts A back at the head of the queue and sleeps the mandated
    5000 ms, then goes on with B and C of the batch it already took; A is
    sent by the next drain, after them. *)
Theorem requeued_job_is_sent_after_its_batch :
  let w1 := snd (MessageSender.processQueue Fixture.cfg Fixture.queued) in
  let w2 := snd (MessageSender.processQueue Fixture.cfg w1) in
  map q_message (sendQueue (sender Fixture.queued)) = [lit "A"; lit "B"; lit "C"]
  /\ trace w1 = [EvSend (lit "A") (lit "A") false; EvSleep 5000;
                 EvSend (lit "B") (lit "B") true;
                 EvSend (lit "C") (lit "C") true]
  /\ map q_message (sendQueue (sender w1)) = [lit "A"]
  /\ sends (trace w2) = [(lit "A", false); (lit "B", true); (lit "C", true);
                         (lit "A", true)]
  /\ sendQueue (sender w2) = [].
Proof. vm_compute. repeat split. Qed.

(** ** The calls that a batch starts together *)

(** *** A call that is awaited alone *)

Section Alone.

Lemma alone_sync {A} (m : M A) (w : World) : alone (sync m) w = m w.
Proof. unfold alone, sync. destruct (m w) as [r w']. reflexivity. Qed.

Lemma runTask_andThen {A B} (k : A -> Async B) (t : Task A) (w : World) :
  alone (andThen t k) w = bind (runTask t) (fun x => alone (k x)) w.
Proof.
  revert w. induction t as [r|resume IH] using Task_ind; intros w.
  - destruct r as [a|e]; reflexivity.
  - unfold alone, bind in *. cbn [andThen runTask]. specialize (IH w).
    destruct (resume w) as [t' w']. cbn [fst] in IH. apply IH.
Qed.

Lemma alone_abind {A B} (a : Async A) (k : A -> Async B) (w : World) :
  alone (abind a k) w = bind (alone a) (fun x => alone (k x)) w.
Proof.
  unfold abind. unfold alone at 1 2, bind.
  pose proof (runTask_andThen k (fst (a w)) (snd (a w))) as E.
  destruct (a w) as [t w']. cbn [fst snd] in E. unfold alone at 1 in E.
  exact E.
Qed.

Lemma runTask_orCatch {A} (h : Error -> Async A) (t : Task A) (w : World) :
  alone (orCatch t h) w = try_catch (runTask t) (fun e => alone (h e)) w.
Proof.
  revert w. induction t as [r|resume IH] using Task_ind; intros w.
  - destruct r as [a|e]; reflexivity.
  - unfold alone, try_catch in *. cbn [orCatch runTask]. specialize (IH w).
    destruct (resume w) as [t' w']. cbn [fst] in IH. apply IH.
Qed.

Lemma alone_atry {A} (a : Async A) (h : Error -> Async A) (w : World) :
  alone (atry a h) w = try_catch (alone a) (fun e => alone (h e)) w.
Proof.
  unfold atry. unfold alone at 1 2, try_catch.
  pose proof (runTask_orCatch h (fst (a w)) (snd (a w))) as E.
  destruct (a w) as [t w']. cbn [fst snd] in E. unfold alone at 1 in E.
  exact E.
Qed.

Lemma runTask_afterSettled {A} (t : Task A) (w : World) :
  runTask (afterSettled t) w = runTask t w.
Proof.
  revert w. induction t as [r|resume IH] using Task_ind; intros w.
  - reflexivity.
  - cbn [afterSettled runTask]. specialize (IH w).
    destruct (resume w) as [t' w']. apply IH.
Qed.

Lemma alone_await {A} (a : Async A) (w : World) : alone (await a) w = alone a w.
Proof.
  unfold alone, await. destruct (a w) as [t w'].
  apply runTask_afterSettled.
Qed.

Lemma alone_request {A} (op : M A) (w : World) :
  alone (Store.request op) w = op w.
Proof.
  unfold alone, Store.request. cbn [runTask].
  destruct (op w) as [r w']. reflexivity.
Qed.

Lemma bind_ext {A B} (m m' : M A) (k k' : A -> M B) (w : World) :
  m w = m' w -> (forall x w', k x w' = k' x w') -> bind m k w = bind m' k' w.
Proof.
  intros Hm Hk. unfold bind. rewrite Hm.
  destruct (m' w) as [[x|e] w']; [apply Hk|reflexivity].
Qed.

Ltac alone_step :=
  match goal with
  | |- alone (abind _ _) _ = _ => rewrite alone_abind; apply bind_ext; [|intros ? ?]
  | |- alone (await _) _ = _ => rewrite alone_await
  | |- alone (Store.request _) _ = _ => apply alone_request
  | |- alone (sync _) _ = _ => apply alone_sync
  | |- alone (if ?b then _ else _) _ = _ => destruct b
  | |- alone (match ?x with _ => _ end) _ = _ => destruct x
  end.

(** [processMessage] is its call, awaited alone. *)
Lemma processMessage_alone (cfg : Config) (tm : TelegramMessage)
    (ch : ChannelConfig) (w : World) :
  alone (ScraperService.processMessageCall cfg tm ch) w
  = ScraperService.processMessage cfg tm ch w.
Proof.
  unfold ScraperService.processMessageCall, ScraperService.processMessage.
  rewrite alone_atry. unfold try_catch.
  match goal with
  | |- match alone ?a w with _ => _ end = match ?m w with _ => _ end =>
      assert (E : alone a w = m w)
  end.
  { cbv zeta. repeat alone_step. }
  rewrite E.
  match goal with
  | |- match ?x with _ => _ end = _ => destruct x as [[o|e] w']
  end; [reflexivity|].
  destruct (codeIs 11000 e); apply alone_sync.
Qed.

End Alone.

(** *** Calls that do not reject *)

Section Fulfils.

Lemma settles_orCatch {A} (h : Error -> Async A) (t : Task A) :
  (forall e w, settlesIn fulfilled (fst (h e w))) ->
  forall w, settlesIn fulfilled (fst (orCatch t h w)).
Proof.
  intros Hh. induction t as [r|resume IH] using Task_ind; intros w.
  - destruct r as [a|e]; [eexists; reflexivity|apply Hh].
  - cbn [orCatch fst settlesIn]. intros w1. specialize (IH w1).
    destruct (resume w1) as [t' w2]. apply IH.
Qed.

(** A method whose [catch] returns on every error does not reject. *)
Lemma settles_atry {A} (a : Async A) (h : Error -> Async A) :
  (forall e w, settlesIn fulfilled (fst (h e w))) ->
  forall w, settlesIn fulfilled (fst (atry a h w)).
Proof.
  intros Hh w. unfold atry. destruct (a w) as [t w'].
  apply settles_orCatch, Hh.
Qed.

Lemma processMessageCall_fulfils (cfg : Config) (tm : TelegramMessage)
    (ch : ChannelConfig) (w : World) :
  settlesIn fulfilled (fst (ScraperService.processMessageCall cfg tm ch w)).
Proof.
  unfold ScraperService.processMessageCall. apply settles_atry.
  intros e w0. destruct (codeIs 11000 e); eexists; reflexivity.
Qed.

Lemma settles_startAll {A} (P : Completion A -> Prop) (calls : list (Async A)) :
  Forall (fun a => forall w, settlesIn P (fst (a w))) calls ->
  forall w, Forall (settlesIn P) (fst (startAll calls w))
            /\ length (fst (startAll calls w)) = length calls.
Proof.
  induction 1 as [|a calls Ha _ IH]; intros w; cbn [startAll].
  - split; [constructor|reflexivity].
  - specialize (Ha w). destruct (a w) as [t w1].
    destruct (IH w1) as [H1 H2]. destruct (startAll calls w1) as [ts w2].
    cbn [fst length] in *. split; [constructor; assumption|congruence].
Qed.

Lemma settles_resumeAt {A} (P : Completion A -> Prop) (i : nat)
    (calls : list (Task A)) :
  Forall (settlesIn P) calls ->
  forall w, Forall (settlesIn P) (fst (resumeAt i calls w))
            /\ length (fst (resumeAt i calls w)) = length calls.
Proof.
  intros Hc. revert i.
  induction Hc as [|c calls Hc Hcs IH]; intros i w.
  - destruct i; cbn; (split; [constructor|reflexivity]).
  - destruct i as [|i].
    + destruct c as [r|resume]; cbn [resumeAt].
      * split; [constructor; assumption|reflexivity].
      * specialize (Hc w). destruct (resume w) as [t w'].
        cbn [fst] in *. split; [constructor; assumption|reflexivity].
    + assert (E : resumeAt (S i) (c :: calls) w
                  = let '(rest', w') := resumeAt i calls w in (c :: rest', w'))
        by (destruct c; reflexivity).
      rewrite E. destruct (IH i w) as [H1 H2].
      destruct (resumeAt i calls w) as [rest' w']. cbn [fst length] in *.
      split; [constructor; assumption|congruence].
Qed.

Lemma settles_inOrder {A} (P : Completion A -> Prop) (order : list nat) :
  forall (calls : list (Task A)),
    Forall (settlesIn P) calls ->
    forall w, Forall (settlesIn P) (fst (inOrder order calls w))
              /\ length (fst (inOrder order calls w)) = length calls.
Proof.
  induction order as [|i order IH]; intros calls Hc w; cbn [inOrder].
  - split; [exact Hc|reflexivity].
  - destruct (settles_resumeAt P i calls Hc w) as [H1 H2].
    destruct (resumeAt i calls w) as [calls' w']. cbn [fst] in *.
    destruct (IH calls' H1 w') as [H3 H4]. split; [exact H3|congruence].
Qed.

Lemma settles_joined {A} (n : nat) (t : Task A) :
  settlesIn fulfilled t ->
  forall ts,
    settlesIn (allFulfilled n) ts -> settlesIn (allFulfilled (S n)) (joined t ts).
Proof.
  induction t as [r|resume IH] using Task_ind; intros Ht ts.
  - induction ts as [rs|resumes IHs] using Task_ind; intros Hts.
    + destruct Hts as [rs0 [-> [Hl Ha]]]. cbn.
      exists (r :: rs0). split; [reflexivity|].
      split; [cbn; congruence|constructor; assumption].
    + cbn [joined settlesIn]. intros w. specialize (IHs w (Hts w)).
      destruct (resumes w) as [ts' w']. exact IHs.
  - intros Hts. destruct ts as [rs|resumes].
    + cbn [joined settlesIn]. intros w.
      specialize (IH w (Ht w) (Settled rs) Hts).
      destruct (resume w) as [t' w']. exact IH.
    + cbn [joined settlesIn]. intros w. specialize (IH w (Ht w)).
      destruct (resume w) as [t' w1]. cbn [fst] in *.
      specialize (IH (fst (resumes w1)) (Hts w1)).
      destruct (resumes w1) as [ts' w2]. exact IH.
Qed.

Lemma settles_together {A} (calls : list (Task A)) :
  Forall (settlesIn fulfilled) calls ->
  settlesIn (allFulfilled (length calls)) (together calls).
Proof.
  induction 1 as [|t calls Ht _ IH].
  - exists []. repeat split. constructor.
  - cbn [together fold_right length]. apply settles_joined; assumption.
Qed.

Lemma settles_runTask {A} (P : Completion A -> Prop) (t : Task A) :
  settlesIn P t -> forall w, P (fst (runTask t w)).
Proof.
  induction t as [r|resume IH] using Task_ind; intros Ht w.
  - exact Ht.
  - cbn [runTask]. specialize (IH w (Ht w)).
    destruct (resume w) as [t' w']. apply IH.
Qed.

(** [Promise.allSettled] over calls that do not reject: one result for
    each, none of them a rejection, in whatever order the calls are
    resumed. *)
Lemma allSettled_fulfilled {A} (promises : list (Task A)) (w : World) :
  Forall (settlesIn fulfilled) promises ->
  allFulfilled (length promises) (fst (allSettled promises w)).
Proof.
  intros Hp. unfold allSettled, bind, nextArrivals.
  destruct (arrivals (net w)) as [|order rest].
  - cbn [inOrder]. apply settles_runTask, settles_together, Hp.
  - match goal with
    | |- context [inOrder order promises ?w0] =>
        destruct (settles_inOrder fulfilled order promises Hp w0) as [H1 H2];
        destruct (inOrder order promises w0) as [calls w1]
    end.
    cbn [fst] in *. rewrite <- H2.
    apply settles_runTask, settles_together, H1.
Qed.

Lemma batchResults_fulfilled (cfg : Config) (tms : list TelegramMessage)
    (ch : ChannelConfig) (w : World) :
  allFulfilled (length tms) (fst (batchResults cfg tms ch w)).
Proof.
  unfold batchResults, bind, started.
  match goal with
  | |- context [startAll ?calls w] =>
      destruct (settles_startAll fulfilled calls) with (w := w) as [H1 H2];
      [|destruct (startAll calls w) as [ts w1]]
  end.
  - apply Forall_map, Forall_forall. intros tm _ w0.
    apply processMessageCall_fulfils.
  - cbn [fst] in *. rewrite length_map in H2. rewrite <- H2.
    apply allSettled_fulfilled, H1.
Qed.

(** The batch counts the results. *)
Lemma processMessageBatch_counts (cfg : Config) (tms : list TelegramMessage)
    (ch : ChannelConfig) (w : World) :
  ScraperService.processMessageBatch cfg tms ch w
  = (results <- batchResults cfg tms ch ;;
     ret (length (filter ScraperService.isBonusSent results))) w.
Proof.
  unfold ScraperService.processMessageBatch, batchResults, bind.
  destruct (started _ w) as [[ts|e] w1]; reflexivity.
Qed.

End Fulfils.

(** *** The calls of a batch overlap

    With [oneLine] stored and queued by the live-push path, the batch of
    [twoLine] and [oneLine] queues [oneLine] again before [twoLine]: the
    call for [twoLine] awaits its insert while the call for [oneLine], found
    by its lookup, goes on. When the answers for the first call all arrive
    before those for the second, the order is the other one. A message that
    comes twice in a batch is queued twice, both lookups being answered
    before either call marks the record. *)
Example batch_calls_overlap :
  let queued w := map (fun j => messageId (originalMessage j))
                    (sendQueue (sender w)) in
  let batch := ScraperService.processMessageBatch Fixture.cfg
                 [Fixture.twoLine; Fixture.oneLine] Fixture.chan in
  queued Fixture.afterLive = [7%Z]
  /\ queued (snd (batch Fixture.afterLive)) = [7%Z; 7%Z; 8%Z]
  /\ queued (snd (batch (with_net (set_arrivals [[0; 0; 0; 0; 0; 0; 0]])
                           Fixture.afterLive))) = [7%Z; 8%Z; 7%Z]
  /\ queued (snd (ScraperService.processMessageBatch Fixture.cfg
                    [Fixture.oneLine; Fixture.oneLine] Fixture.chan
                    Fixture.afterLive)) = [7%Z; 7%Z; 7%Z].
Proof. vm_compute. repeat split. Qed.

(** ** The store: the [processed] flag only rises *)

Section ProcessedMonotone.

Lemma flagStep_refl (d : Message) : flagStep d d.
Proof. left. reflexivity. Qed.

Lemma set_processed_true_id (d : Message) :
  processed d = true -> set_processed true d = d.
Proof. destruct d. simpl. intros ->. reflexivity. Qed.

Lemma flagStep_trans (a b c : Message) :
  flagStep a b -> flagStep b c -> flagStep a c.
Proof.
  intros Hab Hbc.
  destruct Hab as [Hab|[Ha Hab]]; subst b; [exact Hbc|].
  destruct Hbc as [Hbc|[Hb Hbc]]; subst c.
  - right. split; [assumption|reflexivity].
  - simpl in Hb. discriminate.
Qed.

Lemma flagStep_processed (d d' : Message) :
  flagStep d d' -> processed d = true -> processed d' = true.
Proof. intros [->|[H ->]] Hp; [assumption|reflexivity]. Qed.

Lemma processedMonotone_refl (docs : list Message) : processedMonotone docs docs.
Proof. intros oid d H. exists d. split; [assumption|apply flagStep_refl]. Qed.

Lemma processedMonotone_trans (a b c : list Message) :
  processedMonotone a b -> processedMonotone b c -> processedMonotone a c.
Proof.
  intros Hab Hbc oid d H.
  destruct (Hab oid d H) as [d1 [H1 S1]].
  destruct (Hbc oid d1 H1) as [d2 [H2 S2]].
  exists d2. split; [assumption|eapply flagStep_trans; eassumption].
Qed.

Lemma processedMonotone_insert (m : Message) (docs : list Message) :
  processedMonotone docs (docs ++ [m]).
Proof.
  intros oid d H. exists d. split; [|apply flagStep_refl].
  unfold Store.lookup in *.
  induction docs as [|x docs IH]; simpl in *; [discriminate|].
  destruct (_id x =? oid); [assumption|auto].
Qed.

Lemma processedMonotone_mark (o : nat) (docs : list Message) :
  processedMonotone docs (Store.markProcessed o docs).
Proof.
  intros oid d H. unfold Store.lookup, Store.markProcessed in *.
  induction docs as [|x docs IH]; simpl in *; [discriminate|].
  destruct (_id x =? oid) eqn:Ex.
  - injection H as <-.
    destruct (_id x =? o).
    + exists (set_processed true x). simpl. rewrite Ex. split; [reflexivity|].
      destruct (processed x) eqn:Hp.
      * left. apply set_processed_true_id. assumption.
      * right. split; [assumption|reflexivity].
    + exists x. rewrite Ex. split; [reflexivity|apply flagStep_refl].
  - destruct (IH H) as [d' [Hd' Hs]]. exists d'. split; [|assumption].
    destruct (_id x =? o); simpl; rewrite Ex; assumption.
Qed.

End ProcessedMonotone.

(** *** The combinators *)

Section Preserves.

Context (R : World -> World -> Prop) `{Frame R}.

Lemma preserves_ret {A} (a : A) : preserves R (ret a).
Proof. intros w. apply frame_refl. Qed.

Lemma preserves_throw {A} (e : Error) : preserves R (@throw A e).
Proof. intros w. apply frame_refl. Qed.

Lemma preserves_gets {A} (f : World -> A) : preserves R (gets f).
Proof. intros w. apply frame_refl. Qed.

Lemma preserves_modify (f : World -> World) :
  (forall w, R w (f w)) -> preserves R (modify f).
Proof. intros Hf w. apply Hf. Qed.

Lemma preserves_bind {A B} (m : M A) (k : A -> M B) :
  preserves R m -> (forall a, preserves R (k a)) -> preserves R (bind m k).
Proof.
  intros Hm Hk w. unfold bind. specialize (Hm w).
  destruct (m w) as [[a|e] w']; cbn [snd] in *; [|assumption].
  eapply frame_trans; [eassumption|apply Hk].
Qed.

Lemma preserves_try_catch {A} (m : M A) (h : Error -> M A) :
  preserves R m -> (forall e, preserves R (h e)) -> preserves R (try_catch m h).
Proof.
  intros Hm Hh w. unfold try_catch. specialize (Hm w).
  destruct (m w) as [[a|e] w']; cbn [snd] in *; [assumption|].
  eapply frame_trans; [eassumption|apply Hh].
Qed.

Lemma preserves_finally {A} (m : M A) (f : World -> World) :
  preserves R m -> (forall w, R w (f w)) -> preserves R (finally m f).
Proof.
  intros Hm Hf w. unfold finally. specialize (Hm w).
  destruct (m w) as [r w']; cbn [snd] in *.
  eapply frame_trans; [eassumption|apply Hf].
Qed.

Lemma preserves_forEach {A} (l : list A) (body : A -> M unit) :
  (forall x, preserves R (body x)) -> preserves R (forEach l body).
Proof.
  intros Hb. induction l as [|x l IH]; cbn [forEach].
  - apply preserves_ret.
  - apply preserves_bind; [apply Hb|intros _; assumption].
Qed.

Lemma preserves_call {A} (op : M A) :
  (forall f w, R w (with_net f w)) ->
  preserves R op -> preserves R (Store.call op).
Proof.
  intros Hn Hop w. unfold Store.call.
  destruct (storeFaults (net w)) as [|[e|] rest].
  - apply Hop.
  - apply Hn.
  - eapply frame_trans; [apply Hn|apply Hop].
Qed.

End Preserves.

#[export] Instance storeRel_Frame : Frame storeRel.
Proof.
  split.
  - intros w. apply processedMonotone_refl.
  - intros a b c. apply processedMonotone_trans.
Qed.

#[export] Instance countersRel_Frame : Frame countersRel.
Proof.
  split.
  - intros w. split; reflexivity.
  - intros a b c [H1 H2] [H3 H4]. split; congruence.
Qed.

(** A step of a world that touches neither the store nor the listener's
    counters. *)
Ltac frame_side :=
  intros;
  first [ solve [apply sf_store; try typeclasses eauto; reflexivity]
        | solve [unfold countersRel; split; reflexivity] ].

(** Splits a computation along its combinators and its case analyses. *)
Ltac with_frame lem := apply lem; try typeclasses eauto.

Ltac preserves_step :=
  match goal with
  | |- preserves _ (bind _ _) => with_frame preserves_bind; [|intros ?]
  | |- preserves _ (try_catch _ _) => with_frame preserves_try_catch; [|intros ?]
  | |- preserves _ (finally _ _) => with_frame preserves_finally; [|frame_side]
  | |- preserves _ (forEach _ _) => with_frame preserves_forEach; intros ?
  | |- preserves _ (Store.call _) => with_frame preserves_call; [frame_side|]
  | |- preserves _ (modify _) => with_frame preserves_modify; frame_side
  | |- preserves _ (sleep _) => with_frame preserves_modify; frame_side
  | |- preserves _ (ret _) => with_frame preserves_ret
  | |- preserves _ (throw _) => with_frame preserves_throw
  | |- preserves _ (gets _) => with_frame preserves_gets
  | |- preserves _ (if ?b then _ else _) => destruct b
  | |- preserves _ (match ?x with _ => _ end) => destruct x
  end.

Ltac preserves_auto := repeat preserves_step; auto.

(** *** Calls that run together: every turn preserves the relation *)

Section Calls.

Context (R : World -> World -> Prop) `{Frame R}.

Lemma call_sync {A} (m : M A) : preserves R m -> callPreserves R (sync m).
Proof.
  intros Hm w. unfold sync. specialize (Hm w).
  destruct (m w) as [r w']. split; [exact Hm|exact I].
Qed.

Lemma turns_andThen {A B} (k : A -> Async B) (t : Task A) :
  (forall a, callPreserves R (k a)) ->
  turnsPreserve R t -> callPreserves R (andThen t k).
Proof.
  intros Hk. induction t as [r|resume IH] using Task_ind; intros Ht w.
  - destruct r as [a|e]; cbn [andThen].
    + apply Hk.
    + split; [apply frame_refl|exact I].
  - cbn [andThen fst snd]. split; [apply frame_refl|].
    cbn [turnsPreserve]. intros w1.
    destruct (Ht w1) as [H1 H2]. specialize (IH w1 H2).
    destruct (resume w1) as [t' w2]. cbn [fst snd] in *.
    destruct (IH w2) as [H3 H4].
    split; [eapply frame_trans; eassumption|exact H4].
Qed.

Lemma call_abind {A B} (a : Async A) (k : A -> Async B) :
  callPreserves R a -> (forall x, callPreserves R (k x)) ->
  callPreserves R (abind a k).
Proof.
  intros Ha Hk w. unfold abind. destruct (Ha w) as [H1 H2].
  destruct (a w) as [t w1]. cbn [fst snd] in *.
  destruct (turns_andThen k t Hk H2 w1) as [H3 H4].
  split; [eapply frame_trans; eassumption|exact H4].
Qed.

(** The continuation of code without an [await] needs to preserve [R] on
    the values that the code returns only. *)
Lemma call_abind_sync {A B} (m : M A) (k : A -> Async B) :
  preserves R m ->
  (forall w x w', m w = (Returned x, w') -> callPreserves R (k x)) ->
  callPreserves R (abind (sync m) k).
Proof.
  intros Hm Hk w. unfold abind, sync. specialize (Hm w).
  destruct (m w) as [[x|e] w1] eqn:E; cbn [fst snd andThen] in *.
  - destruct (Hk w x w1 E w1) as [H3 H4].
    split; [eapply frame_trans; eassumption|exact H4].
  - split; [exact Hm|exact I].
Qed.

Lemma turns_orCatch {A} (h : Error -> Async A) (t : Task A) :
  (forall e, callPreserves R (h e)) ->
  turnsPreserve R t -> callPreserves R (orCatch t h).
Proof.
  intros Hh. induction t as [r|resume IH] using Task_ind; intros Ht w.
  - destruct r as [a|e]; cbn [orCatch].
    + split; [apply frame_refl|exact I].
    + apply Hh.
  - cbn [orCatch fst snd]. split; [apply frame_refl|].
    cbn [turnsPreserve]. intros w1.
    destruct (Ht w1) as [H1 H2]. specialize (IH w1 H2).
    destruct (resume w1) as [t' w2]. cbn [fst snd] in *.
    destruct (IH w2) as [H3 H4].
    split; [eapply frame_trans; eassumption|exact H4].
Qed.

Lemma call_atry {A} (a : Async A) (h : Error -> Async A) :
  callPreserves R a -> (forall e, callPreserves R (h e)) ->
  callPreserves R (atry a h).
Proof.
  intros Ha Hh w. unfold atry. destruct (Ha w) as [H1 H2].
  destruct (a w) as [t w1]. cbn [fst snd] in *.
  destruct (turns_orCatch h t Hh H2 w1) as [H3 H4].
  split; [eapply frame_trans; eassumption|exact H4].
Qed.

Lemma turns_afterSettled {A} (t : Task A) :
  turnsPreserve R t -> turnsPreserve R (afterSettled t).
Proof.
  induction t as [r|resume IH] using Task_ind; intros Ht.
  - cbn. intros w. split; [apply frame_refl|exact I].
  - cbn [afterSettled turnsPreserve]. intros w.
    destruct (Ht w) as [H1 H2]. specialize (IH w H2).
    destruct (resume w) as [t' w']. cbn [fst snd] in *.
    split; assumption.
Qed.

Lemma call_await {A} (a : Async A) :
  callPreserves R a -> callPreserves R (await a).
Proof.
  intros Ha w. unfold await. destruct (Ha w) as [H1 H2].
  destruct (a w) as [t w']. cbn [fst snd] in *.
  split; [exact H1|apply turns_afterSettled, H2].
Qed.

Lemma call_request {A} (op : M A) :
  preserves R op -> callPreserves R (Store.request op).
Proof.
  intros Hop w. unfold Store.request. cbn [fst snd].
  split; [apply frame_refl|]. cbn [turnsPreserve]. intros w1.
  specialize (Hop w1). destruct (op w1) as [r w2]. cbn [fst snd] in *.
  split; [exact Hop|exact I].
Qed.

Lemma turns_runTask {A} (t : Task A) :
  turnsPreserve R t -> preserves R (runTask t).
Proof.
  induction t as [r|resume IH] using Task_ind; intros Ht w.
  - apply frame_refl.
  - cbn [runTask]. destruct (Ht w) as [H1 H2]. specialize (IH w H2).
    destruct (resume w) as [t' w']. cbn [fst snd] in *.
    eapply frame_trans; [exact H1|apply IH].
Qed.

Lemma calls_startAll {A} (calls : list (Async A)) :
  Forall (callPreserves R) calls ->
  forall w, R w (snd (startAll calls w))
            /\ Forall (turnsPreserve R) (fst (startAll calls w)).
Proof.
  induction 1 as [|a calls Ha _ IH]; intros w; cbn [startAll].
  - split; [apply frame_refl|constructor].
  - destruct (Ha w) as [H1 H2]. destruct (a w) as [t w1].
    destruct (IH w1) as [H3 H4]. destruct (startAll calls w1) as [ts w2].
    cbn [fst snd] in *.
    split; [eapply frame_trans; eassumption|constructor; assumption].
Qed.

Lemma turns_resumeAt {A} (i : nat) (calls : list (Task A)) :
  Forall (turnsPreserve R) calls ->
  forall w, R w (snd (resumeAt i calls w))
            /\ Forall (turnsPreserve R) (fst (resumeAt i calls w)).
Proof.
  intros Hc. revert i.
  induction Hc as [|c calls Hc Hcs IH]; intros i w.
  - destruct i; cbn; (split; [apply frame_refl|constructor]).
  - destruct i as [|i].
    + destruct c as [r|resume]; cbn [resumeAt].
      * split; [apply frame_refl|constructor; assumption].
      * destruct (Hc w) as [H1 H2]. destruct (resume w) as [t w'].
        cbn [fst snd] in *. split; [exact H1|constructor; assumption].
    + assert (E : resumeAt (S i) (c :: calls) w
                  = let '(rest', w') := resumeAt i calls w in (c :: rest', w'))
        by (destruct c; reflexivity).
      rewrite E. destruct (IH i w) as [H1 H2].
      destruct (resumeAt i calls w) as [rest' w']. cbn [fst snd] in *.
      split; [exact H1|constructor; assumption].
Qed.

Lemma turns_inOrder {A} (order : list nat) :
  forall (calls : list (Task A)),
    Forall (turnsPreserve R) calls ->
    forall w, R w (snd (inOrder order calls w))
              /\ Forall (turnsPreserve R) (fst (inOrder order calls w)).
Proof.
  induction order as [|i order IH]; intros calls Hc w; cbn [inOrder].
  - split; [apply frame_refl|exact Hc].
  - destruct (turns_resumeAt i calls Hc w) as [H1 H2].
    destruct (resumeAt i calls w) as [calls' w']. cbn [fst snd] in *.
    destruct (IH calls' H2 w') as [H3 H4].
    split; [eapply frame_trans; eassumption|exact H4].
Qed.

Lemma turns_joined {A} (t : Task A) :
  turnsPreserve R t ->
  forall ts, turnsPreserve R ts -> turnsPreserve R (joined t ts).
Proof.
  induction t as [r|resume IH] using Task_ind; intros Ht ts.
  - induction ts as [rs|resumes IHs] using Task_ind; intros Hts.
    + destruct rs; exact I.
    + cbn [joined turnsPreserve]. intros w. destruct (Hts w) as [H1 H2].
      specialize (IHs w H2). destruct (resumes w) as [ts' w'].
      cbn [fst snd] in *. split; assumption.
  - intros Hts. destruct ts as [rs|resumes].
    + cbn [joined turnsPreserve]. intros w. destruct (Ht w) as [H1 H2].
      specialize (IH w H2 (Settled rs) I). destruct (resume w) as [t' w'].
      cbn [fst snd] in *. split; assumption.
    + cbn [joined turnsPreserve]. intros w. destruct (Ht w) as [H1 H2].
      specialize (IH w H2). destruct (resume w) as [t' w1].
      cbn [fst snd] in *.
      destruct (Hts w1) as [H3 H4]. specialize (IH (fst (resumes w1)) H4).
      destruct (resumes w1) as [ts' w2]. cbn [fst snd] in *.
      split; [eapply frame_trans; eassumption|exact IH].
Qed.

Lemma turns_together {A} (calls : list (Task A)) :
  Forall (turnsPreserve R) calls -> turnsPreserve R (together calls).
Proof.
  induction 1 as [|t calls Ht _ IH]; [exact I|].
  cbn [together fold_right]. apply turns_joined; assumption.
Qed.

Hypothesis R_net : forall f w, R w (with_net f w).

Lemma preserves_nextArrivals : preserves R nextArrivals.
Proof.
  intros w. unfold nextArrivals.
  destruct (arrivals (net w)); [apply frame_refl|apply R_net].
Qed.

Lemma preserves_allSettled {A} (promises : list (Task A)) :
  Forall (turnsPreserve R) promises -> preserves R (allSettled promises).
Proof.
  intros Hp w. unfold allSettled, bind.
  pose proof (preserves_nextArrivals w) as H0.
  destruct (nextArrivals w) as [[order|e] w0]; cbn [snd] in *; [|exact H0].
  destruct (turns_inOrder order promises Hp w0) as [H1 H2].
  destruct (inOrder order promises w0) as [calls w1]. cbn [fst snd] in *.
  pose proof (turns_runTask _ (turns_together calls H2) w1) as H3.
  eapply frame_trans; [exact H0|]. eapply frame_trans; eassumption.
Qed.

(** The calls of a batch, started together and awaited. *)
Lemma preserves_batch {A B C} (call : B -> Async A) (l : list B)
    (k : list (Completion A) -> M C) :
  Forall (fun x => callPreserves R (call x)) l ->
  (forall rs, preserves R (k rs)) ->
  preserves R (promises <- started (map call l) ;;
               results <- allSettled promises ;;
               k results).
Proof.
  intros Hl Hk w. unfold bind at 1. unfold started.
  assert (Hc : Forall (callPreserves R) (map call l)).
  { apply Forall_map. exact Hl. }
  destruct (calls_startAll _ Hc w) as [H1 H2].
  destruct (startAll (map call l) w) as [ts w1]. cbn [fst snd] in *.
  eapply frame_trans; [exact H1|].
  unfold bind. pose proof (preserves_allSettled ts H2 w1) as H3.
  destruct (allSettled ts w1) as [[rs|e] w2]; cbn [snd] in *; [|exact H3].
  eapply frame_trans; [exact H3|apply Hk].
Qed.

End Calls.

Ltac call_step :=
  match goal with
  | |- callPreserves _ (abind _ _) => with_frame call_abind; [|intros ?]
  | |- callPreserves _ (atry _ _) => with_frame call_atry; [|intros ?]
  | |- callPreserves _ (await _) => with_frame call_await
  | |- callPreserves _ (Store.request _) => with_frame call_request
  | |- callPreserves _ (sync _) => with_frame call_sync
  | |- callPreserves _ (if ?b then _ else _) => destruct b
  | |- callPreserves _ (match ?x with _ => _ end) => destruct x
  end.

(** *** The client and the channel entities, for any relation *)

Section ClientPreserves.

Context (R : World -> World -> Prop) `{Frame R}.
Hypothesis R_net : forall f w, R w (with_net f w).
Hypothesis R_emit : forall e w, R w (emit e w).
Hypothesis R_client : forall f w, R w (with_client f w).

Lemma preserves_transportConnect : preserves R TelegramClient.transportConnect.
Proof.
  intros w. unfold TelegramClient.transportConnect.
  destruct (connectOutcomes (net w)) as [|[e|] rest]; cbn [snd];
    try apply R_emit;
    (eapply frame_trans; [apply R_net|apply R_emit]).
Qed.

Lemma preserves_connect : preserves R TelegramClient.connect.
Proof.
  unfold TelegramClient.connect, TelegramClient.handleConnectionError,
    TelegramClient.isClientConnected.
  repeat first
    [ apply preserves_transportConnect
    | with_frame preserves_modify; intros w; first [apply R_client|apply R_emit]
    | preserves_step ].
Qed.

Lemma preserves_getChannelEntity (u : str) :
  preserves R (TelegramClient.getChannelEntity u).
Proof.
  unfold TelegramClient.getChannelEntity, TelegramClient.isClientConnected.
  repeat first
    [ apply preserves_connect
    | with_frame preserves_modify; intros w; apply R_emit
    | preserves_step ].
Qed.

Lemma preserves_loadChannelEntities (cfg : Config) :
  (forall v w,
      R w (with_listener (RealTimeListener.set_channelEntities v) w)) ->
  preserves R (RealTimeListener.loadChannelEntities cfg).
Proof.
  intros R_entities. unfold RealTimeListener.loadChannelEntities.
  repeat first
    [ apply preserves_getChannelEntity
    | with_frame preserves_modify; intros w; apply R_entities
    | preserves_step ].
Qed.

End ClientPreserves.

(** *** Every operation preserves a relation on the store *)

Section StorePreserves.

Variable cfg : Config.
Context (R : World -> World -> Prop) `{StoreFrame R}.

Lemma pres_connect : preserves R TelegramClient.connect.
Proof. with_frame preserves_connect; frame_side. Qed.

Lemma pres_getChannelEntity (u : str) :
  preserves R (TelegramClient.getChannelEntity u).
Proof. with_frame preserves_getChannelEntity; frame_side. Qed.

Lemma pres_loadChannelEntities :
  preserves R (RealTimeListener.loadChannelEntities cfg).
Proof. with_frame preserves_loadChannelEntities; frame_side. Qed.

Lemma pres_disconnect : preserves R TelegramClient.disconnect.
Proof. unfold TelegramClient.disconnect. preserves_auto. Qed.

Lemma pres_sendMessage (g : GroupData) (msg : str) :
  preserves R (TelegramClient.sendMessage g msg).
Proof.
  unfold TelegramClient.sendMessage. preserves_auto.
  intros w. destruct (sendOutcomes (net w)) as [|[e|] rest]; frame_side.
Qed.

Lemma pres_getMessages (entity : str) (limit : Z) :
  preserves R (TelegramClient.getMessages entity limit).
Proof.
  unfold TelegramClient.getMessages. preserves_auto.
  intros w. destruct (fetchOutcomes (net w)) as [|[e|msgs] rest]; frame_side.
Qed.

Lemma pres_saveProcessed (oid : nat) : preserves R (Store.saveProcessed oid).
Proof.
  unfold Store.saveProcessed. with_frame preserves_call; [frame_side|].
  intros w. apply sf_mark.
Qed.

Lemma pres_saveNew (m : Message) : preserves R (Store.saveNew m).
Proof.
  unfold Store.saveNew. destruct (Store.valid m); [|with_frame preserves_throw].
  with_frame preserves_call; [frame_side|]. intros w.
  destruct (Store.insertDoc m (store w)) as [e|docs] eqn:E; cbn [snd].
  - apply frame_refl.
  - apply (sf_insert m). exact E.
Qed.

Lemma pres_findOne (q : Message -> bool) : preserves R (Store.findOne q).
Proof. unfold Store.findOne. preserves_auto. Qed.

Lemma pres_construct mid cid cu cn txt kws date :
  preserves R (Store.construct mid cid cu cn txt kws date).
Proof. intros w. frame_side. Qed.

Lemma pres_sendToTargetGroups (doc : Message) :
  preserves R (MessageSender.sendToTargetGroups cfg doc).
Proof.
  unfold MessageSender.sendToTargetGroups, MessageSender.push.
  preserves_auto.
Qed.

Lemma pres_sendSingleMessage (item : QueueItem) :
  preserves R (MessageSender.sendSingleMessage item).
Proof.
  unfold MessageSender.sendSingleMessage, TelegramClient.isClientConnected.
  preserves_auto;
    auto using pres_connect, pres_sendMessage, pres_saveProcessed.
Qed.

Lemma pres_sendOrRequeue (item : QueueItem) :
  preserves R (MessageSender.sendOrRequeue cfg item).
Proof.
  unfold MessageSender.sendOrRequeue, MessageSender.unshift.
  preserves_auto; auto using pres_sendSingleMessage.
Qed.

Lemma pres_processQueue : preserves R (MessageSender.processQueue cfg).
Proof.
  unfold MessageSender.processQueue.
  preserves_auto; auto using pres_sendOrRequeue.
Qed.

Lemma pres_queueTick : preserves R (MessageSender.queueTick cfg).
Proof.
  unfold MessageSender.queueTick.
  preserves_auto; auto using pres_processQueue.
Qed.

Lemma pres_clearQueue : preserves R MessageSender.clearQueue.
Proof. unfold MessageSender.clearQueue. preserves_auto. Qed.

Lemma pres_senderStop : preserves R MessageSender.stop.
Proof.
  unfold MessageSender.stop. preserves_auto; auto using pres_clearQueue.
Qed.

Lemma pres_loadGroupEntities :
  preserves R (MessageSender.loadGroupEntities cfg).
Proof.
  unfold MessageSender.loadGroupEntities.
  preserves_auto; auto using pres_getChannelEntity.
Qed.

Lemma pres_processMessage tm ch :
  preserves R (ScraperService.processMessage cfg tm ch).
Proof.
  unfold ScraperService.processMessage. cbv zeta. preserves_auto;
    auto using pres_findOne, pres_sendToTargetGroups, pres_saveProcessed,
      pres_saveNew, pres_construct.
Qed.

Lemma pres_processMessageCall tm ch :
  callPreserves R (ScraperService.processMessageCall cfg tm ch).
Proof.
  unfold ScraperService.processMessageCall. cbv zeta.
  repeat call_step;
    auto using pres_findOne, pres_sendToTargetGroups, pres_saveProcessed,
      pres_saveNew, pres_construct;
    with_frame preserves_ret.
Qed.

Lemma pres_processMessageBatch tms ch :
  preserves R (ScraperService.processMessageBatch cfg tms ch).
Proof.
  unfold ScraperService.processMessageBatch.
  with_frame preserves_batch; [frame_side| |intros rs; with_frame preserves_ret].
  apply Forall_forall. intros tm _. apply pres_processMessageCall.
Qed.

Lemma pres_processInBatches (k : nat) (msgs : list TelegramMessage)
    (ch : ChannelConfig) :
  preserves R (ScraperService.processInBatches cfg k msgs ch).
Proof.
  revert msgs. induction k as [|k IH]; intros msgs;
    cbn [ScraperService.processInBatches]; [with_frame preserves_ret|].
  destruct msgs as [|m msgs]; [with_frame preserves_ret|].
  cbv zeta. preserves_auto; auto using pres_processMessageBatch.
Qed.

Lemma pres_sendLatestBonusMessage :
  preserves R (ScraperService.sendLatestBonusMessage cfg).
Proof.
  unfold ScraperService.sendLatestBonusMessage.
  preserves_auto; auto using pres_sendToTargetGroups.
Qed.

Lemma pres_processRealTimeMessage tm ch kws :
  preserves R (RealTimeListener.processRealTimeMessage cfg tm ch kws).
Proof.
  unfold RealTimeListener.processRealTimeMessage. cbv zeta. preserves_auto;
    auto using pres_sendToTargetGroups, pres_saveNew, pres_construct.
Qed.

Lemma pres_handleNewMessage tm :
  preserves R (RealTimeListener.handleNewMessage cfg tm).
Proof.
  unfold RealTimeListener.handleNewMessage. cbv zeta.
  preserves_auto; auto using pres_processRealTimeMessage.
Qed.

Lemma pres_listenerStop : preserves R RealTimeListener.stop.
Proof. unfold RealTimeListener.stop. preserves_auto. Qed.

Lemma pres_startBody : preserves R (RealTimeListener.startBody cfg).
Proof.
  unfold RealTimeListener.startBody, RealTimeListener.startHeartbeat,
    TelegramClient.isClientConnected.
  preserves_auto; auto using pres_connect, pres_loadChannelEntities.
Qed.

Lemma pres_scraperStop : preserves R scraperStop.
Proof.
  unfold scraperStop. preserves_auto;
    auto using pres_listenerStop, pres_senderStop, pres_disconnect.
Qed.

Lemma pres_fetchBody (u : str) (limit : Z) :
  preserves R (TelegramClient.fetchBody u limit).
Proof.
  unfold TelegramClient.fetchBody, TelegramClient.isClientConnected.
  preserves_auto;
    auto using pres_connect, pres_getChannelEntity, pres_getMessages.
Qed.

(** The fuelled methods, when they come to an end. *)

Lemma getChannelMessages_pres (fuel : nat) (u : str) (limit : Z) :
  forall w r w',
    TelegramClient.getChannelMessages fuel u limit w = Some (r, w') -> R w w'.
Proof.
  induction fuel as [|fuel IH]; intros w r w' E; [discriminate|].
  cbn [TelegramClient.getChannelMessages] in E. cbv zeta in E.
  pose proof (pres_fetchBody u limit w) as K.
  destruct (TelegramClient.fetchBody u limit w) as [[msgs|e] w1];
    cbn [snd] in K.
  - injection E as _ <-. exact K.
  - destruct (includes (message e) (lit "FLOOD_WAIT")).
    + eapply frame_trans; [exact K|].
      eapply frame_trans; [|apply (IH _ _ _ E)]. frame_side.
    + injection E as _ <-. exact K.
Qed.

Lemma scrapeChannel_pres (fuel : nat) (ch : ChannelConfig) :
  forall w r w',
    ScraperService.scrapeChannel cfg fuel ch w = Some (r, w') -> R w w'.
Proof.
  intros w r w' E. unfold ScraperService.scrapeChannel in E.
  destruct (TelegramClient.getChannelMessages fuel (c_username ch)
              (maxMessagesPerCheck cfg) w) as [[[msgs|e] w1]|] eqn:E1;
    [| |discriminate].
  - pose proof (getChannelMessages_pres _ _ _ _ _ _ E1) as K1.
    injection E as E. eapply frame_trans; [exact K1|].
    match type of E with
    | ?m w1 = _ => assert (K2 : preserves R m)
    end.
    { destruct msgs as [|m0 msgs]; [with_frame preserves_ret|].
      cbv zeta. preserves_auto; auto using pres_processInBatches. }
    specialize (K2 w1). rewrite E in K2. exact K2.
  - injection E as _ <-. apply (getChannelMessages_pres _ _ _ _ _ _ E1).
Qed.

Lemma scrapeChannels_pres (fuel : nat) (chs : list ChannelConfig) :
  forall w r w',
    ScraperService.scrapeChannels cfg fuel chs w = Some (r, w') -> R w w'.
Proof.
  induction chs as [|ch chs IH]; intros w r w' E;
    cbn [ScraperService.scrapeChannels] in E.
  - injection E as _ <-. apply frame_refl.
  - destruct (ScraperService.scrapeChannel cfg fuel ch w)
      as [[[n|e] w1]|] eqn:E1; [| |discriminate];
      pose proof (scrapeChannel_pres _ _ _ _ _ E1) as K1;
      (eapply frame_trans; [exact K1|]).
    + eapply frame_trans; [|apply (IH _ _ _ E)]. frame_side.
    + cbv zeta in E.
      destruct (includes (message e) (lit "FLOOD_WAIT")).
      * eapply frame_trans; [|apply (IH _ _ _ E)]. frame_side.
      * apply (IH _ _ _ E).
Qed.

Lemma handleReconnect_pres (fuel : nat) :
  forall w r w',
    RealTimeListener.handleReconnect cfg fuel w = Some (r, w') -> R w w'.
Proof.
  induction fuel as [|fuel IH]; intros w r w' E; [discriminate|].
  cbn [RealTimeListener.handleReconnect] in E. cbv zeta in E.
  destruct (maxReconnectAttempts (listener w) <=? reconnectAttempts (listener w)).
  - injection E as E. pose proof (pres_listenerStop w) as K.
    rewrite E in K. exact K.
  - set (w2 := snd (sleep (reconnectDelay cfg) _)) in E.
    assert (K2 : R w w2) by (subst w2; frame_side).
    eapply frame_trans; [exact K2|].
    pose proof (pres_listenerStop w2) as K3.
    destruct (RealTimeListener.stop w2) as [[u|e] w3]; cbn [snd] in K3.
    + eapply frame_trans; [exact K3|].
      unfold RealTimeListener.startWith in E.
      pose proof (pres_startBody w3) as K4.
      destruct (RealTimeListener.startBody cfg w3) as [[u4|e4] w4];
        cbn [snd] in K4.
      * injection E as _ <-. exact K4.
      * eapply frame_trans; [exact K4|].
        destruct (RealTimeListener.handleReconnect cfg fuel w4)
          as [[[u5|e5] w5]|] eqn:E5; [| |discriminate];
          injection E as _ <-.
        -- apply (IH _ _ _ E5).
        -- eapply frame_trans; [apply (IH _ _ _ E5)|]. frame_side.
    + injection E as _ <-. eapply frame_trans; [exact K3|]. frame_side.
Qed.

Lemma start_pres (fuel : nat) (w : World) c w' :
  RealTimeListener.start cfg fuel w = Some (c, w') -> R w w'.
Proof.
  unfold RealTimeListener.start, RealTimeListener.startWith. intros E.
  pose proof (pres_startBody w) as K.
  destruct (RealTimeListener.startBody cfg w) as [[u|e] w1]; cbn [snd] in K.
  - injection E as _ <-. exact K.
  - eapply frame_trans; [exact K|].
    eapply handleReconnect_pres; eassumption.
Qed.

Lemma heartbeatTick_pres (fuel t : nat) (w : World) c w' :
  RealTimeListener.heartbeatTick cfg fuel t w = Some (c, w') -> R w w'.
Proof.
  unfold RealTimeListener.heartbeatTick. intros E.
  destruct (existsb (Nat.eqb t) (timers w));
    [|injection E as _ <-; apply frame_refl].
  destruct (isListening (listener w) && isConnected (client w));
    [injection E as _ <-; apply frame_refl|].
  destruct (RealTimeListener.handleReconnect cfg fuel w)
    as [[[u|e] w1]|] eqn:E1; [| |discriminate].
  - injection E as _ <-. eapply handleReconnect_pres; eassumption.
  - eapply frame_trans; eapply handleReconnect_pres; eassumption.
Qed.

Lemma afterRun_pres {A} (r : World -> option (Completion A * World))
    (w w' : World) :
  (forall c w1, r w = Some (c, w1) -> R w w1) ->
  afterRun r w = Some w' -> R w w'.
Proof.
  intros Hr E. unfold afterRun in E.
  destruct (r w) as [[c w1]|] eqn:E1; [|discriminate].
  injection E as <-. apply (Hr c). reflexivity.
Qed.

Lemma run_pres (op : Operation) (w w' : World) :
  run cfg op w = Some w' -> R w w'.
Proof.
  destruct op; cbn [run]; unfold after; intros E;
    try (injection E as <-).
  - apply pres_processMessage.
  - apply pres_processMessageBatch.
  - eapply afterRun_pres; [|exact E]. apply scrapeChannel_pres.
  - eapply afterRun_pres; [|exact E].
    unfold ScraperService.scrapeAllChannels. apply scrapeChannels_pres.
  - apply pres_handleNewMessage.
  - apply pres_processRealTimeMessage.
  - apply pres_sendToTargetGroups.
  - apply pres_sendLatestBonusMessage.
  - apply pres_loadGroupEntities.
  - apply pres_queueTick.
  - apply pres_processQueue.
  - apply pres_sendSingleMessage.
  - apply pres_clearQueue.
  - apply pres_senderStop.
  - eapply afterRun_pres; [|exact E]. apply start_pres.
  - eapply afterRun_pres; [|exact E]. apply handleReconnect_pres.
  - eapply afterRun_pres; [|exact E]. apply heartbeatTick_pres.
  - apply pres_listenerStop.
  - apply pres_scraperStop.
  - apply pres_connect.
  - apply pres_disconnect.
Qed.

Lemma runAll_pres (ops : list Operation) (w w' : World) :
  runAll cfg ops w = Some w' -> R w w'.
Proof.
  revert w. induction ops as [|op ops IH]; intros w E; cbn [runAll] in E.
  - injection E as <-. apply frame_refl.
  - destruct (run cfg op w) as [w1|] eqn:E1; [|discriminate].
    eapply frame_trans; [apply (run_pres _ _ _ E1)|apply (IH _ E)].
Qed.

End StorePreserves.

#[export] Instance storeRel_StoreFrame : StoreFrame storeRel.
Proof.
  split.
  - exact storeRel_Frame.
  - intros w w' E. unfold storeRel. rewrite E. apply processedMonotone_refl.
  - intros m w docs E. unfold storeRel, Store.insertDoc in *.
    destruct (existsb (Store.sameKey m) (store w)); [discriminate|].
    injection E as <-. apply processedMonotone_insert.
  - intros oid w. apply processedMonotone_mark.
Qed.

(** C5: whatever operations run, in whatever order, every stored document
    stays stored under its [_id], and its [processed] flag is left as it
    was or goes from [false] to [true]; a flag that is [true] stays
    [true]. *)
Theorem processed_flag_is_monotone (cfg : Config) (ops : list Operation)
    (w w' : World) :
  runAll cfg ops w = Some w' ->
  processedMonotone (store w) (store w')
  /\ (forall oid d,
        Store.lookup oid (store w) = Some d ->
        processed d = true ->
        exists d', Store.lookup oid (store w') = Some d'
                   /\ processed d' = true).
Proof.
  intros H.
  pose proof (runAll_pres cfg storeRel ops w w' H) as HM.
  unfold storeRel in HM.
  split; [exact HM|].
  intros oid d Hl Hp. destruct (HM oid d Hl) as [d' [Hl' Hs]].
  exists d'. split; [assumption|eapply flagStep_processed; eassumption].
Qed.

Lemma processed_flag_is_monotone_witness :
  (exists d, Store.lookup 0 (store Fixture.afterDrain) = Some d
             /\ processed d = true)
  /\ (exists d', Store.lookup 0 (store Fixture.afterLaterOps) = Some d'
                 /\ processed d' = true).
Proof.
  assert (Hd : exists d, Store.lookup 0 (store Fixture.afterDrain) = Some d
                         /\ processed d = true).
  { eexists. split; vm_compute; reflexivity. }
  split; [exact Hd|].
  destruct Hd as [d [Hl Hp]].
  destruct (processed_flag_is_monotone Fixture.cfg Fixture.laterOps
              Fixture.afterDrain Fixture.afterLaterOps) as [_ H].
  - vm_compute. reflexivity.
  - exact (H 0 d Hl Hp).
Defined.

(** ** The reconnect controller *)

Lemma listener_stop_spec (w : World) :
  exists w',
    RealTimeListener.stop w = (Returned tt, w')
    /\ listener w' =
         mkListener false [] None (reconnectAttempts (listener w))
           (maxReconnectAttempts (listener w))
    /\ timers w' =
         match heartbeatInterval (listener w) with
         | Some t => RealTimeListener.removeTimer t (timers w)
         | None => timers w
         end
    /\ trace w' = trace w /\ client w' = client w /\ store w' = store w
    /\ sender w' = sender w /\ net w' = net w /\ nextTimer w' = nextTimer w
    /\ clock w' = clock w /\ nextOid w' = nextOid w /\ scraper w' = scraper w.
Proof.
  unfold RealTimeListener.stop, bind, modify, gets. cbn.
  destruct (heartbeatInterval (listener w)) as [t|] eqn:E; cbn;
    eexists; (split; [reflexivity|]); repeat split.
  unfold RealTimeListener.set_channelEntities, RealTimeListener.set_isListening.
  cbn. rewrite E. reflexivity.
Qed.

Lemma removeTimer_not_In (t : nat) (ts : list nat) :
  ~ In t (RealTimeListener.removeTimer t ts).
Proof.
  unfold RealTimeListener.removeTimer. intros H.
  apply filter_In in H. destruct H as [_ H].
  rewrite Nat.eqb_refl in H. discriminate.
Qed.

(** C6: with the attempt counter at the configured maximum,
    [handleReconnect] returns with the listener stopped: not listening, the
    heartbeat interval cleared and its handle null, no channel entities. It
    calls out to nothing (the trace is unchanged: no connect attempt), leaves
    the counter at the bound, and in the world it leaves any further
    [handleReconnect] or heartbeat tick changes nothing. *)
Theorem reconnect_bound_stops_listener (cfg : Config) (fuel : nat) (w : World) :
  maxReconnectAttempts (listener w) <= reconnectAttempts (listener w) ->
  exists w',
    RealTimeListener.handleReconnect cfg (S fuel) w = Some (Returned tt, w')
    /\ isListening (listener w') = false
    /\ heartbeatInterval (listener w') = None
    /\ channelEntities (listener w') = []
    /\ (forall t, heartbeatInterval (listener w) = Some t -> ~ In t (timers w'))
    /\ trace w' = trace w
    /\ connects (trace w') = connects (trace w)
    /\ client w' = client w
    /\ reconnectAttempts (listener w') = reconnectAttempts (listener w)
    /\ (forall fuel',
          RealTimeListener.handleReconnect cfg (S fuel') w'
          = Some (Returned tt, w'))
    /\ (forall fuel' t,
          RealTimeListener.heartbeatTick cfg (S fuel') t w'
          = Some (Returned tt, w')).
Proof.
  intros Hmax.
  destruct (listener_stop_spec w)
    as [w' [Hs [Hl [Ht [Htr [Hc [Hst [Hse [Hn [Hnt [Hck [Ho Hsc]]]]]]]]]]]].
  assert (Hfix : RealTimeListener.stop w' = (Returned tt, w')).
  { destruct (listener_stop_spec w')
      as [w2 [Hs2 [Hl2 [Ht2 [Htr2 [Hc2 [Hst2 [Hse2 [Hn2 [Hnt2 [Hck2 [Ho2 Hsc2]]]]]]]]]]]].
    rewrite Hs2. f_equal.
    rewrite Hl in Hl2, Ht2. cbn in Hl2, Ht2. rewrite <- Hl in Hl2.
    destruct w2, w'. cbn in *. congruence. }
  assert (Hbound : (maxReconnectAttempts (listener w')
                    <=? reconnectAttempts (listener w')) = true).
  { rewrite Hl. cbn. apply Nat.leb_le. exact Hmax. }
  assert (Hagain : forall fuel',
             RealTimeListener.handleReconnect cfg (S fuel') w'
             = Some (Returned tt, w')).
  { intros fuel'. cbn [RealTimeListener.handleReconnect].
    rewrite Hbound, Hfix. reflexivity. }
  exists w'. repeat split.
  - cbn [RealTimeListener.handleReconnect].
    apply Nat.leb_le in Hmax. rewrite Hmax, Hs. reflexivity.
  - rewrite Hl. reflexivity.
  - rewrite Hl. reflexivity.
  - rewrite Hl. reflexivity.
  - intros t Hh. rewrite Ht, Hh. apply removeTimer_not_In.
  - exact Htr.
  - rewrite Htr. reflexivity.
  - exact Hc.
  - rewrite Hl. reflexivity.
  - exact Hagain.
  - intros fuel' t. unfold RealTimeListener.heartbeatTick.
    destruct (existsb (Nat.eqb t) (timers w')); [|reflexivity].
    rewrite Hl. cbn [isListening andb]. rewrite Hagain. reflexivity.
Qed.

Lemma reconnect_bound_stops_listener_witness :
  exists w',
    RealTimeListener.handleReconnect Fixture.cfg 1 Fixture.exhausted
    = Some (Returned tt, w')
    /\ isListening (listener w') = false
    /\ timers w' = []
    /\ trace w' = [].
Proof.
  destruct (reconnect_bound_stops_listener Fixture.cfg 0 Fixture.exhausted)
    as [w' [H1 [H2 _]]].
  - vm_compute. lia.
  - exists w'. split; [exact H1|]. split; [exact H2|].
    vm_compute in H1. injection H1 as <-. split; reflexivity.
Defined.

(** ** The two ingestion paths *)

Section IngestionFacts.

Variable cfg : Config.

Lemma str_eqb_refl (s : str) : str_eqb s s = true.
Proof.
  induction s as [|c s IH]; [reflexivity|].
  simpl. rewrite N.eqb_refl. exact IH.
Qed.

Lemma extractData_frame (m : Message) :
  _id (extractData m) = _id m
  /\ channelId (extractData m) = channelId m
  /\ messageId (extractData m) = messageId m
  /\ processed (extractData m) = processed m.
Proof.
  unfold extractData, collapse, setResults.
  destruct (scan (text m)) as [codes url].
  destruct (truthy url), codes as [|c cs]; cbn;
    repeat match goal with
           | |- context [if ?b then _ else _] => destruct b
           end; cbn; auto.
Qed.

Lemma sameKey_extractData (m d : Message) :
  Store.sameKey (extractData m) d = Store.sameKey m d.
Proof.
  unfold Store.sameKey.
  destruct (extractData_frame m) as [_ [-> [-> _]]]. reflexivity.
Qed.

Lemma hasKey_extractData (m : Message) (docs : list Message) :
  existsb (Store.sameKey (extractData m)) docs = existsb (Store.sameKey m) docs.
Proof.
  induction docs as [|d docs IH]; [reflexivity|].
  simpl. rewrite sameKey_extractData, IH. reflexivity.
Qed.



End IngestionFacts.

(** ** The unique index as the dedup mechanism *)

Section DuplicateKey.

Variable cfg : Config.

Lemma sameKey_refl (m : Message) : Store.sameKey m m = true.
Proof. unfold Store.sameKey. rewrite str_eqb_refl, Z.eqb_refl. reflexivity. Qed.

Lemma filter_none {A} (f : A -> bool) (l : list A) :
  existsb f l = false -> filter f l = [].
Proof.
  induction l as [|x l IH]; [reflexivity|].
  simpl. destruct (f x); [discriminate|]. exact IH.
Qed.

Lemma insertDoc_inr (m : Message) (docs docs' : list Message) :
  Store.insertDoc m docs = inr docs' ->
  existsb (Store.sameKey m) docs = false /\ docs' = docs ++ [m].
Proof.
  unfold Store.insertDoc. destruct (existsb (Store.sameKey m) docs).
  - discriminate.
  - intros H. injection H as <-. split; reflexivity.
Qed.

(** A handler that returns on every error makes the method return. *)
Lemma try_catch_returns {A} (m : M A) (h : Error -> M A) :
  (forall e w, exists a, h e w = (Returned a, w)) ->
  forall w, exists a w', try_catch m h w = (Returned a, w').
Proof.
  intros Hh w. unfold try_catch.
  destruct (m w) as [[a|e] w'].
  - exists a, w'. reflexivity.
  - destruct (Hh e w') as [a Ha]. exists a, w'. exact Ha.
Qed.

Lemma processMessage_returns (tm : TelegramMessage) (ch : ChannelConfig)
    (w : World) :
  exists o w', ScraperService.processMessage cfg tm ch w = (Returned o, w').
Proof.
  unfold ScraperService.processMessage. apply try_catch_returns.
  intros e w0. exists ScraperService.Undefined.
  destruct (codeIs 11000 e); reflexivity.
Qed.

Lemma processRealTimeMessage_returns (tm : TelegramMessage)
    (ch : ChannelConfig) (kws : list str) (w : World) :
  exists w',
    RealTimeListener.processRealTimeMessage cfg tm ch kws w = (Returned tt, w').
Proof.
  unfold RealTimeListener.processRealTimeMessage.
  match goal with
  | |- exists w', try_catch ?m ?h w = _ =>
      destruct (try_catch_returns m h) with (w := w) as [[] [w' H]]
  end.
  - intros e w0. exists tt. destruct (codeIs 11000 e); reflexivity.
  - exists w'. exact H.
Qed.

(** The insert that either path attempts for a message whose key is already
    stored throws, the store as it was. *)
Lemma saveNew_duplicate (d : Message) (w : World) :
  existsb (Store.sameKey d) (store w) = true ->
  exists e w',
    Store.saveNew (extractData d) w = (Threw e, w')
    /\ store w' = store w /\ sender w' = sender w
    /\ nextOid w' = nextOid w.
Proof.
  intros Hk. unfold Store.saveNew, Store.call.
  destruct (Store.valid (extractData d)); [|eexists _, _; repeat split].
  destruct (storeFaults (net w)) as [|[e|] rest]; cbn.
  - unfold Store.insertDoc. rewrite hasKey_extractData, Hk.
    eexists _, _. repeat split.
  - eexists _, _. repeat split.
  - unfold Store.insertDoc. cbn. rewrite hasKey_extractData, Hk.
    eexists _, _. repeat split.
Qed.

End DuplicateKey.

(** ** The nest of [start] and [handleReconnect] comes to an end *)

Section ReconnectTerminates.

Variable cfg : Config.

Lemma throwsWithin_preserves (R : World -> World -> Prop) {A} (m : M A) :
  preserves R m -> throwsWithin R m.
Proof.
  intros Hm w e w' E. specialize (Hm w). rewrite E in Hm. exact Hm.
Qed.

Lemma throwsWithin_bind (R : World -> World -> Prop) `{Frame R} {A B}
    (m : M A) (k : A -> M B) :
  preserves R m -> (forall a, throwsWithin R (k a)) ->
  throwsWithin R (bind m k).
Proof.
  intros Hm Hk w e w' E. unfold bind in E. specialize (Hm w).
  destruct (m w) as [[a|e1] w1]; cbn [snd] in Hm.
  - eapply frame_trans; [exact Hm|]. eapply Hk. exact E.
  - injection E as _ <-. exact Hm.
Qed.

Lemma counters_connect : preserves countersRel TelegramClient.connect.
Proof. with_frame preserves_connect; frame_side. Qed.

Lemma counters_loadChannelEntities :
  preserves countersRel (RealTimeListener.loadChannelEntities cfg).
Proof. with_frame preserves_loadChannelEntities; frame_side. Qed.

(** When the [try] block of [start] throws, the attempt counter has not
    been reset. *)
Lemma startBody_throws_within :
  throwsWithin countersRel (RealTimeListener.startBody cfg).
Proof.
  unfold RealTimeListener.startBody.
  destruct (negb (realTimeEnabled cfg)); [intros w e w' E; discriminate E|].
  apply throwsWithin_bind; [typeclasses eauto|with_frame preserves_gets|].
  intros c.
  apply throwsWithin_bind; [typeclasses eauto| |].
  { destruct c; [with_frame preserves_ret|apply counters_connect]. }
  intros _.
  apply throwsWithin_bind;
    [typeclasses eauto|apply counters_loadChannelEntities|].
  intros _.
  apply throwsWithin_bind; [typeclasses eauto|with_frame preserves_gets|].
  intros made.
  apply throwsWithin_bind; [typeclasses eauto| |].
  { destruct made; preserves_auto. }
  intros _ w e w' E. cbn in E. discriminate E.
Qed.

Lemma handleReconnect_fuel (fuel : nat) :
  forall w,
    maxReconnectAttempts (listener w) - reconnectAttempts (listener w) < fuel ->
    exists r w', RealTimeListener.handleReconnect cfg fuel w = Some (r, w').
Proof.
  induction fuel as [|fuel IH]; intros w Hlt; [lia|].
  cbn [RealTimeListener.handleReconnect]. cbv zeta.
  destruct (Nat.leb_spec (maxReconnectAttempts (listener w))
              (reconnectAttempts (listener w))) as [Hle|Hgt].
  - destruct (RealTimeListener.stop w) as [r w']. eauto.
  - set (w2 := snd (sleep (reconnectDelay cfg) _)).
    assert (Ha : reconnectAttempts (listener w2) = S (reconnectAttempts (listener w)))
      by reflexivity.
    assert (Hm : maxReconnectAttempts (listener w2) = maxReconnectAttempts (listener w))
      by reflexivity.
    destruct (listener_stop_spec w2) as [w3 [Hs [Hl _]]].
    rewrite Hs. unfold RealTimeListener.startWith.
    destruct (RealTimeListener.startBody cfg w3) as [[u|e] w4] eqn:E4; [eauto|].
    destruct (startBody_throws_within _ _ _ E4) as [Ha4 Hm4].
    rewrite Hl in Ha4, Hm4. cbn in Ha4, Hm4.
    destruct (IH w4) as [r5 [w5 E5]]; [lia|].
    rewrite E5. destruct r5; eauto.
Qed.

End ReconnectTerminates.

(** With fuel above the attempts that are left, [handleReconnect] and
    [start] come to an end, and [handleReconnect] returns. *)
Theorem handleReconnect_terminates (cfg : Config) (w : World) :
  let fuel :=
    S (maxReconnectAttempts (listener w) - reconnectAttempts (listener w)) in
  (exists w',
     RealTimeListener.handleReconnect cfg fuel w = Some (Returned tt, w'))
  /\ (exists r w', RealTimeListener.start cfg (S fuel) w = Some (r, w')).
Proof.
  intros fuel. split.
  - destruct (handleReconnect_fuel cfg fuel w) as [r [w' E]];
      [subst fuel; lia|].
    exists w'. rewrite E. f_equal. f_equal.
    subst fuel. cbn [RealTimeListener.handleReconnect] in E. cbv zeta in E.
    destruct (maxReconnectAttempts (listener w) <=? reconnectAttempts (listener w)).
    + destruct (listener_stop_spec w) as [w1 [Hs _]]. rewrite Hs in E.
      injection E as <- _. reflexivity.
    + destruct (listener_stop_spec
                  (snd (sleep (reconnectDelay cfg)
                          (with_listener
                             (fun l => RealTimeListener.set_reconnectAttempts
                                         (S (reconnectAttempts l)) l) w))))
        as [w1 [Hs _]].
      rewrite Hs in E.
      destruct (RealTimeListener.startWith cfg _ w1) as [[[[]|e] w2]|];
        [injection E as <- _; reflexivity
        |injection E as <- _; reflexivity
        |discriminate E].
  - unfold RealTimeListener.start, RealTimeListener.startWith.
    destruct (RealTimeListener.startBody cfg w) as [[u|e] w1] eqn:E1; [eauto|].
    destruct (startBody_throws_within cfg _ _ _ E1) as [Ha Hm].
    apply handleReconnect_fuel. subst fuel. lia.
Qed.

(** ** Further properties of the extraction *)

Lemma startsWith_includes (s p : str) :
  startsWith s p = true -> includes s p = true.
Proof. intros H. destruct s; simpl in *; rewrite H; reflexivity. Qed.

(** Last URL line wins: when the last line of a text starts with 'http',
    it is the URL the scan ends with, whatever the lines before it set. *)
Theorem last_url_line_wins (lines : list str) (l : str)
    (st : list str * option str) :
  startsWith (trim l) (lit "http") = true ->
  snd (pass2 (lines ++ [l]) st) = Some (trim l).
Proof.
  intros H. unfold pass2. rewrite fold_left_app. cbn [fold_left].
  destruct (fold_left pass2_step lines st) as [codes url].
  unfold pass2_step, isUrlLine.
  rewrite (startsWith_includes _ _ H), H. reflexivity.
Qed.

Lemma last_url_line_wins_witness :
  snd (scan (lit "`ABCD1234`" ++ Fixture.nl ++ lit "http://a.com" ++ Fixture.nl
             ++ lit "http://b.com"))
  = Some (lit "http://b.com").
Proof.
  exact (last_url_line_wins [lit "`ABCD1234`"; lit "http://a.com"]
           (lit "http://b.com") ([lit "ABCD1234"], None) eq_refl).
Defined.

(** Without a backtick code in the text, the candidate list of the result
    holds at most one code. *)
Theorem at_most_one_fallback_code (m : Message) :
  pass1 (linesOf (text m)) = [] ->
  allBonusCodes m = [] ->
  length (allBonusCodes (extractData m)) <= 1.
Proof.
  intros H1 H0. pose proof (fallback_at_most_one (text m) H1) as Hl.
  unfold extractData, collapse, setResults.
  destruct (scan (text m)) as [codes url]. cbn [fst] in Hl.
  destruct m as [oid mid cid cu cn txt bc abc wu kw md pr hb hw].
  cbn in H0. subst abc.
  destruct (truthy url), codes as [|c cs]; cbn;
    repeat match goal with
           | |- context [if ?b then _ else _] => destruct b
           end; cbn in *; lia.
Qed.

Lemma at_most_one_fallback_code_witness :
  length (allBonusCodes
            (extractData (Fixture.doc 1 (lit "ABCD" ++ Fixture.nl ++ lit "EFGH"
                                         ++ Fixture.nl ++ lit "IJKL"))))
  <= 1.
Proof.
  apply at_most_one_fallback_code; reflexivity.
Defined.

(** ** The unique index holds at all times *)

Section UniqueIndex.

Lemma str_eqb_eq (a b : str) : str_eqb a b = true -> a = b.
Proof.
  revert b. induction a as [|x a IH]; intros [|y b] H; simpl in H;
    try discriminate; [reflexivity|].
  apply andb_true_iff in H. destruct H as [Hx Hab].
  apply N.eqb_eq in Hx. subst y. f_equal. apply IH. exact Hab.
Qed.

Lemma sameKey_eq (a b : Message) :
  Store.sameKey a b = true ->
  channelId a = channelId b /\ messageId a = messageId b.
Proof.
  unfold Store.sameKey. intros H. apply andb_true_iff in H.
  destruct H as [Hc Hm]. split; [apply str_eqb_eq|apply Z.eqb_eq]; assumption.
Qed.

Lemma sameKey_congr (m m0 : Message) :
  Store.sameKey m m0 = true ->
  forall d, Store.sameKey m d = Store.sameKey m0 d.
Proof.
  intros H d. destruct (sameKey_eq _ _ H) as [Hc Hm].
  unfold Store.sameKey. rewrite Hc, Hm. reflexivity.
Qed.

Lemma uniqueIndex_insert (m0 : Message) (docs : list Message) :
  existsb (Store.sameKey m0) docs = false ->
  uniqueIndex docs -> uniqueIndex (docs ++ [m0]).
Proof.
  intros Hfresh Hu m. unfold withKey. rewrite filter_app, length_app.
  cbn [filter]. destruct (Store.sameKey m m0) eqn:E.
  - rewrite (filter_ext _ _ (sameKey_congr m m0 E)).
    rewrite (filter_none _ _ Hfresh). cbn. lia.
  - specialize (Hu m). unfold withKey in Hu. cbn. lia.
Qed.

Lemma withKey_markProcessed (m : Message) (oid : nat) (docs : list Message) :
  length (withKey m (Store.markProcessed oid docs)) = length (withKey m docs).
Proof.
  unfold withKey, Store.markProcessed.
  induction docs as [|d docs IH]; [reflexivity|].
  cbn [map filter].
  assert (Hk : Store.sameKey m (if _id d =? oid then set_processed true d else d)
               = Store.sameKey m d) by (destruct (_id d =? oid); reflexivity).
  rewrite Hk. destruct (Store.sameKey m d); cbn [length]; rewrite IH; reflexivity.
Qed.

End UniqueIndex.

#[export] Instance indexRel_Frame : Frame indexRel.
Proof.
  split.
  - intros w H. exact H.
  - intros a b c Hab Hbc H. apply Hbc, Hab, H.
Qed.

#[export] Instance indexRel_StoreFrame : StoreFrame indexRel.
Proof.
  split.
  - exact indexRel_Frame.
  - intros w w' E H. rewrite E. exact H.
  - intros m w docs E H. cbn [store with_store].
    destruct (insertDoc_inr _ _ _ E) as [Hfresh ->].
    apply uniqueIndex_insert; assumption.
  - intros oid w H m. cbn [store with_store].
    rewrite withKey_markProcessed. apply H.
Qed.

(** Whatever operations run, a store that holds no key twice never comes to
    hold one twice: for every (channel id, message id) there is at most one
    stored document, at all times. *)
Theorem unique_index_is_invariant (cfg : Config) (ops : list Operation)
    (w w' : World) :
  uniqueIndex (store w) ->
  runAll cfg ops w = Some w' ->
  uniqueIndex (store w').
Proof.
  intros Hu H. exact (runAll_pres cfg indexRel ops w w' H Hu).
Qed.

Lemma unique_index_is_invariant_witness :
  length (withKey Fixture.storedTwoLine (store Fixture.afterLaterOps)) <= 1.
Proof.
  apply (unique_index_is_invariant Fixture.cfg
           ([OpProcessRealTimeMessage Fixture.oneLine Fixture.chan [lit "bonus"];
             OpProcessQueue] ++ Fixture.laterOps)
           (with_net (set_fetchOutcomes [inr [Fixture.oneLine; Fixture.twoLine]])
              Fixture.world0)).
  - intros m. cbn. lia.
  - vm_compute. reflexivity.
Defined.

(** ** The unique index as the dedup signal *)

Section KeyKept.

Lemma existsb_markProcessed (m : Message) (oid : nat) (docs : list Message) :
  existsb (Store.sameKey m) (Store.markProcessed oid docs)
  = existsb (Store.sameKey m) docs.
Proof.
  unfold Store.markProcessed.
  induction docs as [|d docs IH]; [reflexivity|].
  cbn [map existsb]. rewrite IH.
  destruct (_id d =? oid); reflexivity.
Qed.

Lemma existsb_congr {A} (f g : A -> bool) (l : list A) :
  (forall x, f x = g x) -> existsb f l = existsb g l.
Proof.
  intros H. induction l as [|x l IH]; [reflexivity|].
  cbn [existsb]. rewrite H, IH. reflexivity.
Qed.

Lemma existsb_filter_length {A} (f : A -> bool) (l : list A) :
  existsb f l = true -> 1 <= length (filter f l).
Proof.
  induction l as [|x l IH]; [discriminate|].
  cbn [existsb filter]. destruct (f x); cbn [length]; [lia|exact IH].
Qed.

Lemma uniqueKeys_sound (docs : list Message) :
  uniqueKeys docs = true -> uniqueIndex docs.
Proof.
  induction docs as [|d docs IH]; intros H m; [cbn; lia|].
  cbn [uniqueKeys] in H. apply andb_true_iff in H as [Hd Hu].
  apply negb_true_iff in Hd. unfold withKey. cbn [filter].
  destruct (Store.sameKey m d) eqn:E.
  - rewrite (filter_ext _ _ (sameKey_congr m d E)).
    rewrite (filter_none _ _ Hd). cbn. lia.
  - apply (IH Hu m).
Qed.

End KeyKept.

#[export] Instance keyRel_Frame (m : Message) : Frame (keyRel m).
Proof.
  split.
  - intros w H. exact H.
  - intros a b c Hab Hbc H. apply Hbc, Hab, H.
Qed.

#[export] Instance keyRel_StoreFrame (m : Message) : StoreFrame (keyRel m).
Proof.
  split.
  - exact (keyRel_Frame m).
  - intros w w' E H. rewrite E. exact H.
  - intros m0 w docs E H. cbn [store with_store].
    destruct (insertDoc_inr _ _ _ E) as [_ ->].
    rewrite existsb_app, H. reflexivity.
  - intros oid w H. cbn [store with_store].
    rewrite existsb_markProcessed. exact H.
Qed.

(** C4: in a store that holds a document under the (channel id, message
    id) key of a message, any insert under that key fails, with the
    duplicate-key condition, code 11000, unless the validation or a fault
    of the store comes first; the store holds exactly one document with the
    key, and still does after any sequence of operations. The message is
    taken by the live-push path, and by the polling path when its lookup by
    handle misses, as already known: the method returns, the store and the
    queue are as before. Neither method ever throws, and in a batch of the
    polling path every call is fulfilled, in whatever order the calls are
    resumed. *)
Theorem duplicate_key_is_already_known (cfg : Config) (tm : TelegramMessage)
    (ch : ChannelConfig) (kws : list str) (w : World) (m : Message) :
  uniqueIndex (store w) ->
  existsb (Store.sameKey m) (store w) = true ->
  channelId m = channelIdOf tm ->
  messageId m = tm_id tm ->
  (forall m2, Store.sameKey m2 m = true ->
     exists e w',
       Store.saveNew m2 w = (Threw e, w') /\ store w' = store w
       /\ (Store.valid m2 = true -> hd None (storeFaults (net w)) = None ->
           e = Store.duplicateKey))
  /\ code Store.duplicateKey = Some 11000%Z
  /\ (forall ops w',
        runAll cfg ops w = Some w' -> length (withKey m (store w')) = 1)
  /\ (exists w',
        RealTimeListener.processRealTimeMessage cfg tm ch kws w
        = (Returned tt, w')
        /\ store w' = store w /\ sender w' = sender w)
  /\ (find (byHandle tm ch) (store w) = None ->
      exists w',
        ScraperService.processMessage cfg tm ch w
        = (Returned ScraperService.Undefined, w')
        /\ store w' = store w /\ sender w' = sender w)
  /\ (forall tms w0,
        allFulfilled (length tms) (fst (batchResults cfg tms ch w0))
        /\ exists n,
             fst (ScraperService.processMessageBatch cfg tms ch w0)
             = Returned n)
  /\ (forall w0, exists o w',
        ScraperService.processMessage cfg tm ch w0 = (Returned o, w'))
  /\ (forall w0, exists w',
        RealTimeListener.processRealTimeMessage cfg tm ch kws w0
        = (Returned tt, w')).
Proof.
  intros Hu Hin Hc Hm.
  assert (Hkey : forall oid u n kw,
             existsb (Store.sameKey
                        (newMessage oid (tm_id tm) (channelIdOf tm) u n
                           (textOf tm) kw (tm_date tm * 1000)))
               (store w) = true).
  { intros oid u n kw. rewrite <- Hin. apply existsb_congr. intros d.
    unfold Store.sameKey. cbn [channelId messageId newMessage].
    rewrite <- Hc, <- Hm. reflexivity. }
  split; [|split; [|split; [|split; [|split; [|split; [|split]]]]]].
  - intros m2 H2.
    assert (K : existsb (Store.sameKey m2) (store w) = true).
    { rewrite <- Hin. apply existsb_congr. apply sameKey_congr, H2. }
    unfold Store.saveNew, Store.call, Store.insertDoc.
    destruct (Store.valid m2); [|eexists _, _; repeat split; discriminate].
    destruct (storeFaults (net w)) as [|[e|] rest]; cbn [store with_net hd];
      rewrite ?K; eexists _, _; repeat split; discriminate.
  - reflexivity.
  - intros ops w' Hr.
    pose proof (runAll_pres cfg indexRel ops w w' Hr Hu m) as H1.
    pose proof (runAll_pres cfg (keyRel m) ops w w' Hr Hin) as H2.
    apply existsb_filter_length in H2. unfold withKey in *. lia.
  - unfold RealTimeListener.processRealTimeMessage, try_catch.
    unfold bind at 1. unfold Store.construct at 1.
    destruct (tm_text tm) as [txt|].
    + unfold bind at 1. unfold ret at 1. unfold bind at 1.
      destruct (saveNew_duplicate
                  (newMessage (nextOid w) (tm_id tm) (channelIdOf tm)
                     (c_username ch) (c_name ch) (textOf tm) kws
                     (tm_date tm * 1000))
                  (with_nextOid (S (nextOid w)) w) (Hkey _ _ _ _))
        as [e [w' [He [Hs [Hq _]]]]].
      rewrite He. exists w'.
      destruct (codeIs 11000 e); (split; [reflexivity|split; assumption]).
    + eexists. split; [reflexivity|split; reflexivity].
  - intros Hfind. unfold byHandle in Hfind.
    unfold ScraperService.processMessage. cbv zeta.
    remember ((length (ScraperService.formatLines (textOf tm)) <? 2)
              || (5 <? length (ScraperService.formatLines (textOf tm)))) as b1.
    remember (negb (existsb ScraperService.lineHasUrl
                      (ScraperService.formatLines (textOf tm)))) as b2.
    unfold try_catch, bind, ret, Store.findOne, Store.call, gets,
      Store.construct.
    destruct (truthy (tm_text tm)); cbn [negb];
      [|eexists; repeat split].
    destruct (storeFaults (net w)) as [|[e|] rest] eqn:Ef.
    + rewrite Hfind. destruct b1; [eexists; repeat split|].
      destruct b2; [eexists; repeat split|].
      destruct (saveNew_duplicate
                  (newMessage (nextOid w) (tm_id tm) (channelIdOf tm)
                     (c_username ch) (c_name ch) (textOf tm)
                     [lit "bonus_format"] (tm_date tm * 1000))
                  (with_nextOid (S (nextOid w)) w) (Hkey _ _ _ _))
        as [e [w' [He [Hs [Hq _]]]]].
      rewrite He. exists w'.
      destruct (codeIs 11000 e); (split; [reflexivity|split; assumption]).
    + destruct (codeIs 11000 e); eexists; repeat split.
    + cbn [store with_net]. rewrite Hfind.
      destruct b1; [eexists; repeat split|].
      destruct b2; [eexists; repeat split|].
      match goal with
      | |- context [Store.saveNew ?d ?w0] =>
          destruct (saveNew_duplicate
                      (newMessage (nextOid w) (tm_id tm) (channelIdOf tm)
                         (c_username ch) (c_name ch) (textOf tm)
                         [lit "bonus_format"] (tm_date tm * 1000))
                      w0 (Hkey _ _ _ _))
            as [e [w' [He [Hs [Hq _]]]]]
      end.
      cbn [nextOid with_net] in *. rewrite He. exists w'.
      destruct (codeIs 11000 e); (split; [reflexivity|split; assumption]).
  - intros tms w0. pose proof (batchResults_fulfilled cfg tms ch w0) as H.
    split; [exact H|]. rewrite processMessageBatch_counts. unfold bind.
    destruct H as [rs [E _]].
    destruct (batchResults cfg tms ch w0) as [r w1]. cbn [fst] in E. subst r.
    eexists. reflexivity.
  - intros w0. apply processMessage_returns.
  - intros w0. apply processRealTimeMessage_returns.
Qed.

Lemma duplicate_key_is_already_known_witness :
  map messageId (store KeyFixture.afterBoth) = [7%Z; 8%Z]
  /\ (exists e w',
        Store.saveNew KeyFixture.storedOneLine KeyFixture.afterBoth = (Threw e, w')
        /\ e = Store.duplicateKey)
  /\ length (withKey KeyFixture.storedOneLine (store KeyFixture.afterBoth)) = 1
  /\ (exists w',
        RealTimeListener.processRealTimeMessage Fixture.cfg Fixture.oneLine
          Fixture.chan [lit "bonus"] KeyFixture.afterBoth
        = (Returned tt, w')
        /\ store w' = store KeyFixture.afterBoth)
  /\ (exists w',
        ScraperService.processMessage Fixture.cfg Fixture.oneLine
          Fixture.renamed KeyFixture.afterBoth
        = (Returned ScraperService.Undefined, w')
        /\ store w' = store KeyFixture.afterBoth).
Proof.
  assert (Hu : uniqueIndex (store KeyFixture.afterBoth))
    by (apply uniqueKeys_sound; vm_compute; reflexivity).
  assert (Hin : existsb (Store.sameKey KeyFixture.storedOneLine)
                  (store KeyFixture.afterBoth) = true)
    by (vm_compute; reflexivity).
  destruct (duplicate_key_is_already_known Fixture.cfg Fixture.oneLine
              Fixture.renamed [lit "bonus"] KeyFixture.afterBoth
              KeyFixture.storedOneLine Hu Hin eq_refl eq_refl)
    as [H1 [_ [H3 [_ [H5 _]]]]].
  destruct (duplicate_key_is_already_known Fixture.cfg Fixture.oneLine
              Fixture.chan [lit "bonus"] KeyFixture.afterBoth
              KeyFixture.storedOneLine Hu Hin eq_refl eq_refl)
    as [_ [_ [_ [[w1 [H4 [H4s _]]] _]]]].
  split; [vm_compute; reflexivity|]. split; [|split; [|split]].
  - destruct (H1 KeyFixture.storedOneLine) as [e [w' [E [_ He]]]];
      [vm_compute; reflexivity|].
    exists e, w'. split; [exact E|]. apply He; vm_compute; reflexivity.
  - apply (H3 []). reflexivity.
  - exists w1. split; [exact H4|exact H4s].
  - destruct H5 as [w2 [H5a [H5s _]]]; [vm_compute; reflexivity|].
    exists w2. split; [exact H5a|exact H5s].
Defined.

(* ===================================================================== *)
(** * Further properties *)
(* ===================================================================== *)

(** ** Extraction: what it writes *)

Section CodeShape.

Lemma isAlnum_not_backtick (c : N) : isAlnum c = true -> N.eqb c backtick = false.
Proof.
  unfold isAlnum, inRange, backtick. intros H.
  apply N.eqb_neq. intros ->. vm_compute in H. discriminate.
Qed.

Lemma isAlnum_not_whitespace (c : N) : isAlnum c = true -> isWhiteSpace c = false.
Proof.
  unfold isAlnum, isWhiteSpace, inRange. intros H.
  repeat rewrite orb_true_iff in H. repeat rewrite andb_true_iff in H.
  repeat rewrite N.leb_le in H.
  repeat (apply orb_false_iff; split);
    try (apply andb_false_iff; rewrite !N.leb_gt; lia);
    try (apply N.eqb_neq; lia).
Qed.

Lemma takeWhile_firstn {A} (p : A -> bool) (l : list A) (j : nat) :
  j <= length (takeWhile p l) ->
  forallb p (firstn j l) = true /\ length (firstn j l) = j.
Proof.
  revert j. induction l as [|x l IH]; intros j H.
  - cbn in H. assert (j = 0) by lia. subst. split; reflexivity.
  - destruct j as [|j]; [split; reflexivity|].
    cbn [takeWhile] in H. destruct (p x) eqn:E; cbn [length] in H; [|lia].
    destruct (IH j) as [H1 H2]; [lia|].
    cbn [firstn forallb length]. rewrite E, H1, H2. split; reflexivity.
Qed.

Lemma closeBacktick_spec (k : nat) (rest m : str) :
  closeBacktick k rest = Some m ->
  exists j, 4 <= j <= k /\ m = backtick :: firstn j rest ++ [backtick].
Proof.
  induction k as [|k IH]; intros H.
  - cbn in H. discriminate.
  - cbn [closeBacktick] in H.
    destruct (S k <? 4) eqn:E; [discriminate|].
    apply Nat.ltb_ge in E.
    assert (Hrec : closeBacktick k rest = Some m ->
                   exists j, 4 <= j <= S k /\
                             m = backtick :: firstn j rest ++ [backtick]).
    { intros H'. destruct (IH H') as [j [Hj ->]]. exists j. split; [lia|reflexivity]. }
    destruct (nth_error rest (S k)) as [c|]; [|auto].
    destruct (N.eqb c backtick); [|auto].
    injection H as <-. exists (S k). split; [lia|reflexivity].
Qed.

Lemma stripBackticks_quoted (c : str) :
  forallb isAlnum c = true ->
  stripBackticks (backtick :: c ++ [backtick]) = c.
Proof.
  intros H. unfold stripBackticks. cbn [filter].
  replace (N.eqb backtick backtick) with true by reflexivity. cbn [negb].
  rewrite filter_app. cbn [filter].
  replace (N.eqb backtick backtick) with true by reflexivity. cbn [negb].
  rewrite app_nil_r.
  induction c as [|x c IH]; [reflexivity|].
  cbn [forallb] in H. apply andb_true_iff in H as [Hx Hc].
  cbn [filter]. rewrite (isAlnum_not_backtick x Hx). cbn [negb].
  rewrite IH by exact Hc. reflexivity.
Qed.

Lemma matchBacktickAt_shape (s m : str) :
  matchBacktickAt s = Some m -> codeShaped (stripBackticks m) = true.
Proof.
  destruct s as [|c rest]; [discriminate|]. cbn [matchBacktickAt].
  destruct (N.eqb c backtick); [|discriminate].
  intros H. destruct (closeBacktick_spec _ _ _ H) as [j [Hj ->]].
  destruct (takeWhile_firstn isAlnum rest j) as [Ha Hl]; [lia|].
  rewrite stripBackticks_quoted by exact Ha.
  unfold codeShaped. rewrite Hl, Ha.
  replace (4 <=? j) with true by (symmetry; apply Nat.leb_le; lia).
  replace (j <=? 20) with true by (symmetry; apply Nat.leb_le; lia).
  reflexivity.
Qed.

Lemma scanBackticks_shape (s : str) (skip : nat) :
  Forall (fun m => codeShaped (stripBackticks m) = true) (scanBackticks skip s).
Proof.
  revert skip. induction s as [|c s IH]; intros skip; [constructor|].
  cbn [scanBackticks]. destruct skip as [|k]; [|apply IH].
  destruct (matchBacktickAt (c :: s)) as [m|] eqn:E; [|apply IH].
  constructor; [exact (matchBacktickAt_shape _ _ E)|apply IH].
Qed.

Lemma pass1_shape (lines : list str) :
  Forall (fun c => codeShaped c = true) (pass1 lines).
Proof.
  unfold pass1. induction lines as [|l lines IH]; [constructor|].
  cbn [flat_map]. apply Forall_app. split; [|exact IH].
  apply Forall_map. apply scanBackticks_shape.
Qed.

Lemma stripNonAlnum_alnum (s : str) : forallb isAlnum (stripNonAlnum s) = true.
Proof.
  unfold stripNonAlnum. induction s as [|c s IH]; [reflexivity|].
  cbn [filter]. destruct (isAlnum c) eqn:E; [|exact IH].
  cbn [forallb]. rewrite E, IH. reflexivity.
Qed.

Lemma pass2_step_inv (st : list str * option str) (line : str) :
  scanInv st -> scanInv (pass2_step st line).
Proof.
  destruct st as [codes url]. intros [Hc Hu]. cbn [fst snd] in Hc, Hu.
  unfold pass2_step.
  destruct (isUrlLine (trim line)).
  - destruct (startsWith (trim line) (lit "http")) eqn:E.
    + split; [exact Hc|exact E].
    + destruct (domainMatch (trim line)); split; auto; reflexivity.
  - destruct (negb (includes (trim line) [backtick]) && (length codes =? 0));
      [|split; assumption].
    destruct ((4 <=? length (stripNonAlnum (trim line)))
              && (length (stripNonAlnum (trim line)) <=? 20)) eqn:E;
      [|split; assumption].
    split; [|exact Hu]. cbn [fst]. apply Forall_app. split; [exact Hc|].
    constructor; [|constructor].
    unfold codeShaped. rewrite E, stripNonAlnum_alnum. reflexivity.
Qed.

Lemma pass2_inv (lines : list str) (st : list str * option str) :
  scanInv st -> scanInv (pass2 lines st).
Proof.
  unfold pass2. revert st. induction lines as [|l lines IH]; intros st H.
  - exact H.
  - cbn [fold_left]. apply IH, pass2_step_inv, H.
Qed.

Lemma scan_inv (txt : str) : scanInv (scan txt).
Proof.
  unfold scan. apply pass2_inv. split; [apply pass1_shape|exact I].
Qed.

Lemma dropWhile_head {A} (p : A -> bool) (l : list A) :
  match l with [] => True | x :: _ => p x = false end ->
  dropWhile p l = l.
Proof. destruct l as [|x l]; [reflexivity|]. cbn. intros ->. reflexivity. Qed.

Lemma trim_alnum (c : str) : forallb isAlnum c = true -> trim c = c.
Proof.
  intros H. unfold trim.
  assert (Hall : Forall (fun x => isWhiteSpace x = false) c).
  { apply Forall_forall. intros x Hx.
    apply isAlnum_not_whitespace.
    rewrite forallb_forall in H. apply H, Hx. }
  rewrite (dropWhile_head isWhiteSpace c).
  2:{ destruct c; [exact I|]. inversion Hall; assumption. }
  rewrite (dropWhile_head isWhiteSpace (rev c)).
  2:{ apply Forall_rev in Hall. destruct (rev c); [exact I|].
      inversion Hall; assumption. }
  apply rev_involutive.
Qed.

End CodeShape.

Section FreshExtraction.

Variables (oid : nat) (mid : Z) (cid cuser cname txt : str) (kws : list str)
  (date : Z).

Let fresh := newMessage oid mid cid cuser cname txt kws date.

Lemma truthy_http (u : str) :
  startsWith u (lit "http") = true -> truthy (Some u) = true.
Proof. destruct u; [discriminate|reflexivity]. Qed.

Lemma codeShaped_cons (c : str) :
  codeShaped c = true ->
  exists x s, c = x :: s /\ forallb isAlnum c = true /\ 4 <= length c <= 20.
Proof.
  unfold codeShaped. intros H.
  apply andb_true_iff in H as [H Ha]. apply andb_true_iff in H as [H4 H20].
  apply Nat.leb_le in H4, H20.
  destruct c as [|x s]; [cbn in H4; lia|].
  exists x, s. repeat split; assumption.
Qed.

Lemma extractData_fresh_cases :
  let r := extractData fresh in
  match scan txt with
  | (c :: cs, Some u) =>
      r = set_allBonusCodes (c :: cs)
            (set_hasBonus true (set_bonusCode (Some c)
               (set_hasWebsite true (set_websiteUrl (Some u) fresh))))
  | (c :: cs, None) =>
      r = set_allBonusCodes (c :: cs) fresh
  | ([], Some u) => r = set_hasWebsite true (set_websiteUrl (Some u) fresh)
  | ([], None) => r = fresh
  end.
Proof.
  cbv zeta. unfold extractData. cbn [text fresh newMessage].
  pose proof (scan_inv txt) as [_ Hu].
  destruct (scan txt) as [codes url]. cbn [snd] in Hu.
  destruct url as [u|].
  - pose proof (truthy_http u Hu) as Ht.
    destruct codes as [|c cs]; unfold setResults; rewrite Ht; reflexivity.
  - destruct codes as [|c cs]; reflexivity.
Qed.

End FreshExtraction.

(** What extraction writes to a fresh document is well formed: every
    candidate code is 4 to 20 alphanumerics; the primary code, when there
    is one, is such a code and is the first candidate; the URL, when there
    is one, starts with 'http'; and [hasWebsite] says whether there is
    one. *)
Theorem extracted_fields_are_well_formed (oid : nat) (mid : Z)
    (cid cuser cname txt : str) (kws : list str) (date : Z) :
  let r := extractData (newMessage oid mid cid cuser cname txt kws date) in
  Forall (fun c => codeShaped c = true) (allBonusCodes r)
  /\ (forall c, bonusCode r = Some c ->
        codeShaped c = true /\ hd_error (allBonusCodes r) = Some c)
  /\ (forall u, websiteUrl r = Some u -> startsWith u (lit "http") = true)
  /\ hasWebsite r = truthy (websiteUrl r).
Proof.
  intros r. subst r.
  pose proof (extractData_fresh_cases oid mid cid cuser cname txt kws date) as H.
  cbv zeta in H.
  pose proof (scan_inv txt) as [Hc Hu].
  destruct (scan txt) as [[|c cs] [u|]]; cbn [fst snd] in Hc, Hu; rewrite H;
    cbn [allBonusCodes bonusCode websiteUrl hasWebsite set_allBonusCodes
         set_hasBonus set_bonusCode set_hasWebsite set_websiteUrl newMessage];
    (split; [try exact Hc; constructor|]);
    (split; [intros c' Hc'; try discriminate|]);
    try (split; [intros u' Hu'; try discriminate|]).
  - injection Hu' as <-. exact Hu.
  - symmetry. exact (truthy_http u Hu).
  - reflexivity.
  - injection Hc' as <-. split; [inversion Hc; assumption|reflexivity].
  - injection Hu' as <-. exact Hu.
  - symmetry. exact (truthy_http u Hu).
  - reflexivity.
Qed.

Lemma shouldSendToGroups_fresh (oid : nat) (mid : Z)
    (cid cuser cname txt : str) (kws : list str) (date : Z) :
  let r := extractData (newMessage oid mid cid cuser cname txt kws date) in
  ScraperService.shouldSendToGroups r = hasBonus r.
Proof.
  intros r. subst r.
  pose proof (extractData_fresh_cases oid mid cid cuser cname txt kws date) as H.
  cbv zeta in H.
  pose proof (scan_inv txt) as [Hc Hu].
  destruct (scan txt) as [[|c cs] [u|]]; cbn [fst snd] in Hc, Hu; rewrite H;
    unfold ScraperService.shouldSendToGroups;
    cbn [allBonusCodes bonusCode websiteUrl hasWebsite hasBonus set_allBonusCodes
         set_hasBonus set_bonusCode set_hasWebsite set_websiteUrl newMessage
         negb orb];
    try reflexivity.
  inversion Hc as [|? ? Hc1 _]; subst.
  destruct (codeShaped_cons c Hc1) as [x [s [-> [Ha Hl]]]].
  destruct u as [|y u]; [discriminate|].
  cbn [truthy orElse negb orb]. rewrite (trim_alnum _ Ha).
  replace (length (x :: s) <? 4) with false
    by (symmetry; apply Nat.ltb_ge; lia).
  rewrite Hu. reflexivity.
Qed.

(** On a freshly extracted document the polling path's
    [shouldSendToGroups] is the flag [hasBonus]: its checks of the code's
    length and of the URL's scheme never reject what extraction produced.
    And [hasBonus] holds exactly when a candidate code and a URL were both
    found. *)
Theorem batch_policy_is_the_hasBonus_flag (oid : nat) (mid : Z)
    (cid cuser cname txt : str) (kws : list str) (date : Z) :
  let r := extractData (newMessage oid mid cid cuser cname txt kws date) in
  ScraperService.shouldSendToGroups r = hasBonus r
  /\ (hasBonus r = true <-> allBonusCodes r <> [] /\ websiteUrl r <> None).
Proof.
  intros r. subst r.
  split; [exact (shouldSendToGroups_fresh oid mid cid cuser cname txt kws date)|].
  pose proof (extractData_fresh_cases oid mid cid cuser cname txt kws date) as H.
  cbv zeta in H.
  destruct (scan txt) as [[|c cs] [u|]]; rewrite H;
    cbn [allBonusCodes websiteUrl hasBonus set_allBonusCodes set_hasBonus
         set_bonusCode set_hasWebsite set_websiteUrl newMessage];
    (split; [try discriminate|try (intros [H1 H2]; congruence)]);
    try (intros _; split; discriminate); try reflexivity.
Qed.

(** Extraction is idempotent: run again on the document it has written,
    it changes nothing. *)
Theorem extractData_is_idempotent (m : Message) :
  extractData (extractData m) = extractData m.
Proof.
  assert (Ht : text (extractData m) = text m).
  { unfold extractData, collapse, setResults.
    destruct (scan (text m)) as [codes url].
    destruct (truthy url), codes;
      repeat match goal with
             | |- context [if ?b then _ else _] => destruct b
             end; reflexivity. }
  unfold extractData at 1. rewrite Ht.
  unfold extractData, collapse, setResults.
  destruct (scan (text m)) as [codes url].
  destruct m as [i mi ci cu cn tx bc abc wu mk md pr hb hw].
  destruct (truthy url), codes, hb, hw; reflexivity.
Qed.

Section BlankAndRoundTrip.

Lemma dropWhile_all {A} (p : A -> bool) (l : list A) :
  forallb p l = true -> dropWhile p l = [].
Proof.
  induction l as [|x l IH]; [reflexivity|]. cbn. intros H.
  apply andb_true_iff in H as [-> H]. exact (IH H).
Qed.

Lemma trim_blank (s : str) : forallb isWhiteSpace s = true -> trim s = [].
Proof. intros H. unfold trim. rewrite (dropWhile_all _ _ H). reflexivity. Qed.

Lemma linesOf_blank (txt : str) :
  forallb isWhiteSpace txt = true -> linesOf txt = [].
Proof. intros H. unfold linesOf. rewrite (trim_blank _ H). reflexivity. Qed.

(** [trim] leaves a string alone whose first and last code units are not
    white space. *)
Lemma trim_id (s : str) :
  match s with [] => True | x :: _ => isWhiteSpace x = false end ->
  match rev s with [] => True | x :: _ => isWhiteSpace x = false end ->
  trim s = s.
Proof.
  intros H1 H2. unfold trim.
  rewrite (dropWhile_head _ s H1), (dropWhile_head _ (rev s) H2).
  apply rev_involutive.
Qed.

Lemma trim_quoted_like (s : str) :
  trim (backtick :: s ++ [backtick]) = backtick :: s ++ [backtick].
Proof.
  apply trim_id; [reflexivity|].
  change (backtick :: s ++ [backtick]) with ((backtick :: s) ++ [backtick]).
  rewrite rev_app_distr. reflexivity.
Qed.

Lemma split_no_sep (a : str) :
  forallb (fun c => negb (N.eqb c newline)) a = true -> split newline a = [a].
Proof.
  induction a as [|c a IH]; [reflexivity|]. cbn [forallb split]. intros H.
  apply andb_true_iff in H as [Hc Ha]. apply negb_true_iff in Hc.
  rewrite Hc, (IH Ha). reflexivity.
Qed.

Lemma split_app_sep (a b : str) :
  forallb (fun c => negb (N.eqb c newline)) a = true ->
  split newline (a ++ newline :: b) = a :: split newline b.
Proof.
  induction a as [|c a IH]; intros H.
  - reflexivity.
  - cbn [forallb] in H. apply andb_true_iff in H as [Hc Ha].
    apply negb_true_iff in Hc.
    cbn [app split]. rewrite Hc, (IH Ha). reflexivity.
Qed.

Lemma split_join (ls : list str) :
  ls <> [] ->
  Forall (fun l => forallb (fun c => negb (N.eqb c newline)) l = true) ls ->
  split newline (join [newline] ls) = ls.
Proof.
  induction ls as [|l ls IH]; [congruence|]. intros _ H.
  inversion H as [|? ? Hl Hls]; subst.
  destruct ls as [|l' ls].
  - cbn [join]. apply split_no_sep, Hl.
  - change (join [newline] (l :: l' :: ls))
      with (l ++ newline :: join [newline] (l' :: ls)).
    rewrite (split_app_sep _ _ Hl), IH; [reflexivity|discriminate|exact Hls].
Qed.

Lemma alnum_no_newline (c : str) :
  forallb isAlnum c = true ->
  forallb (fun x => negb (N.eqb x newline)) (MessageSender.quoted c) = true.
Proof.
  intros H. unfold MessageSender.quoted. cbn [forallb].
  replace (N.eqb backtick newline) with false by reflexivity. cbn [negb andb].
  rewrite forallb_app. cbn [forallb].
  replace (N.eqb backtick newline) with false by reflexivity. cbn [negb andb].
  rewrite andb_true_r. rewrite forallb_forall in *. intros x Hx.
  specialize (H x Hx). apply negb_true_iff, N.eqb_neq. intros ->.
  vm_compute in H. discriminate.
Qed.

Lemma join_quoted_ends (c : str) (cs : list str) :
  exists s, join [newline] (map MessageSender.quoted (c :: cs))
            = backtick :: s ++ [backtick].
Proof.
  revert c. induction cs as [|c' cs IH]; intros c.
  - exists c. reflexivity.
  - destruct (IH c') as [s Hs].
    change (join [newline] (map MessageSender.quoted (c :: c' :: cs)))
      with (MessageSender.quoted c ++ newline ::
            join [newline] (map MessageSender.quoted (c' :: cs))).
    rewrite Hs. unfold MessageSender.quoted.
    exists (c ++ [backtick] ++ newline :: backtick :: s).
    cbn [app]. rewrite <- !app_assoc. reflexivity.
Qed.

Lemma takeWhile_app_stop {A} (p : A -> bool) (l : list A) (x : A) (r : list A) :
  forallb p l = true -> p x = false -> takeWhile p (l ++ x :: r) = l.
Proof.
  induction l as [|y l IH]; cbn [forallb app takeWhile]; intros H Hx.
  - rewrite Hx. reflexivity.
  - apply andb_true_iff in H as [-> H]. rewrite (IH H Hx). reflexivity.
Qed.

Lemma closeBacktick_hit (k : nat) (rest : str) :
  4 <= k -> nth_error rest k = Some backtick ->
  closeBacktick k rest = Some (backtick :: firstn k rest ++ [backtick]).
Proof.
  intros Hk Hn. destruct k as [|k]; [lia|]. cbn [closeBacktick].
  replace (S k <? 4) with false by (symmetry; apply Nat.ltb_ge; lia).
  rewrite Hn. reflexivity.
Qed.

Lemma scanBackticks_skip_all (s : str) (skip : nat) :
  length s <= skip -> scanBackticks skip s = [].
Proof.
  revert skip. induction s as [|c s IH]; intros skip H; [reflexivity|].
  cbn [length] in H. destruct skip as [|k]; [lia|].
  cbn [scanBackticks]. apply IH. lia.
Qed.

Lemma backtickMatches_quoted (c : str) :
  codeShaped c = true ->
  backtickMatches (MessageSender.quoted c) = [MessageSender.quoted c].
Proof.
  intros H. destruct (codeShaped_cons c H) as [x [s [E [Ha Hl]]]].
  unfold backtickMatches, MessageSender.quoted.
  cbn [scanBackticks matchBacktickAt].
  replace (N.eqb backtick backtick) with true by reflexivity.
  rewrite (takeWhile_app_stop isAlnum c backtick [] Ha eq_refl).
  rewrite (Nat.min_r 20 (length c)) by lia.
  rewrite closeBacktick_hit; [|lia|].
  2:{ rewrite nth_error_app2 by lia. rewrite Nat.sub_diag. reflexivity. }
  rewrite firstn_app, Nat.sub_diag, firstn_all. cbn [firstn]. rewrite app_nil_r.
  rewrite scanBackticks_skip_all; [reflexivity|].
  cbn [length]. rewrite !length_app. cbn [length]. lia.
Qed.

Lemma pass1_quoted (codes : list str) :
  Forall (fun c => codeShaped c = true) codes ->
  pass1 (map MessageSender.quoted codes) = codes.
Proof.
  unfold pass1. induction 1 as [|c cs Hc _ IH]; [reflexivity|].
  cbn [map flat_map]. rewrite IH.
  unfold MessageSender.quoted at 1. rewrite trim_quoted_like.
  fold (MessageSender.quoted c). rewrite (backtickMatches_quoted c Hc).
  destruct (codeShaped_cons c Hc) as [x [s [E [Ha Hl]]]].
  cbn [map app]. unfold MessageSender.quoted.
  rewrite (stripBackticks_quoted c Ha). reflexivity.
Qed.

End BlankAndRoundTrip.

(** A text of white space alone yields nothing: the fresh document comes
    back as it was, with no code, no URL and both flags [false]. *)
Theorem blank_text_yields_nothing (oid : nat) (mid : Z)
    (cid cuser cname txt : str) (kws : list str) (date : Z) :
  forallb isWhiteSpace txt = true ->
  extractData (newMessage oid mid cid cuser cname txt kws date)
  = newMessage oid mid cid cuser cname txt kws date.
Proof.
  intros H. unfold extractData, scan. cbn [text newMessage].
  rewrite (linesOf_blank txt H). reflexivity.
Qed.

Lemma blank_text_yields_nothing_witness :
  let txt := lit "  " ++ [newline; 9%N; 160%N] in
  extractData (newMessage 0 1 (lit "100") (lit "chan") (lit "Chan") txt [] 0)
  = newMessage 0 1 (lit "100") (lit "chan") (lit "Chan") txt [] 0.
Proof.
  apply (blank_text_yields_nothing 0 1 (lit "100") (lit "chan") (lit "Chan")
           (lit "  " ++ [newline; 9%N; 160%N]) [] 0).
  reflexivity.
Defined.

(** The text that [formatMessage] substitutes for [{allBonusCodes}], each
    code between backticks on a line of its own, is read back by extraction
    as the same list of codes, in the same order. *)
Theorem rendered_codes_are_extracted_again (messageDoc : Message) :
  0 < length (allBonusCodes messageDoc) ->
  forallb codeShaped (allBonusCodes messageDoc) = true ->
  fst (scan (MessageSender.allBonusCodesText messageDoc))
  = allBonusCodes messageDoc.
Proof.
  intros Hne Hc. unfold MessageSender.allBonusCodesText.
  destruct (allBonusCodes messageDoc) as [|c cs] eqn:E; [cbn in Hne; lia|].
  assert (Hc' : Forall (fun c => codeShaped c = true) (c :: cs)).
  { apply Forall_forall. rewrite forallb_forall in Hc. exact Hc. }
  clear Hc. rename Hc' into Hc.
  assert (Hl : linesOf (join [newline] (map MessageSender.quoted (c :: cs)))
               = map MessageSender.quoted (c :: cs)).
  { unfold linesOf.
    destruct (join_quoted_ends c cs) as [s Hs]. rewrite Hs, trim_quoted_like.
    rewrite <- Hs. rewrite split_join.
    - apply forallb_filter_id. apply forallb_forall. intros l Hl.
      apply in_map_iff in Hl as [c' [<- _]].
      unfold MessageSender.quoted. rewrite trim_quoted_like. reflexivity.
    - discriminate.
    - apply Forall_map. apply Forall_forall. intros c' Hc'.
      rewrite Forall_forall in Hc. specialize (Hc c' Hc').
      destruct (codeShaped_cons c' Hc) as [x [s' [_ [Ha _]]]].
      apply alnum_no_newline, Ha. }
  apply scan_codes_of_pass1. rewrite Hl. apply (pass1_quoted (c :: cs) Hc).
Qed.

Lemma rendered_codes_are_extracted_again_witness :
  let d := set_allBonusCodes [lit "ABCD1234"; lit "wxyz"]
             (newMessage 0 1 (lit "100") (lit "chan") (lit "Chan") [] [] 0) in
  fst (scan (MessageSender.allBonusCodesText d)) = allBonusCodes d.
Proof.
  apply (rendered_codes_are_extracted_again
           (set_allBonusCodes [lit "ABCD1234"; lit "wxyz"]
              (newMessage 0 1 (lit "100") (lit "chan") (lit "Chan") [] [] 0))).
  - cbn. lia.
  - reflexivity.
Defined.

(** ** The delivery queue: fan-out and drains *)

Section FanOut.

Variable cfg : Config.

Lemma sameButQueue_refl (w : World) : sameButQueue w w.
Proof. repeat split. Qed.

Lemma forEach_push (doc : Message) (l : list GroupData) (w : World) :
  let r := forEach l
             (fun g =>
                now <- gets clock ;;
                MessageSender.push
                  (mkQueueItem g
                     (MessageSender.formatMessage cfg doc (gd_config g)) doc now))
             w in
  fst r = Returned tt
  /\ sendQueue (sender (snd r))
     = sendQueue (sender w) ++ map (jobFor cfg doc (clock w)) l
  /\ sameButQueue w (snd r).
Proof.
  revert w. induction l as [|g l IH]; intros w.
  - cbn. rewrite app_nil_r. repeat split.
  - set (w1 := snd (MessageSender.push (jobFor cfg doc (clock w) g) w)).
    assert (E : forEach (g :: l)
                  (fun g =>
                     now <- gets clock ;;
                     MessageSender.push
                       (mkQueueItem g
                          (MessageSender.formatMessage cfg doc (gd_config g))
                          doc now)) w
                = forEach l
                    (fun g =>
                       now <- gets clock ;;
                       MessageSender.push
                         (mkQueueItem g
                            (MessageSender.formatMessage cfg doc (gd_config g))
                            doc now)) w1) by reflexivity.
    rewrite E. destruct (IH w1) as [H1 [H2 H3]].
    cbv zeta in H1, H2, H3. split; [exact H1|]. split.
    + rewrite H2. cbn. rewrite <- app_assoc. reflexivity.
    + unfold sameButQueue in *. cbn in H3. exact H3.
Qed.

End FanOut.

(** The method, with its case analysis on the active groups made. *)
Lemma sendToTargetGroups_unfold (cfg : Config) (messageDoc : Message)
    (w : World) :
  MessageSender.sendToTargetGroups cfg messageDoc w
  = match activeGroups w with
    | [] => (Returned tt, w)
    | _ :: _ =>
        try_catch
          (forEach (activeGroups w)
             (fun g =>
                now <- gets clock ;;
                MessageSender.push
                  (mkQueueItem g
                     (MessageSender.formatMessage cfg messageDoc (gd_config g))
                     messageDoc now)))
          (fun _ => ret tt) w
    end.
Proof.
  unfold MessageSender.sendToTargetGroups, activeGroups.
  unfold try_catch at 1. unfold bind at 1. unfold gets at 1.
  destruct (filter (fun g => g_active (gd_config g))
              (map snd (groupEntities (sender w)))); reflexivity.
Qed.

Lemma sendToTargetGroups_effect (cfg : Config) (messageDoc : Message)
    (w : World) :
  let r := MessageSender.sendToTargetGroups cfg messageDoc w in
  fst r = Returned tt
  /\ sendQueue (sender (snd r))
     = sendQueue (sender w)
       ++ map (jobFor cfg messageDoc (clock w)) (activeGroups w)
  /\ sameButQueue w (snd r).
Proof.
  intros r. subst r. rewrite sendToTargetGroups_unfold.
  pose proof (forEach_push cfg messageDoc (activeGroups w) w) as [H1 [H2 H3]].
  cbv zeta in H1, H2, H3.
  destruct (activeGroups w) as [|g l].
  - cbn [fst snd map]. rewrite app_nil_r.
    split; [reflexivity|]. split; [reflexivity|apply sameButQueue_refl].
  - unfold try_catch.
    destruct (forEach (g :: l) _ w) as [[u|e] w']; cbn [fst snd] in *;
      [|discriminate].
    destruct u. split; [reflexivity|]. split; assumption.
Qed.

(** [sendToTargetGroups] never throws; it appends to the queue one job per
    active group that has an entity, in the order of the map, each with the
    message formatted for that group and the time of the call, and it
    touches nothing else: no store access, no network call. With no such
    group the world is left as it is. *)
Theorem one_job_per_active_group (cfg : Config) (messageDoc : Message)
    (w : World) :
  let r := MessageSender.sendToTargetGroups cfg messageDoc w in
  fst r = Returned tt
  /\ sendQueue (sender (snd r))
     = sendQueue (sender w)
       ++ map (jobFor cfg messageDoc (clock w)) (activeGroups w)
  /\ length (sendQueue (sender (snd r)))
     = length (sendQueue (sender w)) + length (activeGroups w)
  /\ sameButQueue w (snd r)
  /\ (activeGroups w = [] -> r = (Returned tt, w)).
Proof.
  intros r.
  destruct (sendToTargetGroups_effect cfg messageDoc w) as [H1 [H2 H3]].
  fold r in H1, H2, H3.
  split; [exact H1|]. split; [exact H2|].
  split; [rewrite H2, length_app, length_map; reflexivity|].
  split; [exact H3|].
  intros Hnone. subst r. rewrite sendToTargetGroups_unfold, Hnone.
  reflexivity.
Qed.

Section Drain.

Variable cfg : Config.

Lemma sends_app (a b : list Event) : sends (a ++ b) = sends a ++ sends b.
Proof.
  induction a as [|e a IH]; [reflexivity|].
  destruct e; cbn [app sends]; rewrite IH; reflexivity.
Qed.

Lemma sendOrRequeue_healthy (j : QueueItem) (w : World) :
  healthy w ->
  let r := MessageSender.sendOrRequeue cfg j w in
  fst r = Returned tt
  /\ healthy (snd r)
  /\ sends (trace (snd r)) = sends (trace w) ++ [delivered j]
  /\ sendQueue (sender (snd r)) = sendQueue (sender w)
  /\ sentCount (sender (snd r)) = S (sentCount (sender w))
  /\ isProcessingQueue (sender (snd r)) = isProcessingQueue (sender w)
  /\ store (snd r) = Store.markProcessed (_id (originalMessage j)) (store w).
Proof.
  intros [Hc [Hm [Hs Hf]]].
  destruct w as [st no nt ck ts ntm cl sd ls sc tr].
  destruct cl as [made conn rc mr]. destruct nt as [sf so co fo ge].
  cbn in Hc, Hm, Hs, Hf. subst.
  unfold MessageSender.sendOrRequeue, MessageSender.sendSingleMessage,
    TelegramClient.isClientConnected, TelegramClient.sendMessage,
    Store.saveProcessed, Store.call, try_catch, bind, gets, modify, ret, sleep,
    healthy, delivered.
  cbn. destruct (sendDelay cfg >? 0)%Z; cbn; rewrite ?sends_app; cbn;
    rewrite ?app_nil_r; repeat split.
Qed.

Lemma forEach_healthy (batch : list QueueItem) (w : World) :
  healthy w ->
  let r := forEach batch (MessageSender.sendOrRequeue cfg) w in
  fst r = Returned tt
  /\ healthy (snd r)
  /\ sends (trace (snd r)) = sends (trace w) ++ map delivered batch
  /\ sendQueue (sender (snd r)) = sendQueue (sender w)
  /\ sentCount (sender (snd r)) = sentCount (sender w) + length batch
  /\ isProcessingQueue (sender (snd r)) = isProcessingQueue (sender w)
  /\ store (snd r) = markAll batch (store w).
Proof.
  revert w. induction batch as [|j batch IH]; intros w Hw.
  - cbn. rewrite app_nil_r, Nat.add_0_r. repeat split; apply Hw.
  - pose proof (sendOrRequeue_healthy j w Hw) as H. cbv zeta in H.
    assert (E : forEach (j :: batch) (MessageSender.sendOrRequeue cfg) w
                = match MessageSender.sendOrRequeue cfg j w with
                  | (Returned _, w') =>
                      forEach batch (MessageSender.sendOrRequeue cfg) w'
                  | (Threw e, w') => (Threw e, w')
                  end) by reflexivity.
    rewrite E. clear E.
    destruct (MessageSender.sendOrRequeue cfg j w) as [[u|e] w1];
      cbn [fst snd] in H; destruct H as [H1 [H2 [H3 [H4 [H5 [H6 H7]]]]]];
      [|discriminate].
    cbv beta iota zeta.
    specialize (IH w1 H2). cbv zeta in IH.
    destruct IH as [I1 [I2 [I3 [I4 [I5 [I6 I7]]]]]].
    split; [exact I1|]. split; [exact I2|].
    split; [rewrite I3, H3; cbn [map]; rewrite <- app_assoc; reflexivity|].
    split; [congruence|]. split; [rewrite I5, H5; cbn [length]; lia|].
    split; [congruence|]. rewrite I7, H7. reflexivity.
Qed.

Lemma processQueue_unfold (w : World) :
  MessageSender.processQueue cfg w
  = match sendQueue (sender w) with
    | [] => (Returned tt, w)
    | j :: q =>
        let n := Z.to_nat (batchSize cfg) in
        match forEach (firstn n (j :: q)) (MessageSender.sendOrRequeue cfg)
                (with_sender (MessageSender.set_sendQueue (skipn n (j :: q)))
                   (with_sender (MessageSender.set_isProcessingQueue true) w))
        with
        | (Returned a, w3) =>
            (Returned a,
             with_sender (MessageSender.set_isProcessingQueue false) w3)
        | (Threw _, w3) =>
            (Returned tt,
             with_sender (MessageSender.set_isProcessingQueue false) w3)
        end
    end.
Proof.
  unfold MessageSender.processQueue. unfold bind at 1. unfold gets at 1.
  destruct (sendQueue (sender w)) as [|j q] eqn:Eq; [reflexivity|].
  unfold bind at 1. unfold modify at 1. unfold finally, try_catch.
  unfold bind at 1. unfold gets at 1. unfold bind at 1. unfold modify at 1.
  cbn [sender with_sender sendQueue MessageSender.set_isProcessingQueue].
  rewrite Eq. cbv zeta.
  destruct (forEach _ _ _) as [[a|e] w3]; reflexivity.
Qed.

End Drain.

Section DrainTrace.

Variable cfg : Config.

Lemma sendOrRequeue_trace (j : QueueItem) (w : World) :
  healthy w ->
  trace (snd (MessageSender.sendOrRequeue cfg j w))
  = trace w ++ deliveryOf cfg j.
Proof.
  intros [Hc [Hm [Hs Hf]]].
  destruct w as [st no nt ck ts ntm cl sd ls sc tr].
  destruct cl as [made conn rc mr]. destruct nt as [sf so co fo ge ar].
  cbn in Hc, Hm, Hs, Hf. subst.
  unfold MessageSender.sendOrRequeue, MessageSender.sendSingleMessage,
    TelegramClient.isClientConnected, TelegramClient.sendMessage,
    Store.saveProcessed, Store.call, try_catch, bind, gets, modify, ret, sleep,
    deliveryOf.
  cbn. destruct (sendDelay cfg >? 0)%Z; cbn; rewrite <- ?app_assoc;
    reflexivity.
Qed.

Lemma forEach_trace (batch : list QueueItem) (w : World) :
  healthy w ->
  trace (snd (forEach batch (MessageSender.sendOrRequeue cfg) w))
  = trace w ++ flat_map (deliveryOf cfg) batch.
Proof.
  revert w. induction batch as [|j batch IH]; intros w Hw.
  - cbn. rewrite app_nil_r. reflexivity.
  - pose proof (sendOrRequeue_healthy cfg j w Hw) as H. cbv zeta in H.
    pose proof (sendOrRequeue_trace j w Hw) as Ht.
    assert (E : forEach (j :: batch) (MessageSender.sendOrRequeue cfg) w
                = match MessageSender.sendOrRequeue cfg j w with
                  | (Returned _, w') =>
                      forEach batch (MessageSender.sendOrRequeue cfg) w'
                  | (Threw e, w') => (Threw e, w')
                  end) by reflexivity.
    rewrite E. clear E.
    destruct (MessageSender.sendOrRequeue cfg j w) as [[u|e] w1];
      cbn [fst snd] in H, Ht; destruct H as [H1 [H2 _]]; [|discriminate].
    rewrite (IH w1 H2), Ht. cbn [flat_map]. rewrite <- app_assoc. reflexivity.
Qed.

End DrainTrace.

(** With the client connected and every call answered with success, a
    drain of the queue delivers the first [batchSize] jobs in queue order:
    the calls it makes are, job after job of the batch, [sendMessage] for
    the group of the job with the text of the job and then the pause. It
    leaves the rest of the queue as it was, counts each delivery and marks
    each delivered document as processed. *)
Theorem healthy_drain_is_fifo (cfg : Config) (w : World) :
  healthy w ->
  let batch := firstn (Z.to_nat (batchSize cfg)) (sendQueue (sender w)) in
  let r := MessageSender.processQueue cfg w in
  fst r = Returned tt
  /\ trace (snd r) = trace w ++ flat_map (deliveryOf cfg) batch
  /\ sends (trace (snd r)) = sends (trace w) ++ map delivered batch
  /\ sendQueue (sender (snd r))
     = skipn (Z.to_nat (batchSize cfg)) (sendQueue (sender w))
  /\ sentCount (sender (snd r)) = sentCount (sender w) + length batch
  /\ store (snd r) = markAll batch (store w).
Proof.
  intros Hw batch r. subst batch r.
  rewrite processQueue_unfold.
  destruct (sendQueue (sender w)) as [|j q] eqn:Eq.
  - rewrite firstn_nil, skipn_nil. cbn. rewrite !app_nil_r, Nat.add_0_r.
    repeat split. exact Eq.
  - cbv zeta. set (n := Z.to_nat (batchSize cfg)).
    set (w2 := with_sender (MessageSender.set_sendQueue (skipn n (j :: q)))
                 (with_sender (MessageSender.set_isProcessingQueue true) w)).
    assert (H2 : healthy w2) by (subst w2; exact Hw).
    pose proof (forEach_healthy cfg (firstn n (j :: q)) w2 H2) as H.
    pose proof (forEach_trace cfg (firstn n (j :: q)) w2 H2) as Ht.
    cbv zeta in H.
    destruct (forEach (firstn n (j :: q)) (MessageSender.sendOrRequeue cfg) w2)
      as [[u|e] w3]; cbn [fst snd] in H, Ht;
      destruct H as [H1 [_ [H3 [H4 [H5 [_ H7]]]]]]; [|discriminate].
    cbn [fst snd]. split; [destruct u; reflexivity|].
    split; [exact Ht|].
    split; [exact H3|]. split; [cbn; exact H4|]. split; [cbn; exact H5|].
    exact H7.
Qed.

Lemma healthy_drain_is_fifo_witness :
  let r := MessageSender.processQueue Fixture.cfg DrainFixture.queued in
  fst r = Returned tt
  /\ trace (snd r) = [EvSend (lit "A") (lit "first") true;
                      EvSend (lit "A") (lit "second") true;
                      EvSend (lit "B") (lit "third") true]
  /\ sends (trace (snd r)) = [(lit "A", true); (lit "A", true); (lit "B", true)]
  /\ sendQueue (sender (snd r)) = [DrainFixture.jobWith "D" "fourth" 4]
  /\ sentCount (sender (snd r)) = 3
  /\ store (snd r) = [].
Proof.
  apply (healthy_drain_is_fifo Fixture.cfg DrainFixture.queued).
  repeat split.
Defined.

#[export] Instance quiet_Frame : Frame quiet.
Proof.
  split.
  - intros w. split; reflexivity.
  - intros a b c [H1 H2] [H3 H4]. split; congruence.
Qed.

Section DrainBounds.

Variable cfg : Config.

Ltac quiet_side :=
  intros; split; cbn; rewrite ?sends_app; cbn; rewrite ?app_nil_r; reflexivity.

Lemma connect_quiet : preserves quiet TelegramClient.connect.
Proof.
  unfold TelegramClient.connect, TelegramClient.handleConnectionError,
    TelegramClient.isClientConnected.
  repeat first
    [ with_frame preserves_modify; quiet_side
    | match goal with
      | |- preserves _ TelegramClient.transportConnect =>
          intros w; unfold TelegramClient.transportConnect;
          destruct (connectOutcomes (net w)) as [|[e|] rest]; quiet_side
      end
    | preserves_step ].
Qed.

Lemma saveProcessed_quiet (oid : nat) : preserves quiet (Store.saveProcessed oid).
Proof.
  intros w. unfold Store.saveProcessed, Store.call, modify.
  destruct (storeFaults (net w)) as [|[e|] rest]; quiet_side.
Qed.

Lemma sendMessage_oneSend (g : GroupData) (msg : str) (w : World) :
  oneSend w (snd (TelegramClient.sendMessage g msg w)).
Proof.
  unfold TelegramClient.sendMessage, bind, gets, throw.
  destruct (clientMade (client w)); [|split; cbn; [reflexivity|lia]].
  destruct (sendOutcomes (net w)) as [|[e|] rest]; split; cbn;
    rewrite ?sends_app, ?length_app; cbn; try reflexivity; lia.
Qed.

Lemma sendSingleMessage_oneSend (j : QueueItem) (w : World) :
  oneSend w (snd (MessageSender.sendSingleMessage j w)).
Proof.
  unfold MessageSender.sendSingleMessage, try_catch.
  set (body := (c <- TelegramClient.isClientConnected ;; _)).
  assert (H : oneSend w (snd (body w))).
  { subst body. unfold bind at 1. unfold TelegramClient.isClientConnected at 1.
    unfold gets at 1. unfold bind at 1.
    assert (H1 : quiet w (snd ((if isConnected (client w) then ret tt
                                else TelegramClient.connect) w))).
    { destruct (isConnected (client w)); [apply frame_refl|apply connect_quiet]. }
    destruct ((if isConnected (client w) then ret tt
               else TelegramClient.connect) w) as [[u|e] w1]; cbn [snd] in H1.
    - unfold bind at 1.
      pose proof (sendMessage_oneSend (groupData j) (q_message j) w1) as H2.
      destruct (TelegramClient.sendMessage (groupData j) (q_message j) w1)
        as [[u2|e2] w2]; cbn [snd] in H2.
      + pose proof (saveProcessed_quiet (_id (originalMessage j)) w2) as H3.
        destruct H1 as [A1 A2], H2 as [B1 B2], H3 as [C1 C2].
        split; [congruence|]. rewrite C2. rewrite A2 in B2. exact B2.
      + cbn [snd]. destruct H1 as [A1 A2], H2 as [B1 B2].
        split; [congruence|]. rewrite A2 in B2. exact B2.
    - cbn [snd]. destruct H1 as [A1 A2]. split; [exact A1|]. rewrite A2. lia. }
  destruct (body w) as [[u|e] w1]; exact H.
Qed.

Lemma sendOrRequeue_unfold (j : QueueItem) (w : World) :
  MessageSender.sendOrRequeue cfg j w
  = match MessageSender.sendSingleMessage j w with
    | (Returned _, w1) =>
        (if (sendDelay cfg >? 0)%Z then sleep (sendDelay cfg) else ret tt)
          (with_sender
             (fun s => MessageSender.set_sentCount (S (sentCount s)) s) w1)
    | (Threw e, w1) =>
        if includes (message e) (lit "FLOOD_WAIT")
        then sleep (times (MessageSender.extractFloodWaitTime (message e)) 1000)
               (with_sender
                  (fun s => MessageSender.set_sendQueue (j :: sendQueue s) s) w1)
        else (Returned tt, w1)
    end.
Proof.
  unfold MessageSender.sendOrRequeue, try_catch. unfold bind at 1.
  destruct (MessageSender.sendSingleMessage j w) as [[u|e] w1].
  - unfold bind, modify. destruct (sendDelay cfg >? 0)%Z; reflexivity.
  - destruct (includes (message e) (lit "FLOOD_WAIT")); reflexivity.
Qed.

Lemma sendOrRequeue_effect (j : QueueItem) (w : World) :
  let r := MessageSender.sendOrRequeue cfg j w in
  fst r = Returned tt /\ jobSteps 1 w (snd r).
Proof.
  cbv zeta. rewrite sendOrRequeue_unfold.
  pose proof (sendSingleMessage_oneSend j w) as [H1 H2].
  destruct (MessageSender.sendSingleMessage j w) as [[u|e] w1];
    cbn [snd] in H1, H2.
  - unfold jobSteps, ret, sleep, modify.
    destruct (sendDelay cfg >? 0)%Z; cbn; rewrite ?sends_app; cbn;
      rewrite ?app_nil_r, H1; cbn; repeat split; lia.
  - destruct (includes (message e) (lit "FLOOD_WAIT")).
    + unfold jobSteps, sleep, modify. cbn.
      rewrite sends_app. cbn. rewrite app_nil_r, H1.
      cbn; repeat split; lia.
    + unfold jobSteps. cbn. rewrite H1. repeat split; lia.
Qed.

Lemma jobSteps_trans (a b : nat) (w1 w2 w3 : World) :
  jobSteps a w1 w2 -> jobSteps b w2 w3 -> jobSteps (a + b) w1 w3.
Proof.
  unfold jobSteps. intros [A1 [A2 [A3 [A4 [A5 A6]]]]] [B1 [B2 [B3 [B4 [B5 B6]]]]].
  repeat split; try lia; congruence.
Qed.

Lemma forEach_effect (batch : list QueueItem) (w : World) :
  let r := forEach batch (MessageSender.sendOrRequeue cfg) w in
  fst r = Returned tt /\ jobSteps (length batch) w (snd r).
Proof.
  revert w. induction batch as [|j batch IH]; intros w.
  - cbn. split; [reflexivity|]. unfold jobSteps. repeat split; lia.
  - assert (E : forEach (j :: batch) (MessageSender.sendOrRequeue cfg) w
                = match MessageSender.sendOrRequeue cfg j w with
                  | (Returned _, w') =>
                      forEach batch (MessageSender.sendOrRequeue cfg) w'
                  | (Threw e, w') => (Threw e, w')
                  end) by reflexivity.
    rewrite E. clear E.
    pose proof (sendOrRequeue_effect j w) as [H1 H2].
    destruct (MessageSender.sendOrRequeue cfg j w) as [[u|e] w1];
      cbn [fst snd] in H1, H2; [|discriminate].
    destruct (IH w1) as [I1 I2]. split; [exact I1|].
    exact (jobSteps_trans 1 (length batch) _ _ _ H2 I2).
Qed.

End DrainBounds.

(** Whatever the collaborators answer, [processQueue] returns; it calls
    [sendMessage] at most [batchSize] times; the count of sent messages
    never goes down; and no job is duplicated: what is counted as sent and
    what is queued afterwards together do not exceed what was queued
    before. *)
Theorem drain_is_bounded (cfg : Config) (w : World) :
  let r := MessageSender.processQueue cfg w in
  fst r = Returned tt
  /\ length (sends (trace (snd r)))
     <= length (sends (trace w)) + Z.to_nat (batchSize cfg)
  /\ sentCount (sender w) <= sentCount (sender (snd r))
  /\ sentCount (sender (snd r)) + length (sendQueue (sender (snd r)))
     <= sentCount (sender w) + length (sendQueue (sender w))
  /\ groupEntities (sender (snd r)) = groupEntities (sender w).
Proof.
  intros r. subst r. rewrite processQueue_unfold.
  destruct (sendQueue (sender w)) as [|j q] eqn:Eq.
  - cbn. rewrite Eq. repeat split; try reflexivity; lia.
  - cbv zeta. set (n := Z.to_nat (batchSize cfg)).
    set (w2 := with_sender (MessageSender.set_sendQueue (skipn n (j :: q)))
                 (with_sender (MessageSender.set_isProcessingQueue true) w)).
    pose proof (forEach_effect cfg (firstn n (j :: q)) w2) as [H1 H2].
    assert (Hl : length (firstn n (j :: q)) + length (skipn n (j :: q))
                 = length (j :: q)).
    { rewrite <- length_app, firstn_skipn. reflexivity. }
    assert (Hn : length (firstn n (j :: q)) <= n) by apply firstn_le_length.
    destruct (forEach (firstn n (j :: q)) (MessageSender.sendOrRequeue cfg) w2)
      as [[u|e] w3]; cbn [fst snd] in H1, H2; [|discriminate].
    destruct H2 as [A1 [A2 [A3 [A4 [A5 A6]]]]]. subst w2.
    cbn [sender with_sender sendQueue sentCount isProcessingQueue
         groupEntities trace MessageSender.set_sendQueue
         MessageSender.set_isProcessingQueue] in A1, A2, A3, A4, A6.
    cbn [fst snd]. split; [destruct u; reflexivity|].
    cbn [sender with_sender sendQueue sentCount isProcessingQueue
         groupEntities trace MessageSender.set_sendQueue
         MessageSender.set_isProcessingQueue].
    repeat split; try lia. exact A6.
Qed.

Section Outage.

Variable cfg : Config.

Lemma sendOrRequeue_rejected (j : QueueItem) (e : Error)
    (rest : list (option Error)) (w : World) :
  isConnected (client w) = true -> clientMade (client w) = true ->
  sendOutcomes (net w) = Some e :: rest ->
  notFloodWait e = true ->
  let r := MessageSender.sendOrRequeue cfg j w in
  fst r = Returned tt
  /\ isConnected (client (snd r)) = true /\ clientMade (client (snd r)) = true
  /\ sendOutcomes (net (snd r)) = rest
  /\ sends (trace (snd r)) = sends (trace w) ++ [rejected j]
  /\ sender (snd r) = sender w
  /\ store (snd r) = store w.
Proof.
  intros Hc Hm Hs Hf.
  destruct w as [st no nt ck ts ntm cl sd ls sc tr].
  destruct cl as [made conn rc mr]. destruct nt as [sf so co fo ge].
  cbn in Hc, Hm, Hs. subst.
  unfold notFloodWait in Hf. apply negb_true_iff in Hf.
  unfold MessageSender.sendOrRequeue, MessageSender.sendSingleMessage,
    TelegramClient.isClientConnected, TelegramClient.sendMessage,
    try_catch, bind, gets, modify, ret, throw, rejected.
  cbn -[includes lit]. rewrite Hf. cbn. rewrite sends_app. cbn.
  repeat split.
Qed.

Lemma forEach_rejected (batch : list QueueItem) (es : list Error)
    (rest : list (option Error)) (w : World) :
  isConnected (client w) = true -> clientMade (client w) = true ->
  sendOutcomes (net w) = map Some es ++ rest ->
  length es = length batch ->
  forallb notFloodWait es = true ->
  let r := forEach batch (MessageSender.sendOrRequeue cfg) w in
  fst r = Returned tt
  /\ sends (trace (snd r)) = sends (trace w) ++ map rejected batch
  /\ sender (snd r) = sender w
  /\ store (snd r) = store w.
Proof.
  revert es w. induction batch as [|j batch IH]; intros es w Hc Hm Hs Hl Hf.
  - cbn. rewrite app_nil_r. repeat split.
  - destruct es as [|e es]; [discriminate|].
    cbn [forallb] in Hf. apply andb_true_iff in Hf as [Hf1 Hf2].
    cbn [map app] in Hs. cbn [length] in Hl.
    pose proof (sendOrRequeue_rejected j e (map Some es ++ rest) w Hc Hm Hs Hf1)
      as H. cbv zeta in H.
    assert (E : forEach (j :: batch) (MessageSender.sendOrRequeue cfg) w
                = match MessageSender.sendOrRequeue cfg j w with
                  | (Returned _, w') =>
                      forEach batch (MessageSender.sendOrRequeue cfg) w'
                  | (Threw e, w') => (Threw e, w')
                  end) by reflexivity.
    rewrite E. clear E.
    destruct (MessageSender.sendOrRequeue cfg j w) as [[u|e'] w1];
      cbn [fst snd] in H; destruct H as [H1 [H2 [H3 [H4 [H5 [H6 H7]]]]]];
      [|discriminate].
    cbv beta iota zeta.
    destruct (IH es w1 H2 H3 H4 ltac:(lia) Hf2) as [I1 [I2 [I3 I4]]].
    split; [exact I1|].
    split; [rewrite I2, H5; cbn [map]; rewrite <- app_assoc; reflexivity|].
    split; congruence.
Qed.

End Outage.

(** A job whose send is rejected with an error other than a flood wait is
    dropped: when the sink rejects every send of a batch in this way, the
    drain returns with the batch gone from the queue, nothing counted as
    sent and no document marked. *)
Theorem rejected_batch_is_dropped (cfg : Config) (es : list Error)
    (rest : list (option Error)) (w : World) :
  isConnected (client w) = true -> clientMade (client w) = true ->
  sendOutcomes (net w) = map Some es ++ rest ->
  length es
  = length (firstn (Z.to_nat (batchSize cfg)) (sendQueue (sender w))) ->
  forallb notFloodWait es = true ->
  let batch := firstn (Z.to_nat (batchSize cfg)) (sendQueue (sender w)) in
  let r := MessageSender.processQueue cfg w in
  fst r = Returned tt
  /\ sends (trace (snd r)) = sends (trace w) ++ map rejected batch
  /\ sendQueue (sender (snd r))
     = skipn (Z.to_nat (batchSize cfg)) (sendQueue (sender w))
  /\ sentCount (sender (snd r)) = sentCount (sender w)
  /\ store (snd r) = store w.
Proof.
  intros Hc Hm Hs Hl Hf batch r. subst batch r.
  rewrite processQueue_unfold.
  destruct (sendQueue (sender w)) as [|j q] eqn:Eq.
  - rewrite firstn_nil, skipn_nil. cbn. rewrite app_nil_r.
    repeat split. exact Eq.
  - cbv zeta. set (n := Z.to_nat (batchSize cfg)) in *.
    set (w2 := with_sender (MessageSender.set_sendQueue (skipn n (j :: q)))
                 (with_sender (MessageSender.set_isProcessingQueue true) w)).
    pose proof (forEach_rejected cfg (firstn n (j :: q)) es rest w2 Hc Hm Hs
                  Hl Hf) as H.
    cbv zeta in H.
    destruct (forEach (firstn n (j :: q)) (MessageSender.sendOrRequeue cfg) w2)
      as [[u|e] w3]; cbn [fst snd] in H;
      destruct H as [H1 [H2 [H3 H4]]]; [|discriminate].
    cbn [fst snd]. split; [destruct u; reflexivity|].
    split; [exact H2|]. cbn. rewrite H3. subst w2. cbn.
    repeat split. exact H4.
Qed.

Lemma rejected_batch_is_dropped_witness :
  let outage := mkError None (lit "CHAT_WRITE_FORBIDDEN") in
  let w := with_net (set_sendOutcomes [Some outage; Some outage])
             (with_sender
                (MessageSender.set_sendQueue
                   [Fixture.job "A" 1; Fixture.job "B" 2])
                Fixture.world0) in
  let r := MessageSender.processQueue Fixture.cfg w in
  fst r = Returned tt
  /\ sends (trace (snd r)) = [(lit "A", false); (lit "B", false)]
  /\ sendQueue (sender (snd r)) = []
  /\ sentCount (sender (snd r)) = 0
  /\ store (snd r) = [].
Proof.
  apply (rejected_batch_is_dropped Fixture.cfg
           [mkError None (lit "CHAT_WRITE_FORBIDDEN");
            mkError None (lit "CHAT_WRITE_FORBIDDEN")] []
           (with_net
              (set_sendOutcomes
                 [Some (mkError None (lit "CHAT_WRITE_FORBIDDEN"));
                  Some (mkError None (lit "CHAT_WRITE_FORBIDDEN"))])
              (with_sender
                 (MessageSender.set_sendQueue
                    [Fixture.job "A" 1; Fixture.job "B" 2])
                 Fixture.world0)));
    reflexivity.
Defined.

(** ** The polling path: what 'bonus_sent' means, and at most once *)

Section PollPath.

Variable cfg : Config.

Lemma sameButNet_refl (w : World) : sameButNet w w.
Proof. repeat split. Qed.

Lemma sameButNet_with_net (f : Net -> Net) (w : World) :
  sameButNet w (with_net f w).
Proof. repeat split. Qed.

(** A call of the store either runs on the world with the fault script
    advanced, or throws the scripted fault. *)
Lemma call_outcome {A} (op : M A) (w : World) :
  exists w0, sameButNet w w0
             /\ (Store.call op w = op w0
                 \/ exists e, Store.call op w = (Threw e, w0)).
Proof.
  unfold Store.call. destruct (storeFaults (net w)) as [|[e|] rest].
  - exists w. split; [apply sameButNet_refl|left; reflexivity].
  - eexists. split; [apply sameButNet_with_net|right; eexists; reflexivity].
  - eexists. split; [apply sameButNet_with_net|left; reflexivity].
Qed.

Lemma findOne_outcome (q : Message -> bool) (w : World) :
  exists w0, sameButNet w w0
             /\ (Store.findOne q w = (Returned (find q (store w)), w0)
                 \/ exists e, Store.findOne q w = (Threw e, w0)).
Proof.
  unfold Store.findOne.
  destruct (call_outcome (gets (fun w => find q (store w))) w)
    as [w0 [Hs [H|H]]]; exists w0; (split; [exact Hs|]).
  - left. rewrite H. unfold gets. destruct Hs as [-> _]. reflexivity.
  - right. exact H.
Qed.



(** The query of [processMessage] does not look at the [processed] flag. *)
Lemma find_markProcessed (tm : TelegramMessage) (ch : ChannelConfig)
    (oid : nat) (docs : list Message) :
  find (byHandle tm ch) (Store.markProcessed oid docs)
  = option_map (fun d => if _id d =? oid then set_processed true d else d)
      (find (byHandle tm ch) docs).
Proof.
  unfold Store.markProcessed.
  induction docs as [|d docs IH]; [reflexivity|].
  cbn [map find].
  assert (E : byHandle tm ch (if _id d =? oid then set_processed true d else d)
              = byHandle tm ch d) by (destruct (_id d =? oid); reflexivity).
  rewrite E. destruct (byHandle tm ch d); [reflexivity|exact IH].
Qed.

Lemma find_app_none {A} (q : A -> bool) (l : list A) (x : A) :
  find q l = None -> find q (l ++ [x]) = if q x then Some x else None.
Proof.
  induction l as [|y l IH]; [reflexivity|].
  cbn [app find]. destruct (q y); [discriminate|exact IH].
Qed.

Lemma find_app_some {A} (q : A -> bool) (l l' : list A) (x : A) :
  find q l = Some x -> find q (l ++ l') = Some x.
Proof.
  induction l as [|y l IH]; [discriminate|].
  cbn [app find]. destruct (q y); [auto|exact IH].
Qed.




Lemma handled_markProcessed (tm : TelegramMessage) (ch : ChannelConfig)
    (oid : nat) (docs : list Message) :
  handled tm ch docs = true ->
  handled tm ch (Store.markProcessed oid docs) = true.
Proof.
  unfold handled. rewrite find_markProcessed.
  destruct (find (byHandle tm ch) docs) as [d|]; [|discriminate].
  cbn [option_map]. intros H. destruct (_id d =? oid); [reflexivity|exact H].
Qed.

Lemma handled_app (tm : TelegramMessage) (ch : ChannelConfig)
    (docs more : list Message) :
  handled tm ch docs = true -> handled tm ch (docs ++ more) = true.
Proof.
  unfold handled.
  destruct (find (byHandle tm ch) docs) as [d|] eqn:E; [|discriminate].
  rewrite (find_app_some _ _ more _ E). auto.
Qed.

(** A handled message is passed over by [processMessage]. *)
Lemma processMessage_handled (tm : TelegramMessage) (ch : ChannelConfig)
    (w : World) :
  handled tm ch (store w) = true ->
  exists w', ScraperService.processMessage cfg tm ch w
             = (Returned ScraperService.Undefined, w')
             /\ sameButNet w w'.
Proof.
  unfold handled. intros H.
  destruct (find (byHandle tm ch) (store w)) as [d|] eqn:Ef; [|discriminate].
  unfold ScraperService.processMessage, try_catch.
  destruct (truthy (tm_text tm));
    [|eexists; split; [reflexivity|apply sameButNet_refl]].
  cbn [negb]. unfold bind at 1. fold (byHandle tm ch).
  destruct (findOne_outcome (byHandle tm ch) w) as [w0 [Hs0 [E0|[e E0]]]];
    rewrite E0.
  - rewrite Ef, H, andb_false_r. eexists. split; [reflexivity|exact Hs0].
  - exists w0. split; [destruct (codeIs 11000 e); reflexivity|exact Hs0].
Qed.

End PollPath.

#[export] Instance handledRel_Frame (tm : TelegramMessage) (ch : ChannelConfig) :
  Frame (handledRel tm ch).
Proof.
  split.
  - intros w H. exact H.
  - intros a b c Hab Hbc H. apply Hbc, Hab, H.
Qed.

#[export] Instance handledRel_StoreFrame (tm : TelegramMessage)
    (ch : ChannelConfig) : StoreFrame (handledRel tm ch).
Proof.
  split.
  - exact (handledRel_Frame tm ch).
  - intros w w' E H. rewrite E. exact H.
  - intros m w docs E H. cbn [store with_store].
    destruct (insertDoc_inr _ _ _ E) as [_ ->]. apply handled_app, H.
  - intros oid w H. cbn [store with_store]. apply handled_markProcessed, H.
Qed.

(** *** The format check of the polling path *)

Section Prefilter.

Variable cfg : Config.









End Prefilter.




(** *** What ['bonus_sent'] means *)



(** Once the stored document that [processMessage] looks up for a message
    is marked as processed, the polling path never enqueues that message
    again: after any sequence of operations the document is still found and
    still marked, and [processMessage] returns [undefined] with the store,
    the queue and the trace as they were. *)
Theorem handled_message_is_never_enqueued_again (cfg : Config)
    (tm : TelegramMessage) (ch : ChannelConfig) (ops : list Operation)
    (w w' : World) :
  handled tm ch (store w) = true ->
  runAll cfg ops w = Some w' ->
  handled tm ch (store w') = true
  /\ exists w'', ScraperService.processMessage cfg tm ch w'
                 = (Returned ScraperService.Undefined, w'')
                 /\ sameButNet w' w''.
Proof.
  intros Hh Hr.
  pose proof (runAll_pres cfg (handledRel tm ch) ops w w' Hr Hh) as Hh'.
  split; [exact Hh'|]. apply processMessage_handled, Hh'.
Qed.

Lemma handled_message_is_never_enqueued_again_witness :
  handled Fixture.oneLine Fixture.chan (store Fixture.afterLaterOps) = true
  /\ exists w'', ScraperService.processMessage Fixture.cfg Fixture.oneLine
                   Fixture.chan Fixture.afterLaterOps
                 = (Returned ScraperService.Undefined, w'')
                 /\ sameButNet Fixture.afterLaterOps w''.
Proof.
  apply (handled_message_is_never_enqueued_again Fixture.cfg Fixture.oneLine
           Fixture.chan Fixture.laterOps Fixture.afterDrain
           Fixture.afterLaterOps).
  - vm_compute. reflexivity.
  - vm_compute. reflexivity.
Defined.

(** ** The listener and the client *)

Section ListenerStart.

Variable cfg : Config.
Hypothesis enabled : realTimeEnabled cfg = true.

Lemma startBody_returned (w : World) (u : unit) (w' : World) :
  RealTimeListener.startBody cfg w = (Returned u, w') ->
  listening w' /\ clientMade (client w') = true.
Proof.
  intros H. unfold RealTimeListener.startBody in H. rewrite enabled in H.
  cbn [negb] in H.
  unfold bind at 1 in H.
  unfold TelegramClient.isClientConnected at 1, gets at 1 in H.
  unfold bind at 1 in H.
  destruct ((if isConnected (client w) then ret tt
             else TelegramClient.connect) w) as [[u1|e1] w1]; [|discriminate].
  unfold bind at 1 in H.
  destruct (RealTimeListener.loadChannelEntities cfg w1) as [[u2|e2] w2];
    [|discriminate].
  unfold bind at 1 in H. unfold gets at 1 in H.
  destruct (clientMade (client w2)) eqn:Em; [|discriminate].
  cbn in H. injection H as _ <-. unfold listening. cbn.
  repeat split; [|exact Em].
  eexists. split; [reflexivity|]. apply in_or_app. right. left. reflexivity.
Qed.

Lemma handleReconnect_outcome (fuel : nat) :
  forall w r w',
    RealTimeListener.handleReconnect cfg fuel w = Some (r, w') ->
    r = Returned tt /\ (listening w' \/ gaveUp w').
Proof.
  induction fuel as [|fuel IH]; intros w r w' H; [discriminate|].
  cbn [RealTimeListener.handleReconnect] in H. cbv zeta in H.
  destruct (Nat.leb_spec (maxReconnectAttempts (listener w))
              (reconnectAttempts (listener w))) as [Hle|Hgt].
  - destruct (listener_stop_spec w) as [w1 [Hs [Hl _]]]. rewrite Hs in H.
    injection H as <- <-. split; [reflexivity|right].
    unfold gaveUp. rewrite Hl. cbn. repeat split. exact Hle.
  - set (w2 := snd (sleep (reconnectDelay cfg) _)) in H.
    destruct (listener_stop_spec w2) as [w3 [Hs _]]. rewrite Hs in H.
    unfold RealTimeListener.startWith in H.
    destruct (RealTimeListener.startBody cfg w3) as [[u|e] w4] eqn:E4.
    + injection H as <- <-. destruct u.
      split; [reflexivity|left]. apply (startBody_returned _ _ _ E4).
    + destruct (RealTimeListener.handleReconnect cfg fuel w4)
        as [[r5 w5]|] eqn:E5; [|discriminate].
      destruct (IH _ _ _ E5) as [-> Hpost].
      injection H as <- <-. split; [reflexivity|exact Hpost].
Qed.

End ListenerStart.

(** With real-time listening enabled, [start] never throws, and it ends in
    one of two states: listening, with the reconnect attempts back at 0 and
    a heartbeat armed; or given up, with the listener stopped, no heartbeat,
    no channel entities and the attempts used up. *)
Theorem start_ends_listening_or_given_up (cfg : Config) (fuel : nat)
    (w : World) (r : Completion unit) (w' : World) :
  realTimeEnabled cfg = true ->
  RealTimeListener.start cfg fuel w = Some (r, w') ->
  r = Returned tt /\ (listening w' \/ gaveUp w').
Proof.
  intros He H. unfold RealTimeListener.start, RealTimeListener.startWith in H.
  destruct (RealTimeListener.startBody cfg w) as [[u|e] w1] eqn:E1.
  - injection H as <- <-. destruct u. split; [reflexivity|left].
    apply (startBody_returned cfg He _ _ _ E1).
  - exact (handleReconnect_outcome cfg He fuel _ _ _ H).
Qed.

Lemma start_ends_listening_or_given_up_witness :
  let unreachable := mkError None (lit "ECONNREFUSED") in
  let w := with_net (set_connectOutcomes
                       [Some unreachable; Some unreachable; Some unreachable;
                        Some unreachable; Some unreachable; Some unreachable;
                        Some unreachable; Some unreachable])
             (with_client (TelegramClient.set_connected false) Fixture.world0) in
  let w' := match RealTimeListener.start Fixture.cfg 5 w with
            | Some (_, w') => w'
            | None => w
            end in
  Returned tt = Returned tt /\ (listening w' \/ gaveUp w').
Proof.
  apply (start_ends_listening_or_given_up Fixture.cfg 5
           (with_net (set_connectOutcomes
                        (repeat (Some (mkError None (lit "ECONNREFUSED"))) 8))
              (with_client (TelegramClient.set_connected false)
                 Fixture.world0))).
  - reflexivity.
  - vm_compute. reflexivity.
Defined.

Lemma extractData_text (m : Message) : text (extractData m) = text m.
Proof.
  unfold extractData, collapse, setResults.
  destruct (scan (text m)) as [codes url].
  destruct (truthy url), codes;
    repeat match goal with
           | |- context [if ?b then _ else _] => destruct b
           end; reflexivity.
Qed.

(** With [onlyWithBonusCode] set, the live-push path enqueues a freshly
    extracted document exactly when the polling path's policy accepts it
    and its text is not shorter than [minMessageLength]. *)
Theorem live_policy_agrees_with_batch_policy (cfg : Config) (oid : nat)
    (mid : Z) (cid cuser cname txt : str) (kws : list str) (date : Z) :
  onlyWithBonusCode cfg = true ->
  let r := extractData (newMessage oid mid cid cuser cname txt kws date) in
  RealTimeListener.shouldSendToGroups cfg r
  = ScraperService.shouldSendToGroups r
    && negb (Z.of_nat (length txt) <? minMessageLength cfg)%Z.
Proof.
  intros Ho r. subst r.
  pose proof (shouldSendToGroups_fresh oid mid cid cuser cname txt kws date)
    as Hs.
  cbv zeta in Hs. rewrite Hs. clear Hs.
  unfold RealTimeListener.shouldSendToGroups.
  rewrite Ho, extractData_text. cbn [text newMessage andb].
  destruct (hasBonus _); cbn [negb andb]; [|reflexivity].
  destruct (Z.of_nat (length txt) <? minMessageLength cfg)%Z; reflexivity.
Qed.

Lemma live_policy_agrees_with_batch_policy_witness :
  let r := extractData (docOf 0 Fixture.oneLine Fixture.chan [lit "bonus"]) in
  RealTimeListener.shouldSendToGroups Fixture.cfg r
  = ScraperService.shouldSendToGroups r
    && negb (Z.of_nat (length (textOf Fixture.oneLine))
             <? minMessageLength Fixture.cfg)%Z.
Proof.
  apply (live_policy_agrees_with_batch_policy Fixture.cfg 0 7 (lit "100")
           (lit "chan") (lit "Chan") (textOf Fixture.oneLine) [lit "bonus"] 0).
  reflexivity.
Defined.

(** [connect] throws only from a client that is not connected and has
    used up its retries. *)
Lemma connect_throws (w : World) (e : Error) (w' : World) :
  TelegramClient.connect w = (Threw e, w') ->
  isConnected (client w) = false
  /\ maxRetries (client w) <= retryCount (client w).
Proof.
  destruct w as [st no nt ck ts ntm cl sd ls sc tr].
  destruct cl as [made conn rc mr]. destruct nt as [sf so co fo ge].
  unfold TelegramClient.connect, TelegramClient.handleConnectionError,
    TelegramClient.transportConnect, TelegramClient.isClientConnected,
    try_catch, bind, gets, modify, ret, throw.
  destruct conn; cbn -[Nat.ltb]; [discriminate|].
  destruct co as [|[e0|] rest]; cbn -[Nat.ltb]; try discriminate.
  destruct (Nat.ltb_spec rc mr) as [Hlt|Hge]; cbn -[Nat.ltb];
    [discriminate|].
  intros _. split; [reflexivity|exact Hge].
Qed.

(** [connect] does nothing when already connected; it throws only when
    the retries are used up; while retries remain, a failed attempt makes
    it return normally with the client still not connected and the retry
    count one higher; a successful attempt resets the count; and one call
    makes at most one attempt. *)
Theorem connect_can_return_without_a_connection (w : World) :
  let r := TelegramClient.connect w in
  (isConnected (client w) = true -> r = (Returned tt, w))
  /\ (forall e, fst r = Threw e ->
        maxRetries (client w) <= retryCount (client w)
        /\ isConnected (client (snd r)) = false)
  /\ (fst r = Returned tt -> isConnected (client (snd r)) = false ->
        retryCount (client w) < maxRetries (client w)
        /\ retryCount (client (snd r)) = S (retryCount (client w)))
  /\ (isConnected (client w) = false -> isConnected (client (snd r)) = true ->
        fst r = Returned tt /\ retryCount (client (snd r)) = 0)
  /\ connects (trace (snd r)) <= S (connects (trace w)).
Proof.
  destruct w as [st no nt ck ts ntm cl sd ls sc tr].
  destruct cl as [made conn rc mr]. destruct nt as [sf so co fo ge].
  unfold TelegramClient.connect, TelegramClient.handleConnectionError,
    TelegramClient.transportConnect, TelegramClient.isClientConnected,
    try_catch, bind, gets, modify, ret, throw.
  assert (Hc : forall tr e, connects (tr ++ [EvConnect e]) = S (connects tr)).
  { intros tr0 e0. induction tr0 as [|x tr0 IH]; [reflexivity|].
    destruct x; cbn; rewrite ?IH; reflexivity. }
  assert (Hc' : forall tr, connects (tr ++ [EvClientRetryArmed]) = connects tr).
  { intros tr0. induction tr0 as [|x tr0 IH]; [reflexivity|].
    destruct x; cbn; rewrite ?IH; reflexivity. }
  destruct conn; cbn -[Nat.ltb].
  - repeat split; intros; try discriminate; lia.
  - destruct co as [|[e|] rest]; cbn -[Nat.ltb].
    + rewrite Hc. repeat split; intros; try discriminate; lia.
    + destruct (Nat.ltb_spec rc mr) as [Hlt|Hge]; cbn -[Nat.ltb];
        rewrite ?Hc', ?Hc; repeat split; intros; try discriminate; lia.
    + rewrite Hc. repeat split; intros; try discriminate; lia.
Qed.

(** ** Flood waits and truncation *)

Section FloodWait.

Let step (acc : Z) (d : N) : Z := (10 * acc + (Z.of_N d - 48))%Z.

Lemma parseInt_decimalFrom (fuel : nat) :
  forall n acc, n < fuel ->
    fold_left step (decimalFrom fuel n acc) 0%Z
    = fold_left step acc (Z.of_nat n).
Proof.
  induction fuel as [|fuel IH]; intros n acc Hn; [lia|].
  cbn [decimalFrom]. cbv zeta.
  assert (Hd : (Z.of_N (N.of_nat (48 + n mod 10)) - 48 = Z.of_nat (n mod 10))%Z)
    by lia.
  destruct (Nat.ltb_spec n 10) as [Hlt|Hge].
  - cbn [fold_left]. unfold step at 2. rewrite Hd.
    rewrite Nat.mod_small by exact Hlt. f_equal.
  - assert (Hdiv : n / 10 < n) by (apply Nat.div_lt; lia).
    rewrite IH by lia. cbn [fold_left]. unfold step at 2. rewrite Hd.
    f_equal. rewrite (Nat.div_mod_eq n 10) at 3. lia.
Qed.

Lemma digitsValue_decimal (n : nat) :
  TelegramClient.digitsValue (decimal n) = Z.of_nat n.
Proof.
  unfold TelegramClient.digitsValue, decimal.
  exact (parseInt_decimalFrom (S n) n [] (Nat.lt_succ_diag_r n)).
Qed.

(** An integer below 2^53 is a double. *)
Lemma toNumber_exact (z : Z) : (z < 2 ^ 53)%Z -> toNumber z = Int z.
Proof.
  intros Hz. unfold toNumber, nearest.
  destruct (Z.ltb_spec z (2 ^ 53)) as [_|Hge]; [|lia].
  destruct (Z.ltb_spec z (2 ^ 1024)) as [_|Hge]; [reflexivity|].
  assert (2 ^ 53 < 2 ^ 1024)%Z by (apply Z.pow_lt_mono_r; lia). lia.
Qed.

Lemma parseInt_decimal (n : nat) :
  TelegramClient.parseInt (decimal n) = toNumber (Z.of_nat n).
Proof. unfold TelegramClient.parseInt. rewrite digitsValue_decimal. reflexivity. Qed.

Lemma isDigit_of_nat (d : nat) : d < 10 -> isDigit (N.of_nat (48 + d)) = true.
Proof.
  intros H. unfold isDigit, inRange.
  apply andb_true_iff. split; apply N.leb_le; lia.
Qed.

Lemma decimalFrom_digits (fuel : nat) :
  forall n acc, forallb isDigit acc = true ->
    forallb isDigit (decimalFrom fuel n acc) = true.
Proof.
  induction fuel as [|fuel IH]; intros n acc Ha; [exact Ha|].
  cbn [decimalFrom]. cbv zeta.
  assert (Hd : isDigit (N.of_nat (48 + n mod 10)) = true).
  { apply isDigit_of_nat. apply Nat.mod_upper_bound. lia. }
  destruct (n <? 10).
  - cbn [forallb]. rewrite Hd, Ha. reflexivity.
  - apply IH. cbn [forallb]. rewrite Hd, Ha. reflexivity.
Qed.

Lemma decimalFrom_nonempty (fuel : nat) :
  forall n acc, acc <> [] \/ 0 < fuel -> decimalFrom fuel n acc <> [].
Proof.
  induction fuel as [|fuel IH]; intros n acc H.
  - destruct H as [H|H]; [exact H|lia].
  - cbn [decimalFrom]. cbv zeta. destruct (n <? 10); [discriminate|].
    apply IH. left. discriminate.
Qed.

Lemma takeWhile_digits (ds suf : str) :
  forallb isDigit ds = true ->
  match suf with [] => true | c :: _ => negb (isDigit c) end = true ->
  takeWhile isDigit (ds ++ suf) = ds.
Proof.
  intros Hd Hs. destruct suf as [|c suf].
  - rewrite app_nil_r. induction ds as [|d ds IH]; [reflexivity|].
    cbn [forallb] in Hd. apply andb_true_iff in Hd as [H1 H2].
    cbn [takeWhile]. rewrite H1, (IH H2). reflexivity.
  - apply takeWhile_app_stop; [exact Hd|]. apply negb_true_iff, Hs.
Qed.

Lemma floodWaitDigits_skip (pre s : str) :
  forallb (fun c => negb (N.eqb c 70)) pre = true ->
  TelegramClient.floodWaitDigits (pre ++ s) = TelegramClient.floodWaitDigits s.
Proof.
  induction pre as [|c pre IH]; intros H; [reflexivity|].
  cbn [forallb] in H. apply andb_true_iff in H as [Hc Hp].
  apply negb_true_iff in Hc.
  cbn [app]. cbn [TelegramClient.floodWaitDigits].
  change (lit "FLOOD_WAIT_") with (70%N :: lit "LOOD_WAIT_").
  cbn [startsWith]. rewrite N.eqb_sym, Hc. cbn [andb].
  apply IH, Hp.
Qed.

Lemma floodWaitDigits_none (s : str) :
  includes s (lit "FLOOD_WAIT_") = false ->
  TelegramClient.floodWaitDigits s = None.
Proof.
  induction s as [|c s IH]; intros H.
  - reflexivity.
  - cbn [includes] in H. apply orb_false_iff in H as [H1 H2].
    cbn [TelegramClient.floodWaitDigits]. rewrite H1. apply IH, H2.
Qed.

End FloodWait.

(** [parseInt] returns a double: a numeral above 2^53 is read as the double
    nearest to it, and one that no double reaches as [Infinity]; the sleep
    that follows such a wait is a timer of one millisecond. *)
Example flood_wait_seconds_are_a_double :
  TelegramClient.extractFloodWaitTime (lit "FLOOD_WAIT_9007199254740993")
  = 9007199254740992%Z
  /\ TelegramClient.extractFloodWaitTime
       (lit "FLOOD_WAIT_2" ++ repeat 48%N 308) = Infinity
  /\ timerDelay (times Infinity 1000) = 1%Z
  /\ timerDelay (times 5%Z 1000) = 5000%Z
  /\ timerDelay (times 2147484%Z 1000) = 1%Z.
Proof. vm_compute. repeat split. Qed.

(** The seconds of a flood wait are read back from the error message:
    when the message has no 'F' before the marker 'FLOOD_WAIT_' and the
    decimal numeral of [n] follows it, not followed by a further digit,
    [extractFloodWaitTime] returns the Number value of [n]: [n] itself
    when it is below 2^53, and the double nearest to [n] otherwise. *)
Theorem flood_wait_seconds_are_read_back (n : nat) (pre suf : str) :
  forallb (fun c => negb (N.eqb c 70)) pre = true ->
  match suf with [] => true | c :: _ => negb (isDigit c) end = true ->
  TelegramClient.extractFloodWaitTime
    (pre ++ lit "FLOOD_WAIT_" ++ decimal n ++ suf) = toNumber (Z.of_nat n)
  /\ ((Z.of_nat n < 2 ^ 53)%Z ->
      TelegramClient.extractFloodWaitTime
        (pre ++ lit "FLOOD_WAIT_" ++ decimal n ++ suf) = Z.of_nat n).
Proof.
  intros Hp Hs.
  assert (K : TelegramClient.extractFloodWaitTime
                (pre ++ lit "FLOOD_WAIT_" ++ decimal n ++ suf)
              = toNumber (Z.of_nat n)).
  { unfold TelegramClient.extractFloodWaitTime.
    rewrite (floodWaitDigits_skip pre _ Hp).
    assert (Hd : forallb isDigit (decimal n) = true)
      by (apply decimalFrom_digits; reflexivity).
    assert (Hn : decimal n <> [])
      by (apply decimalFrom_nonempty; right; lia).
    assert (E : TelegramClient.floodWaitDigits
                  (lit "FLOOD_WAIT_" ++ decimal n ++ suf) = Some (decimal n)).
    { pose proof (startsWith_app (lit "FLOOD_WAIT_") (decimal n ++ suf)) as Hsw.
      change (lit "FLOOD_WAIT_" ++ decimal n ++ suf)
        with (70%N :: lit "LOOD_WAIT_" ++ decimal n ++ suf) in *.
      cbn [TelegramClient.floodWaitDigits].
      rewrite Hsw.
      change (skipn 11 (70%N :: lit "LOOD_WAIT_" ++ decimal n ++ suf))
        with (decimal n ++ suf).
      rewrite (takeWhile_digits _ _ Hd Hs).
      destruct (decimal n); [congruence|reflexivity]. }
    rewrite E. apply parseInt_decimal. }
  split; [exact K|]. intros Hn. rewrite K. apply toNumber_exact, Hn.
Qed.

Lemma flood_wait_seconds_are_read_back_witness :
  TelegramClient.extractFloodWaitTime
    (lit "A wait of 37 seconds is required (caused by FLOOD_WAIT_37)")
  = 37%Z.
Proof.
  apply (flood_wait_seconds_are_read_back 37
           (lit "A wait of 37 seconds is required (caused by ") (lit ")"));
    [reflexivity|reflexivity|vm_compute; reflexivity].
Defined.

(** A message without the marker 'FLOOD_WAIT_' gives the default of 60
    seconds, in all three classes that carry the method; this includes
    'FLOOD_WAIT' without a number, which [processQueue] and
    [scrapeAllChannels] do treat as a flood wait. *)
Theorem flood_wait_without_seconds_is_a_minute (errorMessage : str) :
  includes errorMessage (lit "FLOOD_WAIT_") = false ->
  TelegramClient.extractFloodWaitTime errorMessage = 60%Z
  /\ MessageSender.extractFloodWaitTime errorMessage = 60%Z
  /\ ScraperService.extractFloodWaitTime errorMessage = 60%Z.
Proof.
  intros H.
  unfold MessageSender.extractFloodWaitTime,
    ScraperService.extractFloodWaitTime, TelegramClient.extractFloodWaitTime.
  rewrite (floodWaitDigits_none _ H). repeat split.
Qed.

Lemma flood_wait_without_seconds_is_a_minute_witness :
  TelegramClient.extractFloodWaitTime (lit "FLOOD_WAIT") = 60%Z
  /\ MessageSender.extractFloodWaitTime (lit "FLOOD_WAIT") = 60%Z
  /\ ScraperService.extractFloodWaitTime (lit "FLOOD_WAIT") = 60%Z.
Proof.
  apply (flood_wait_without_seconds_is_a_minute (lit "FLOOD_WAIT")).
  reflexivity.
Defined.

(** For every cap of 3 or more, [truncateText] respects the cap and is
    idempotent; for a cap below 3 a longer text becomes '...', three code
    units, which exceeds the cap. *)
Theorem truncateText_respects_caps_of_three_or_more (txt : str) (maxLength : Z) :
  ((3 <= maxLength)%Z ->
     (Z.of_nat (length (MessageSender.truncateText txt maxLength))
      <= maxLength)%Z
     /\ MessageSender.truncateText
          (MessageSender.truncateText txt maxLength) maxLength
        = MessageSender.truncateText txt maxLength)
  /\ ((maxLength < 3)%Z -> (maxLength < Z.of_nat (length txt))%Z ->
      MessageSender.truncateText txt maxLength = lit "...").
Proof.
  unfold MessageSender.truncateText, substring0. split.
  - intros H3.
    destruct (Z.leb_spec (Z.of_nat (length txt)) maxLength) as [Hle|Hgt].
    + split; [exact Hle|].
      destruct (Z.leb_spec (Z.of_nat (length txt)) maxLength); [reflexivity|lia].
    + assert (Hl : length (firstn (Z.to_nat (maxLength - 3)) txt ++ lit "...")
                   = Z.to_nat maxLength).
      { rewrite length_app, length_firstn.
        change (length (lit "...")) with 3. lia. }
      rewrite Hl. split; [lia|].
      destruct (Z.leb_spec (Z.of_nat (Z.to_nat maxLength)) maxLength);
        [reflexivity|lia].
  - intros Hlt Hlen.
    destruct (Z.leb_spec (Z.of_nat (length txt)) maxLength); [lia|].
    replace (Z.to_nat (maxLength - 3)) with 0 by lia. reflexivity.
Qed.

Lemma truncateText_respects_caps_of_three_or_more_witness :
  MessageSender.truncateText (lit "abcdef") 5 = lit "ab..."
  /\ MessageSender.truncateText (lit "abcdef") 2 = lit "...".
Proof.
  destruct (truncateText_respects_caps_of_three_or_more (lit "abcdef") 2)
    as [_ H].
  split; [reflexivity|]. apply H; vm_compute; reflexivity.
Defined.

(** ** The channel routes of the API *)

Section ApiFacts.

Import Api.

Lemma str_eqb_cons_self (c : N) (s : str) : str_eqb (c :: s) s = false.
Proof.
  destruct (str_eqb (c :: s) s) eqn:E; [|reflexivity].
  apply str_eqb_eq in E. apply (f_equal (@length N)) in E.
  cbn [length] in E. lia.
Qed.

Lemma findIndex_app_last {A} (p : A -> bool) (l : list A) (x : A) :
  existsb p l = false -> p x = true ->
  findIndex p (l ++ [x]) = Some (length l).
Proof.
  induction l as [|y l IH]; cbn [existsb app findIndex length]; intros H Hx.
  - rewrite Hx. reflexivity.
  - apply orb_false_iff in H as [Hy Hl]. rewrite Hy, (IH Hl Hx). reflexivity.
Qed.

Lemma spliceOne_last {A} (l : list A) (x : A) :
  spliceOne (length l) (l ++ [x]) = l.
Proof.
  unfold spliceOne.
  rewrite firstn_app, Nat.sub_diag, firstn_all. cbn [firstn].
  rewrite skipn_all2 by (rewrite length_app; cbn; lia).
  rewrite !app_nil_r. reflexivity.
Qed.

Lemma find_none_existsb {A} (p : A -> bool) (l : list A) :
  find p l = None -> existsb p l = false.
Proof.
  induction l as [|y l IH]; [reflexivity|]. cbn [find existsb].
  destruct (p y); [discriminate|exact IH].
Qed.

Lemma existsb_false_find {A} (p : A -> bool) (l : list A) :
  existsb p l = false -> find p l = None.
Proof.
  induction l as [|y l IH]; [reflexivity|]. cbn [find existsb].
  destruct (p y); [discriminate|exact IH].
Qed.

(** What a successful POST has done. *)
Lemma addSourceChannel_ok (body : SourceBody) (disk disk' : Disk) :
  addSourceChannel body disk = (Ok200, disk') ->
  exists name username channels,
    b_name body = Some name /\ b_username body = Some username
    /\ name <> [] /\ username <> []
    /\ disk = mkDisk (Some channels) true
    /\ existsb (fun ch => str_eqb (se_username ch) username) channels = false
    /\ disk' = mkDisk
                 (Some (channels ++
                        [mkSourceEntry name (withAt username)
                           (b_description body)
                           (match b_active body with
                            | Some a => a
                            | None => true
                            end) []])) true.
Proof.
  unfold addSourceChannel. destruct body as [[[|c n]|] [[|c' u]|] d a];
    cbn [truthy negb orb b_name b_username orElse]; try discriminate.
  destruct disk as [[channels|] wr]; cbn [channelsFile writable];
    [|discriminate].
  destruct (find _ channels) eqn:Ef; [discriminate|].
  destruct wr; [|discriminate].
  intros H. injection H as <-.
  exists (c :: n), (c' :: u), channels.
  repeat split; try reflexivity; try discriminate.
  apply find_none_existsb, Ef.
Qed.

End ApiFacts.

(** A channel added through the API can be removed again under the user
    name it was added with: when no listed channel bears that name with an
    '@' in front, the DELETE answers 200 and the file is as it was before
    the POST. *)
Theorem added_channel_can_be_removed (body : Api.SourceBody)
    (disk disk' : Api.Disk) (username : str) :
  Api.addSourceChannel body disk = (Api.Ok200, disk') ->
  Api.b_username body = Some username ->
  match Api.channelsFile disk with
  | Some channels =>
      existsb (fun ch => str_eqb (Api.se_username ch) (Api.atSign :: username))
        channels
  | None => false
  end = false ->
  Api.removeSourceChannel username disk' = (Api.Ok200, disk).
Proof.
  intros Hadd Hu Hat.
  destruct (addSourceChannel_ok body disk disk' Hadd)
    as [name [u [channels [Hn [Hu' [_ [Hne [-> [Hraw ->]]]]]]]]].
  rewrite Hu in Hu'. injection Hu' as <-.
  cbn [Api.channelsFile] in Hat.
  unfold Api.removeSourceChannel. cbn [Api.channelsFile Api.writable].
  rewrite findIndex_app_last.
  - rewrite spliceOne_last. reflexivity.
  - clear - Hraw Hat. induction channels as [|ch channels IH]; [reflexivity|].
    cbn [existsb] in *. apply orb_false_iff in Hraw as [H1 H2].
    apply orb_false_iff in Hat as [H3 H4].
    rewrite H1, H3, (IH H4 H2). reflexivity.
  - cbn [Api.se_username]. unfold Api.withAt.
    destruct (startsWith username [Api.atSign]).
    + rewrite str_eqb_refl. reflexivity.
    + rewrite str_eqb_refl. apply orb_true_r.
Qed.

Lemma added_channel_can_be_removed_witness :
  Api.removeSourceChannel (lit "yeni")
    (snd (Api.addSourceChannel (ApiFixture.request "yeni") ApiFixture.disk0))
  = (Api.Ok200, ApiFixture.disk0).
Proof.
  apply (added_channel_can_be_removed (ApiFixture.request "yeni")
           ApiFixture.disk0
           (snd (Api.addSourceChannel (ApiFixture.request "yeni")
                   ApiFixture.disk0))
           (lit "yeni")); reflexivity.
Defined.

(** The duplicate check of the POST compares the user name as given with
    the stored names, which carry an '@': a second POST with the same name
    is refused with 400 when the name was given with its '@', and is
    accepted when it was given without, the file then listing the channel
    twice. *)
Theorem duplicate_check_needs_the_at_sign (body : Api.SourceBody)
    (disk disk1 : Api.Disk) (username : str) :
  Api.addSourceChannel body disk = (Api.Ok200, disk1) ->
  Api.b_username body = Some username ->
  if startsWith username [Api.atSign]
  then Api.addSourceChannel body disk1 = (Api.BadRequest400, disk1)
  else exists disk2 channels,
         Api.addSourceChannel body disk1 = (Api.Ok200, disk2)
         /\ Api.channelsFile disk2 = Some channels
         /\ 2 <= length (filter
                           (fun ch => str_eqb (Api.se_username ch)
                                        (Api.atSign :: username))
                           channels).
Proof.
  intros Hadd Hu.
  destruct (addSourceChannel_ok body disk disk1 Hadd)
    as [name [u [channels [Hn [Hu' [Hne [Hne' [-> [Hraw ->]]]]]]]]].
  rewrite Hu in Hu'. injection Hu' as <-.
  destruct name as [|c n]; [congruence|].
  destruct username as [|c' u]; [congruence|].
  unfold Api.addSourceChannel. rewrite Hn, Hu.
  cbn [truthy negb orb orElse Api.channelsFile Api.writable].
  rewrite (find_app_none _ _ _ (existsb_false_find _ _ Hraw)).
  cbn [Api.se_username]. unfold Api.withAt.
  destruct (startsWith (c' :: u) [Api.atSign]) eqn:Es.
  - rewrite str_eqb_refl. reflexivity.
  - rewrite str_eqb_cons_self. eexists _, _.
    split; [reflexivity|]. split; [reflexivity|].
    rewrite !filter_app, !length_app. cbn [filter Api.se_username].
    rewrite !str_eqb_refl. cbn [length]. lia.
Qed.

Lemma duplicate_check_needs_the_at_sign_witness :
  let disk1 := snd (Api.addSourceChannel (ApiFixture.request "yeni")
                      ApiFixture.disk0) in
  exists disk2 channels,
    Api.addSourceChannel (ApiFixture.request "yeni") disk1 = (Api.Ok200, disk2)
    /\ Api.channelsFile disk2 = Some channels
    /\ 2 <= length (filter
                      (fun ch => str_eqb (Api.se_username ch) (lit "@yeni"))
                      channels).
Proof.
  apply (duplicate_check_needs_the_at_sign (ApiFixture.request "yeni")
           ApiFixture.disk0
           (snd (Api.addSourceChannel (ApiFixture.request "yeni")
                   ApiFixture.disk0))
           (lit "yeni")); reflexivity.
Defined.

(** ** The listener after [stop] *)

(** After [stop] the listener ignores every pushed message: the handler
    that [start] registered returns without touching the world. *)
Theorem stopped_listener_ignores_pushes (cfg : Config) (tm : TelegramMessage)
    (w : World) :
  let w1 := snd (RealTimeListener.stop w) in
  RealTimeListener.handleNewMessage cfg tm w1 = (Returned tt, w1).
Proof.
  cbv zeta. destruct (listener_stop_spec w) as [w1 [Hs [Hl _]]].
  rewrite Hs. cbn [snd].
  unfold RealTimeListener.handleNewMessage, try_catch.
  destruct (truthy (tm_text tm)); [|reflexivity]. cbn [negb].
  unfold bind, gets. rewrite Hl. cbn [channelEntities].
  destruct (tm_channelId tm) as [[|c s]|]; reflexivity.
Qed.

(** ** The age window of the polling path *)

Section AgeWindow.

Variable cfg : Config.
Variable P : Message -> Prop.
Hypothesis P_flag : forall d, P d -> P (set_processed true d).

Lemma fromOld_self (docs : list Message) (d : Message) :
  In d docs -> fromOld docs d.
Proof. intros H. exists d. split; [exact H|left; reflexivity]. Qed.

Lemma addsOnly_refl (w : World) : addsOnly P w w.
Proof. split; [reflexivity|]. intros d H. left. apply fromOld_self, H. Qed.

Lemma addsOnly_trans (a b c : World) :
  addsOnly P a b -> addsOnly P b c -> addsOnly P a c.
Proof.
  intros [C1 H1] [C2 H2]. split; [congruence|].
  intros d Hd. destruct (H2 d Hd) as [[d1 [Hin Hd1]]|Hp]; [|right; exact Hp].
  destruct (H1 d1 Hin) as [[d0 [Hin0 Hd0]]|Hp1].
  - left. exists d0. split; [exact Hin0|].
    destruct Hd1 as [->| ->], Hd0 as [->| ->]; auto.
  - right. destruct Hd1 as [->| ->]; [exact Hp1|apply P_flag, Hp1].
Qed.

#[local] Instance addsOnly_Frame : Frame (addsOnly P).
Proof. split; [exact addsOnly_refl|exact addsOnly_trans]. Qed.

Lemma addsOnly_same (w w' : World) :
  store w' = store w -> clock w' = clock w -> addsOnly P w w'.
Proof.
  intros Hs Hc. split; [exact Hc|]. rewrite Hs. intros d H. left.
  apply fromOld_self, H.
Qed.

Lemma addsOnly_mark (oid : nat) (w : World) :
  addsOnly P w (with_store (Store.markProcessed oid) w).
Proof.
  split; [reflexivity|]. cbn [store with_store]. intros d H. left.
  unfold Store.markProcessed in H. apply in_map_iff in H as [d0 [<- Hin]].
  exists d0. split; [exact Hin|]. destruct (_id d0 =? oid); auto.
Qed.

Ltac same_side := intros; apply addsOnly_same; reflexivity.

Lemma addsOnly_call {A} (op : M A) :
  preserves (addsOnly P) op -> preserves (addsOnly P) (Store.call op).
Proof.
  intros H w. unfold Store.call.
  destruct (storeFaults (net w)) as [|[e|] rest]; [apply H|same_side|].
  eapply addsOnly_trans; [|apply H]. same_side.
Qed.

Lemma addsOnly_findOne (q : Message -> bool) :
  preserves (addsOnly P) (Store.findOne q).
Proof. apply addsOnly_call. intros w. apply addsOnly_refl. Qed.

Lemma addsOnly_saveProcessed (oid : nat) :
  preserves (addsOnly P) (Store.saveProcessed oid).
Proof. apply addsOnly_call. intros w. apply addsOnly_mark. Qed.

Lemma addsOnly_saveNew (m : Message) :
  P m -> preserves (addsOnly P) (Store.saveNew m).
Proof.
  intros Hm. unfold Store.saveNew.
  destruct (Store.valid m); [|intros w; apply addsOnly_refl].
  apply addsOnly_call. intros w. unfold Store.insertDoc.
  destruct (existsb (Store.sameKey m) (store w)); [apply addsOnly_refl|].
  split; [reflexivity|]. cbn [snd store with_store]. intros d H.
  apply in_app_or in H as [H|[<-|[]]]; [left; apply fromOld_self, H|right; exact Hm].
Qed.

Lemma addsOnly_sendToTargetGroups (m : Message) :
  preserves (addsOnly P) (MessageSender.sendToTargetGroups cfg m).
Proof.
  intros w. destruct (sendToTargetGroups_effect cfg m w) as [_ [_ H]].
  apply addsOnly_same; apply H.
Qed.

Lemma addsOnly_processMessage (tm : TelegramMessage) (ch : ChannelConfig) :
  (forall oid, P (polled oid tm ch)) ->
  preserves (addsOnly P) (ScraperService.processMessage cfg tm ch).
Proof.
  intros Hp. unfold ScraperService.processMessage.
  with_frame preserves_try_catch;
    [|intros e; destruct (codeIs 11000 e); with_frame preserves_ret].
  destruct (negb (truthy (tm_text tm))); [with_frame preserves_ret|].
  with_frame preserves_bind; [apply addsOnly_findOne|].
  intros [existing|].
  - repeat first
      [ apply addsOnly_sendToTargetGroups
      | apply addsOnly_saveProcessed
      | preserves_step ].
  - cbv zeta.
    destruct ((length (ScraperService.formatLines (textOf tm)) <? 2)
              || (5 <? length (ScraperService.formatLines (textOf tm))));
      [with_frame preserves_ret|].
    destruct (negb (existsb ScraperService.lineHasUrl
                      (ScraperService.formatLines (textOf tm))));
      [with_frame preserves_ret|].
    intros w. unfold bind at 1. unfold Store.construct at 1.
    fold (docOf (nextOid w) tm ch [lit "bonus_format"]).
    fold (polled (nextOid w) tm ch).
    apply (addsOnly_trans w (with_nextOid (S (nextOid w)) w));
      [apply addsOnly_same; reflexivity|].
    assert (H : preserves (addsOnly P)
                  (Store.saveNew (polled (nextOid w) tm ch) ;;
                   if ScraperService.shouldSendToGroups (polled (nextOid w) tm ch)
                   then
                     MessageSender.sendToTargetGroups cfg
                       (polled (nextOid w) tm ch) ;;
                     Store.saveProcessed (_id (polled (nextOid w) tm ch)) ;;
                     ret ScraperService.BonusSent
                   else ret ScraperService.Undefined)).
    { repeat first
        [ apply addsOnly_sendToTargetGroups
        | apply addsOnly_saveProcessed
        | apply addsOnly_saveNew; apply Hp
        | preserves_step ]. }
    apply H.
Qed.

Lemma addsOnly_processMessageCall (tm : TelegramMessage) (ch : ChannelConfig) :
  (forall oid, P (polled oid tm ch)) ->
  callPreserves (addsOnly P) (ScraperService.processMessageCall cfg tm ch).
Proof.
  intros Hp. unfold ScraperService.processMessageCall.
  with_frame call_atry;
    [|intros e; destruct (codeIs 11000 e); with_frame call_sync;
      with_frame preserves_ret].
  destruct (negb (truthy (tm_text tm)));
    [with_frame call_sync; with_frame preserves_ret|].
  with_frame call_abind;
    [with_frame call_await; with_frame call_request; apply addsOnly_findOne|].
  intros [existing|].
  - repeat first
      [ apply addsOnly_sendToTargetGroups
      | apply addsOnly_saveProcessed
      | with_frame preserves_ret
      | call_step ].
  - cbv zeta.
    destruct ((length (ScraperService.formatLines (textOf tm)) <? 2)
              || (5 <? length (ScraperService.formatLines (textOf tm))));
      [with_frame call_sync; with_frame preserves_ret|].
    destruct (negb (existsb ScraperService.lineHasUrl
                      (ScraperService.formatLines (textOf tm))));
      [with_frame call_sync; with_frame preserves_ret|].
    with_frame call_abind_sync; [intros w; apply addsOnly_same; reflexivity|].
    intros w doc w' E. unfold Store.construct in E. injection E as <- _.
    fold (docOf (nextOid w) tm ch [lit "bonus_format"]).
    fold (polled (nextOid w) tm ch).
    repeat first
      [ apply addsOnly_sendToTargetGroups
      | apply addsOnly_saveProcessed
      | apply addsOnly_saveNew; apply Hp
      | with_frame preserves_ret
      | call_step ].
Qed.

End AgeWindow.

#[export] Instance sameStore_Frame : Frame sameStore.
Proof.
  split; [intros w; reflexivity|].
  intros a b c H1 H2. unfold sameStore in *. congruence.
Qed.

Section Fetch.

Lemma sameStore_fetchBody (u : str) (limit : Z) :
  preserves sameStore (TelegramClient.fetchBody u limit).
Proof.
  assert (Hn : forall f w, sameStore w (with_net f w)) by reflexivity.
  assert (He : forall e w, sameStore w (emit e w)) by reflexivity.
  assert (Hc : forall f w, sameStore w (with_client f w)) by reflexivity.
  unfold TelegramClient.fetchBody, TelegramClient.isClientConnected,
    TelegramClient.getMessages.
  repeat first
    [ apply (preserves_connect sameStore Hn He Hc)
    | apply (preserves_getChannelEntity sameStore Hn He Hc)
    | match goal with
      | |- preserves sameStore (fun w => match fetchOutcomes (net w) with _ => _ end) =>
          intros w; destruct (fetchOutcomes (net w)) as [|[e|msgs] rest];
          reflexivity
      end
    | preserves_step ].
Qed.

Lemma sameStore_getChannelMessages (fuel : nat) (u : str) (limit : Z) :
  forall w r w',
    TelegramClient.getChannelMessages fuel u limit w = Some (r, w') ->
    store w' = store w.
Proof.
  induction fuel as [|fuel IH]; intros w r w' E; [discriminate|].
  cbn [TelegramClient.getChannelMessages] in E. cbv zeta in E.
  pose proof (sameStore_fetchBody u limit w) as K. unfold sameStore in K.
  destruct (TelegramClient.fetchBody u limit w) as [[msgs|e] w1];
    cbn [snd] in K.
  - injection E as _ <-. exact K.
  - destruct (includes (message e) (lit "FLOOD_WAIT")).
    + rewrite (IH _ _ _ E). exact K.
    + injection E as _ <-. exact K.
Qed.

End Fetch.

Section AgeWindowOfScrape.

Variable cfg : Config.
Variable cutoff : Z.

Lemma datedAfter_flag (d : Message) :
  datedAfter cutoff d -> datedAfter cutoff (set_processed true d).
Proof. intros H. exact H. Qed.

Lemma polled_date (oid : nat) (tm : TelegramMessage) (ch : ChannelConfig) :
  messageDate (polled oid tm ch) = (tm_date tm * 1000)%Z.
Proof.
  unfold polled, extractData, collapse, setResults.
  destruct (scan _) as [codes url].
  destruct (truthy url), codes;
    repeat match goal with
           | |- context [if ?b then _ else _] => destruct b
           end; reflexivity.
Qed.

Lemma window_processMessage (tm : TelegramMessage) (ch : ChannelConfig) :
  recent cutoff tm ->
  preserves (addsOnly (datedAfter cutoff))
    (ScraperService.processMessage cfg tm ch).
Proof.
  intros H. apply addsOnly_processMessage; [exact datedAfter_flag|].
  intros oid. unfold datedAfter. rewrite polled_date. exact H.
Qed.

Lemma window_processMessageCall (tm : TelegramMessage) (ch : ChannelConfig) :
  recent cutoff tm ->
  callPreserves (addsOnly (datedAfter cutoff))
    (ScraperService.processMessageCall cfg tm ch).
Proof.
  intros H. apply addsOnly_processMessageCall; [exact datedAfter_flag|].
  intros oid. unfold datedAfter. rewrite polled_date. exact H.
Qed.

Lemma window_processMessageBatch (msgs : list TelegramMessage)
    (ch : ChannelConfig) :
  Forall (recent cutoff) msgs ->
  preserves (addsOnly (datedAfter cutoff))
    (ScraperService.processMessageBatch cfg msgs ch).
Proof.
  intros H. unfold ScraperService.processMessageBatch.
  pose proof (@addsOnly_Frame (datedAfter cutoff) datedAfter_flag) as F.
  apply preserves_batch;
    [exact F|intros f w; apply addsOnly_same; reflexivity|
     |intros rs w; apply addsOnly_refl].
  eapply Forall_impl; [|exact H].
  intros tm Htm. apply window_processMessageCall, Htm.
Qed.

Lemma window_processInBatches (k : nat) :
  forall (msgs : list TelegramMessage) (ch : ChannelConfig),
    Forall (recent cutoff) msgs ->
    preserves (addsOnly (datedAfter cutoff))
      (ScraperService.processInBatches cfg k msgs ch).
Proof.
  induction k as [|k IH]; intros msgs ch H;
    [intros w; apply addsOnly_refl|].
  destruct msgs as [|m msgs]; [intros w; apply addsOnly_refl|].
  cbn [ScraperService.processInBatches]. cbv zeta.
  rewrite <- (firstn_skipn ScraperService.scrapingBatchSize (m :: msgs)) in H.
  apply Forall_app in H as [Hf Hs].
  pose proof (@addsOnly_Frame (datedAfter cutoff) datedAfter_flag) as F.
  with_frame preserves_bind; [apply window_processMessageBatch, Hf|].
  intros n. with_frame preserves_bind; [apply IH, Hs|].
  intros rest. with_frame preserves_ret.
Qed.

End AgeWindowOfScrape.

(** The polling of a channel stores no message outside the age window:
    every document in the store after [scrapeChannel] was there before (as
    it is, or with its flag set), or is dated after the time of the poll
    minus [maxAgeHours]. *)
Theorem polling_stores_only_recent_messages (cfg : Config) (fuel : nat)
    (ch : ChannelConfig) (w : World) (r : Completion nat) (w' : World) :
  ScraperService.scrapeChannel cfg fuel ch w = Some (r, w') ->
  forall d, In d (store w') ->
    fromOld (store w) d
    \/ (clock w' - maxAgeHours cfg * 60 * 60 * 1000 < messageDate d)%Z.
Proof.
  intros E. unfold ScraperService.scrapeChannel in E.
  destruct (TelegramClient.getChannelMessages fuel (c_username ch)
              (maxMessagesPerCheck cfg) w) as [[[msgs|e] w1]|] eqn:E1;
    [| |discriminate].
  2:{ injection E as _ <-. intros d Hd. left.
      rewrite (sameStore_getChannelMessages _ _ _ _ _ _ E1) in Hd.
      apply fromOld_self, Hd. }
  pose proof (sameStore_getChannelMessages _ _ _ _ _ _ E1) as S1.
  injection E as E.
  set (cutoff := (clock w1 - maxAgeHours cfg * 60 * 60 * 1000)%Z).
  assert (K : addsOnly (datedAfter cutoff) w1 w').
  { destruct msgs as [|m0 msgs].
    - injection E as _ <-. apply addsOnly_refl.
    - unfold bind at 1 in E. unfold gets at 1 in E. cbv zeta in E.
      fold cutoff in E.
      assert (Hrec : Forall (recent cutoff)
                       (filter (fun msg => (cutoff <? tm_date msg * 1000)%Z)
                          (m0 :: msgs))).
      { apply Forall_forall. intros x Hx. apply filter_In in Hx as [_ Hx].
        apply Z.ltb_lt in Hx. exact Hx. }
      destruct (filter (fun msg => (cutoff <? tm_date msg * 1000)%Z)
                  (m0 :: msgs)) as [|m1 rec] eqn:Ef.
      + injection E as _ <-. apply addsOnly_refl.
      + pose proof (window_processInBatches cfg cutoff (length (m1 :: rec))
                      (m1 :: rec) ch Hrec w1) as K1.
        unfold bind at 1 in E.
        destruct (ScraperService.processInBatches cfg (length (m1 :: rec))
                    (m1 :: rec) ch w1) as [[counts|e] w2]; cbn [snd] in K1.
        * cbn in E. injection E as _ <-.
          destruct K1 as [C1 H1]. split; [exact C1|exact H1].
        * injection E as _ <-. exact K1. }
  destruct K as [C K]. intros d Hd.
  destruct (K d Hd) as [H|H].
  - left. rewrite <- S1. exact H.
  - right. rewrite C. exact H.
Qed.

Lemma polling_stores_only_recent_messages_witness :
  map messageId (store AgeFixture.polledWorld) = [9%Z]
  /\ forall d, In d (store AgeFixture.polledWorld) ->
       fromOld [] d \/ (113600000 < messageDate d)%Z.
Proof.
  split; [vm_compute; reflexivity|].
  apply (polling_stores_only_recent_messages Fixture.cfg 1 Fixture.chan
           AgeFixture.world (Returned 1) AgeFixture.polledWorld).
  vm_compute. reflexivity.
Defined.

(** ** Starting and stopping the service *)

#[export] Instance keepsRel_Frame (t : nat) : Frame (keepsRel t).
Proof.
  split.
  - intros w H. exact H.
  - intros a b c Hab Hbc H. apply Hbc, Hab, H.
Qed.

#[export] Instance keepsRel_ServiceFrame (t : nat) : ServiceFrame (keepsRel t).
Proof.
  split; [exact (keepsRel_Frame t)|].
  intros w w' H1 H2 H3 H4 _. unfold keepsRel, keeps.
  rewrite H1, H2, H3, H4. auto.
Qed.

#[export] Instance runningRel_Frame : Frame runningRel.
Proof.
  split; [intros w; reflexivity|].
  intros a b c H1 H2. unfold runningRel in *. congruence.
Qed.

#[export] Instance runningRel_ServiceFrame : ServiceFrame runningRel.
Proof. split; [exact runningRel_Frame|]. intros w w' _ _ _ _ H. exact H. Qed.

(** A step of a world that touches none of these. *)
Ltac keep_side := intros; apply svf_quiet; reflexivity.

Ltac keep_step :=
  match goal with
  | |- preserves _ (bind _ _) => with_frame preserves_bind; [|intros ?]
  | |- preserves _ (try_catch _ _) => with_frame preserves_try_catch; [|intros ?]
  | |- preserves _ (finally _ _) => with_frame preserves_finally; [|keep_side]
  | |- preserves _ (forEach _ _) => with_frame preserves_forEach; intros ?
  | |- preserves _ (Store.call _) => with_frame preserves_call; [keep_side|]
  | |- preserves _ (modify _) => with_frame preserves_modify; keep_side
  | |- preserves _ (sleep _) => with_frame preserves_modify; keep_side
  | |- preserves _ (ret _) => with_frame preserves_ret
  | |- preserves _ (throw _) => with_frame preserves_throw
  | |- preserves _ (gets _) => with_frame preserves_gets
  | |- preserves _ (if ?b then _ else _) => destruct b
  | |- preserves _ (match ?x with _ => _ end) => destruct x
  end.

Ltac keep_auto := repeat keep_step; auto.

(** *** The polling path and the client, for any such relation *)

Section ServicePreserves.

Variable cfg : Config.
Context (R : World -> World -> Prop) `{ServiceFrame R}.

Lemma k_connect : preserves R TelegramClient.connect.
Proof. with_frame preserves_connect; keep_side. Qed.

Lemma k_getChannelEntity (u : str) : preserves R (TelegramClient.getChannelEntity u).
Proof. with_frame preserves_getChannelEntity; keep_side. Qed.

Lemma k_loadChannelEntities :
  preserves R (RealTimeListener.loadChannelEntities cfg).
Proof. with_frame preserves_loadChannelEntities; keep_side. Qed.

Lemma k_loadGroupEntities : preserves R (MessageSender.loadGroupEntities cfg).
Proof.
  unfold MessageSender.loadGroupEntities. keep_auto; auto using k_getChannelEntity.
Qed.

Lemma k_disconnect : preserves R TelegramClient.disconnect.
Proof. unfold TelegramClient.disconnect. keep_auto. Qed.

Lemma k_getMessages (entity : str) (limit : Z) :
  preserves R (TelegramClient.getMessages entity limit).
Proof.
  unfold TelegramClient.getMessages. keep_auto.
  intros w. destruct (fetchOutcomes (net w)) as [|[e|msgs] rest]; keep_side.
Qed.

Lemma k_saveProcessed (oid : nat) : preserves R (Store.saveProcessed oid).
Proof. unfold Store.saveProcessed. keep_auto. Qed.

Lemma k_saveNew (m : Message) : preserves R (Store.saveNew m).
Proof.
  unfold Store.saveNew. destruct (Store.valid m); [|with_frame preserves_throw].
  with_frame preserves_call; [keep_side|]. intros w.
  destruct (Store.insertDoc m (store w)) as [e|docs]; keep_side.
Qed.

Lemma k_findOne (q : Message -> bool) : preserves R (Store.findOne q).
Proof. unfold Store.findOne. keep_auto. Qed.

Lemma k_construct mid cid cu cn txt kws date :
  preserves R (Store.construct mid cid cu cn txt kws date).
Proof. intros w. keep_side. Qed.

Lemma k_sendToTargetGroups (doc : Message) :
  preserves R (MessageSender.sendToTargetGroups cfg doc).
Proof.
  unfold MessageSender.sendToTargetGroups, MessageSender.push. keep_auto.
Qed.

Lemma k_processMessage tm ch :
  preserves R (ScraperService.processMessage cfg tm ch).
Proof.
  unfold ScraperService.processMessage. cbv zeta. keep_auto;
    auto using k_findOne, k_sendToTargetGroups, k_saveProcessed,
      k_saveNew, k_construct.
Qed.

Lemma k_processMessageCall tm ch :
  callPreserves R (ScraperService.processMessageCall cfg tm ch).
Proof.
  unfold ScraperService.processMessageCall. cbv zeta.
  repeat call_step;
    auto using k_findOne, k_sendToTargetGroups, k_saveProcessed,
      k_saveNew, k_construct;
    with_frame preserves_ret.
Qed.

Lemma k_processMessageBatch tms ch :
  preserves R (ScraperService.processMessageBatch cfg tms ch).
Proof.
  unfold ScraperService.processMessageBatch.
  with_frame preserves_batch; [keep_side| |intros rs; with_frame preserves_ret].
  apply Forall_forall. intros tm _. apply k_processMessageCall.
Qed.

Lemma k_processInBatches (k : nat) (msgs : list TelegramMessage)
    (ch : ChannelConfig) :
  preserves R (ScraperService.processInBatches cfg k msgs ch).
Proof.
  revert msgs. induction k as [|k IH]; intros msgs;
    cbn [ScraperService.processInBatches]; [with_frame preserves_ret|].
  destruct msgs as [|m msgs]; [with_frame preserves_ret|].
  cbv zeta. keep_auto; auto using k_processMessageBatch.
Qed.

Lemma k_fetchBody (u : str) (limit : Z) :
  preserves R (TelegramClient.fetchBody u limit).
Proof.
  unfold TelegramClient.fetchBody, TelegramClient.isClientConnected.
  keep_auto; auto using k_connect, k_getChannelEntity, k_getMessages.
Qed.

Lemma k_getChannelMessages (fuel : nat) (u : str) (limit : Z) :
  forall w r w',
    TelegramClient.getChannelMessages fuel u limit w = Some (r, w') -> R w w'.
Proof.
  induction fuel as [|fuel IH]; intros w r w' E; [discriminate|].
  cbn [TelegramClient.getChannelMessages] in E. cbv zeta in E.
  pose proof (k_fetchBody u limit w) as K.
  destruct (TelegramClient.fetchBody u limit w) as [[msgs|e] w1];
    cbn [snd] in K.
  - injection E as _ <-. exact K.
  - destruct (includes (message e) (lit "FLOOD_WAIT")).
    + eapply frame_trans; [exact K|].
      eapply frame_trans; [|apply (IH _ _ _ E)]. keep_side.
    + injection E as _ <-. exact K.
Qed.

Lemma k_scrapeChannel (fuel : nat) (ch : ChannelConfig) :
  forall w r w',
    ScraperService.scrapeChannel cfg fuel ch w = Some (r, w') -> R w w'.
Proof.
  intros w r w' E. unfold ScraperService.scrapeChannel in E.
  destruct (TelegramClient.getChannelMessages fuel (c_username ch)
              (maxMessagesPerCheck cfg) w) as [[[msgs|e] w1]|] eqn:E1;
    [| |discriminate].
  - pose proof (k_getChannelMessages _ _ _ _ _ _ E1) as K1.
    injection E as E. eapply frame_trans; [exact K1|].
    match type of E with
    | ?m w1 = _ => assert (K2 : preserves R m)
    end.
    { destruct msgs as [|m0 msgs]; [with_frame preserves_ret|].
      cbv zeta. keep_auto; auto using k_processInBatches. }
    specialize (K2 w1). rewrite E in K2. exact K2.
  - injection E as _ <-. exact (k_getChannelMessages _ _ _ _ _ _ E1).
Qed.

Lemma k_scrapeChannels (fuel : nat) (chs : list ChannelConfig) :
  forall w r w',
    ScraperService.scrapeChannels cfg fuel chs w = Some (r, w') ->
    r = Returned tt /\ R w w'.
Proof.
  induction chs as [|ch chs IH]; intros w r w' E.
  - injection E as <- <-. split; [reflexivity|apply frame_refl].
  - cbn [ScraperService.scrapeChannels] in E.
    destruct (ScraperService.scrapeChannel cfg fuel ch w)
      as [[[n|e] w1]|] eqn:E1; [| |discriminate];
      pose proof (k_scrapeChannel _ _ _ _ _ E1) as K1.
    + destruct (IH _ _ _ E) as [-> K2]. split; [reflexivity|].
      eapply frame_trans; [exact K1|].
      eapply frame_trans; [|exact K2]. keep_side.
    + destruct (includes (message e) (lit "FLOOD_WAIT")).
      * destruct (IH _ _ _ E) as [-> K2]. split; [reflexivity|].
        eapply frame_trans; [exact K1|].
        eapply frame_trans; [|exact K2]. keep_side.
      * destruct (IH _ _ _ E) as [-> K2]. split; [reflexivity|].
        eapply frame_trans; [exact K1|exact K2].
Qed.

Lemma k_senderStop : preserves R MessageSender.stop.
Proof. unfold MessageSender.stop, MessageSender.clearQueue. keep_auto. Qed.

End ServicePreserves.

(** *** The listener and the service's [stop], for the timer that is kept *)

Section KeepsTimer.

Variable cfg : Config.
Variable tq : nat.

Let R := keepsRel tq.

Lemma removeTimer_In (t h : nat) (ts : list nat) :
  h <> t -> In t ts -> In t (RealTimeListener.removeTimer h ts).
Proof.
  intros Hne Hin. unfold RealTimeListener.removeTimer.
  apply filter_In. split; [exact Hin|].
  apply negb_true_iff, Nat.eqb_neq. congruence.
Qed.

Lemma k_listenerStop : preserves R RealTimeListener.stop.
Proof.
  intros w [H1 [H2 [H3 H4]]].
  destruct (listener_stop_spec w)
    as [w' [Hs [Hl [Ht [_ [_ [_ [_ [_ [Hn [_ [_ Hsc]]]]]]]]]]]].
  rewrite Hs. cbn [snd]. unfold keeps. rewrite Hl, Ht, Hn, Hsc.
  cbn [heartbeatInterval]. repeat split; try assumption; [|discriminate].
  destruct (heartbeatInterval (listener w)) as [h|]; [|exact H1].
  apply removeTimer_In; [congruence|exact H1].
Qed.

Lemma k_startHeartbeat : preserves R RealTimeListener.startHeartbeat.
Proof.
  intros w [H1 [H2 [H3 H4]]]. unfold keeps. cbn.
  repeat split.
  - apply in_or_app. left. exact H1.
  - lia.
  - intros E. injection E as E. lia.
  - exact H4.
Qed.

Lemma k_startBody : preserves R (RealTimeListener.startBody cfg).
Proof.
  unfold RealTimeListener.startBody, TelegramClient.isClientConnected.
  repeat first
    [ apply k_startHeartbeat
    | with_frame k_connect
    | with_frame k_loadChannelEntities
    | keep_step ].
Qed.

Lemma k_handleReconnect (fuel : nat) :
  forall w r w',
    RealTimeListener.handleReconnect cfg fuel w = Some (r, w') -> R w w'.
Proof.
  induction fuel as [|fuel IH]; intros w r w' E; [discriminate|].
  cbn [RealTimeListener.handleReconnect] in E. cbv zeta in E.
  destruct (maxReconnectAttempts (listener w) <=? reconnectAttempts (listener w)).
  - injection E as E. pose proof (k_listenerStop w) as K.
    rewrite E in K. exact K.
  - set (w2 := snd (sleep (reconnectDelay cfg) _)) in E.
    assert (K2 : R w w2) by (subst w2; keep_side).
    pose proof (k_listenerStop w2) as K3.
    destruct (RealTimeListener.stop w2) as [[u|e] w3]; cbn [snd] in K3.
    + unfold RealTimeListener.startWith in E.
      pose proof (k_startBody w3) as K4.
      destruct (RealTimeListener.startBody cfg w3) as [[u4|e4] w4];
        cbn [snd] in K4.
      * injection E as _ <-.
        eapply frame_trans; [exact K2|]. eapply frame_trans; eassumption.
      * destruct (RealTimeListener.handleReconnect cfg fuel w4)
          as [[[u5|e5] w5]|] eqn:E5; [| |discriminate];
          pose proof (IH _ _ _ E5) as K5; injection E as _ <-.
        -- eapply frame_trans; [exact K2|]. eapply frame_trans; [exact K3|].
           eapply frame_trans; eassumption.
        -- eapply frame_trans; [exact K2|]. eapply frame_trans; [exact K3|].
           eapply frame_trans; [exact K4|].
           eapply frame_trans; [exact K5|]. keep_side.
    + injection E as _ <-.
      eapply frame_trans; [exact K2|]. eapply frame_trans; [exact K3|].
      keep_side.
Qed.

Lemma k_start (fuel : nat) :
  forall w r w',
    RealTimeListener.start cfg fuel w = Some (r, w') -> R w w'.
Proof.
  intros w r w' E. unfold RealTimeListener.start, RealTimeListener.startWith in E.
  pose proof (k_startBody w) as K.
  destruct (RealTimeListener.startBody cfg w) as [[u|e] w1]; cbn [snd] in K.
  - injection E as _ <-. exact K.
  - eapply frame_trans; [exact K|]. exact (k_handleReconnect _ _ _ _ E).
Qed.

Lemma k_scraperStop : preserves R scraperStop.
Proof.
  unfold scraperStop.
  with_frame preserves_bind;
    [with_frame preserves_modify; intros w Hkeep; exact Hkeep|].
  intros _. unfold bind at 1. unfold gets at 1.
  intros w.
  assert (K1 : R w (snd ((match intervalId (scraper w) with
                          | Some t =>
                              modify (fun w => with_timers
                                                 (RealTimeListener.removeTimer t)
                                                 (nextTimer w) w) ;;
                              modify (with_scraper
                                        (fun s => mkScraper (isRunning s) None
                                                    (processedCount s)))
                          | None => ret tt
                          end) w))).
  { destruct (intervalId (scraper w)) as [t|] eqn:Ei; [|apply frame_refl].
    intros [H1 [H2 [H3 H4]]]. unfold keeps. cbn. rewrite Ei in H4.
    repeat split; try assumption; [|discriminate].
    apply removeTimer_In; [congruence|exact H1]. }
  assert (K2 : preserves R (RealTimeListener.stop ;; MessageSender.stop ;;
                            TelegramClient.disconnect)).
  { repeat first
      [ apply k_listenerStop
      | with_frame k_senderStop
      | with_frame k_disconnect
      | keep_step ]. }
  unfold bind at 1.
  destruct ((match intervalId (scraper w) with
             | Some t => _
             | None => ret tt
             end) w) as [[u|e] w1]; cbn [snd] in K1 |- *.
  - eapply frame_trans; [exact K1|apply K2].
  - exact K1.
Qed.

End KeepsTimer.

#[export] Instance handlesRel_Frame : Frame handlesRel.
Proof.
  split.
  - intros w. repeat split.
  - intros a b c [A1 [A2 [A3 A4]]] [B1 [B2 [B3 B4]]].
    repeat split; congruence.
Qed.

Section ServiceStart.

Variable cfg : Config.

Ltac handles_side := intros; repeat split.

Lemma handles_connect : preserves handlesRel TelegramClient.connect.
Proof. with_frame preserves_connect; handles_side. Qed.

Lemma handles_loadGroupEntities :
  preserves handlesRel (MessageSender.loadGroupEntities cfg).
Proof.
  unfold MessageSender.loadGroupEntities.
  with_frame preserves_forEach. intros g.
  with_frame preserves_try_catch; [|intros e; with_frame preserves_ret].
  with_frame preserves_bind.
  - with_frame preserves_getChannelEntity; handles_side.
  - intros entity. with_frame preserves_modify. handles_side.
Qed.

(** A loop whose body catches every error does not throw. *)
Lemma forEach_returns {A} (l : list A) (body : A -> M unit) :
  (forall x w, exists w', body x w = (Returned tt, w')) ->
  forall w, exists w', forEach l body w = (Returned tt, w').
Proof.
  intros Hb. induction l as [|x l IH]; intros w.
  - exists w. reflexivity.
  - cbn [forEach]. unfold bind. destruct (Hb x w) as [w1 ->]. apply IH.
Qed.

Lemma loadGroupEntities_returns (w : World) :
  exists w', MessageSender.loadGroupEntities cfg w = (Returned tt, w').
Proof.
  unfold MessageSender.loadGroupEntities. apply forEach_returns.
  intros g w0. unfold try_catch, bind.
  destruct (TelegramClient.getChannelEntity (g_username g) w0) as [[en|e] w1];
    eexists; reflexivity.
Qed.

(** [initialize] arms the queue processor and returns. *)
Lemma initialize_spec (w : World) :
  exists w', initialize cfg w = (Returned tt, w')
             /\ timers w' = timers w ++ [nextTimer w]
             /\ nextTimer w' = S (nextTimer w)
             /\ heartbeatInterval (listener w') = heartbeatInterval (listener w)
             /\ scraper w' = scraper w.
Proof.
  unfold initialize, try_catch, bind.
  pose proof (handles_loadGroupEntities w) as [H1 [H2 [H3 H4]]].
  destruct (loadGroupEntities_returns w) as [w1 E]. rewrite E in *.
  cbn [snd] in H1, H2, H3, H4.
  eexists. split; [reflexivity|]. cbn. rewrite H1, H2. repeat split; assumption.
Qed.

Lemma handleReconnect_returns (fuel : nat) :
  forall w r w',
    RealTimeListener.handleReconnect cfg fuel w = Some (r, w') -> r = Returned tt.
Proof.
  induction fuel as [|fuel IH]; intros w r w' E; [discriminate|].
  cbn [RealTimeListener.handleReconnect] in E. cbv zeta in E.
  destruct (maxReconnectAttempts (listener w) <=? reconnectAttempts (listener w)).
  - destruct (listener_stop_spec w) as [w1 [Hs _]]. rewrite Hs in E.
    injection E as <- _. reflexivity.
  - set (w2 := snd (sleep (reconnectDelay cfg) _)) in E.
    destruct (listener_stop_spec w2) as [w3 [Hs _]]. rewrite Hs in E.
    destruct (RealTimeListener.startWith cfg _ w3) as [[[[]|e] w4]|];
      [injection E as <- _; reflexivity
      |injection E as <- _; reflexivity
      |discriminate E].
Qed.

Lemma start_returns (fuel : nat) (w : World) (r : Completion unit) (w' : World) :
  RealTimeListener.start cfg fuel w = Some (r, w') -> r = Returned tt.
Proof.
  unfold RealTimeListener.start, RealTimeListener.startWith. intros E.
  destruct (RealTimeListener.startBody cfg w) as [[[]|e] w1].
  - injection E as <- _. reflexivity.
  - exact (handleReconnect_returns _ _ _ _ E).
Qed.

(** What [start] has done when it comes to an end. *)
Lemma scraperStart_cases (fuel : nat) (w : World) (r : Completion unit)
    (w' : World) :
  scraperStart cfg fuel w = Some (r, w') ->
  (exists e, r = Threw e /\ TelegramClient.connect w = (Threw e, w'))
  \/ (r = Returned tt
      /\ exists w1 w2 w4,
           TelegramClient.connect w = (Returned tt, w1)
           /\ initialize cfg w1 = (Returned tt, w2)
           /\ (exists w3, RealTimeListener.start cfg fuel w2
                          = Some (Returned tt, w3)
                          /\ ScraperService.scrapeAllChannels cfg fuel
                               (with_scraper (set_isRunning true) w3)
                             = Some (Returned tt, w4))
           /\ armScrapeInterval w4 = (Returned tt, w')).
Proof.
  unfold scraperStart. unfold bind at 1. intros E.
  destruct (TelegramClient.connect w) as [[[]|e] w1] eqn:Ec.
  2:{ injection E as <- <-. left. exists e. split; reflexivity. }
  destruct (initialize_spec w1) as [w2 [Ei _]]. rewrite Ei in E.
  destruct (RealTimeListener.start cfg fuel w2) as [[r3 w3]|] eqn:Es;
    [|discriminate].
  pose proof (start_returns _ _ _ _ Es) as Hr3. subst r3.
  cbv zeta in E. unfold ScraperService.scrapeAllChannels in *.
  destruct (ScraperService.scrapeChannels cfg fuel
              (filter c_active (channels cfg))
              (with_scraper (set_isRunning true) w3)) as [[r4 w4]|] eqn:E4;
    [|discriminate].
  destruct (k_scrapeChannels cfg runningRel _ _ _ _ _ E4) as [-> _].
  injection E as <- <-. right. split; [reflexivity|].
  exists w1, w2, w4. split; [reflexivity|]. split; [exact Ei|].
  split; [exists w3; split; [exact Es|exact E4]|reflexivity].
Qed.

End ServiceStart.

(** The interval that [startQueueProcessor] arms outlives [stop]. In a
    [start] that returns, [initialize] arms the timer [nextTimer w]; at the
    end of [start] that timer is armed and is neither of the two handles the
    service keeps; and after [ScraperService.stop] it is still armed. *)
Theorem queue_processor_outlives_stop (cfg : Config) (fuel : nat)
    (w w' : World) :
  handlesBelow w = true ->
  scraperStart cfg fuel w = Some (Returned tt, w') ->
  timers (snd ((TelegramClient.connect ;; initialize cfg) w))
  = timers w ++ [nextTimer w]
  /\ In (nextTimer w) (timers w')
  /\ In (nextTimer w) (timers (snd (scraperStop w')))
  /\ intervalId (scraper w') <> Some (nextTimer w)
  /\ heartbeatInterval (listener w') <> Some (nextTimer w).
Proof.
  intros Hb E.
  split.
  { unfold bind. pose proof (handles_connect w) as [C1 [C2 _]].
    destruct (TelegramClient.connect w) as [[[]|e] w1] eqn:Ec;
      cbn [snd] in C1, C2.
    - destruct (initialize_spec cfg w1) as [w2 [Ei [I1 _]]].
      rewrite Ei. cbn [snd]. rewrite I1, C1, C2. reflexivity.
    - unfold scraperStart, bind in E. rewrite Ec in E. discriminate. }
  destruct (scraperStart_cases cfg fuel w _ _ E)
    as [[e [He _]]|[_ [w1 [w2 [w4 [Ec [Ei [[w3 [Es E4]] Ea]]]]]]]];
    [discriminate|].
  pose proof (handles_connect w) as [C1 [C2 [C3 C4]]].
  rewrite Ec in C1, C2, C3, C4. cbn [snd] in C1, C2, C3, C4.
  destruct (initialize_spec cfg w1) as [w2' [Ei' [I1 [I2 [I3 I4]]]]].
  rewrite Ei in Ei'. injection Ei' as <-.
  unfold handlesBelow in Hb. apply andb_true_iff in Hb as [Hh Hi].
  set (tq := nextTimer w) in *.
  assert (K2 : keeps tq w2).
  { unfold keeps. rewrite I1, I2, I3, I4, C2, C3, C4. fold tq.
    repeat split.
    - apply in_or_app. right. left. reflexivity.
    - lia.
    - destruct (heartbeatInterval (listener w)) as [t|]; [|discriminate].
      apply Nat.ltb_lt in Hh. intros E'. injection E' as E'. lia.
    - destruct (intervalId (scraper w)) as [t|]; [|discriminate].
      apply Nat.ltb_lt in Hi. intros E'. injection E' as E'. lia. }
  assert (K3 : keeps tq w3) by exact (k_start cfg tq fuel _ _ _ Es K2).
  assert (K4 : keeps tq w4).
  { unfold ScraperService.scrapeAllChannels in E4.
    destruct (k_scrapeChannels cfg (keepsRel tq) _ _ _ _ _ E4) as [_ K].
    apply K. exact K3. }
  assert (K5 : keeps tq w').
  { unfold armScrapeInterval, modify in Ea. injection Ea as <-.
    destruct K4 as [H1 [H2 [H3 H4]]]. unfold keeps. cbn.
    repeat split.
    - apply in_or_app. left. exact H1.
    - lia.
    - exact H3.
    - intros E'. injection E' as E'. lia. }
  pose proof (k_scraperStop tq w' K5) as K6.
  split; [apply K5|]. split; [apply K6|]. split; apply K5.
Qed.

Lemma queue_processor_outlives_stop_witness :
  let w := with_scraper (set_isRunning false) Fixture.world0 in
  let w' := match scraperStart Fixture.cfg 2 w with
            | Some (_, w') => w'
            | None => w
            end in
  timers (snd ((TelegramClient.connect ;; initialize Fixture.cfg) w)) = [0]
  /\ In 0 (timers w')
  /\ In 0 (timers (snd (scraperStop w')))
  /\ intervalId (scraper w') <> Some 0
  /\ heartbeatInterval (listener w') <> Some 0.
Proof.
  apply (queue_processor_outlives_stop Fixture.cfg 2
           (with_scraper (set_isRunning false) Fixture.world0)).
  - reflexivity.
  - vm_compute. reflexivity.
Defined.

(** [ScraperService.start] throws only when its first [connect] throws,
    that is with the client disconnected and its retries used up; then no
    timer has been armed and the service, the sender and the store are as
    they were. When it returns, the service is running and its polling
    interval is armed. *)
Theorem service_start_fails_only_on_connect (cfg : Config) (fuel : nat)
    (w : World) (r : Completion unit) (w' : World) :
  scraperStart cfg fuel w = Some (r, w') ->
  match r with
  | Threw e =>
      isConnected (client w) = false
      /\ maxRetries (client w) <= retryCount (client w)
      /\ timers w' = timers w /\ scraper w' = scraper w
      /\ sender w' = sender w /\ store w' = store w
  | Returned _ =>
      isRunning (scraper w') = true
      /\ exists t, intervalId (scraper w') = Some t /\ In t (timers w')
  end.
Proof.
  intros E.
  destruct (scraperStart_cases cfg fuel w _ _ E)
    as [[e [-> Ec]]|[-> [w1 [w2 [w4 [Ec [Ei [[w3 [Es E4]] Ea]]]]]]]].
  - destruct (connect_throws w e w' Ec) as [Hd Hm].
    pose proof (handles_connect w) as [C1 [_ [_ C4]]].
    pose proof (connect_quiet w) as [Q1 _].
    assert (S1 : store (snd (TelegramClient.connect w)) = store w).
    { assert (Hn : forall f w, sameStore w (with_net f w)) by reflexivity.
      assert (He : forall e w, sameStore w (emit e w)) by reflexivity.
      assert (Hc : forall f w, sameStore w (with_client f w)) by reflexivity.
      exact (preserves_connect sameStore Hn He Hc w). }
    rewrite Ec in *. cbn [fst snd] in *.
    repeat split; assumption.
  - unfold ScraperService.scrapeAllChannels in E4.
    destruct (k_scrapeChannels cfg runningRel _ _ _ _ _ E4) as [_ K].
    unfold runningRel in K. cbn in K.
    unfold armScrapeInterval, modify in Ea. injection Ea as <-. cbn.
    split; [exact K|].
    eexists. split; [reflexivity|]. apply in_or_app. right. left. reflexivity.
Qed.

Lemma service_start_fails_only_on_connect_witness :
  isConnected (client StartFixture.unreachable) = false
  /\ 5 <= 5
  /\ timers StartFixture.afterStart = []
  /\ scraper StartFixture.afterStart = mkScraper false None 0
  /\ sender StartFixture.afterStart = sender Fixture.world0
  /\ store StartFixture.afterStart = [].
Proof.
  apply (service_start_fails_only_on_connect Fixture.cfg 2
           StartFixture.unreachable
           (Threw (mkError None
                     (lit "Failed to connect to Telegram after multiple attempts")))
           StartFixture.afterStart).
  vm_compute. reflexivity.
Defined.

(** ** What the ingestion paths enqueue *)

#[export] Instance enqueuesOnly_Frame (P : Message -> Prop) :
  Frame (enqueuesOnly P).
Proof.
  split.
  - intros w j H. left. exact H.
  - intros a b c Hab Hbc j Hj.
    destruct (Hbc j Hj) as [H|H]; [exact (Hab j H)|right; exact H].
Qed.

(** A step of a world that does not touch the queue. *)
Ltac same_queue := intros; intros j Hj; left; exact Hj.

Ltac enqueue_step :=
  match goal with
  | |- preserves _ (bind _ _) => with_frame preserves_bind; [|intros ?]
  | |- preserves _ (try_catch _ _) => with_frame preserves_try_catch; [|intros ?]
  | |- preserves _ (Store.call _) => with_frame preserves_call; [same_queue|]
  | |- preserves _ (modify _) => with_frame preserves_modify; same_queue
  | |- preserves _ (ret _) => with_frame preserves_ret
  | |- preserves _ (throw _) => with_frame preserves_throw
  | |- preserves _ (gets _) => with_frame preserves_gets
  | |- preserves _ (if ?b then _ else _) => destruct b
  | |- preserves _ (match ?x with _ => _ end) => destruct x
  end.

Section Enqueue.

Variable cfg : Config.
Variable P : Message -> Prop.

Lemma eo_sendToTargetGroups (d : Message) :
  P d -> preserves (enqueuesOnly P) (MessageSender.sendToTargetGroups cfg d).
Proof.
  intros Hd w j Hj.
  destruct (sendToTargetGroups_effect cfg d w) as [_ [Hq _]].
  rewrite Hq in Hj. apply in_app_or in Hj as [Hj|Hj]; [left; exact Hj|].
  apply in_map_iff in Hj as [g [<- _]]. right. exact Hd.
Qed.

Lemma eo_saveProcessed (oid : nat) :
  preserves (enqueuesOnly P) (Store.saveProcessed oid).
Proof. unfold Store.saveProcessed. repeat enqueue_step. Qed.

Lemma eo_saveNew (m : Message) : preserves (enqueuesOnly P) (Store.saveNew m).
Proof.
  unfold Store.saveNew. destruct (Store.valid m); [|with_frame preserves_throw].
  with_frame preserves_call; [same_queue|]. intros w.
  destruct (Store.insertDoc m (store w)) as [e|docs]; same_queue.
Qed.

Lemma eo_findOne (q : Message -> bool) :
  preserves (enqueuesOnly P) (Store.findOne q).
Proof. unfold Store.findOne. repeat enqueue_step. Qed.

End Enqueue.

Section EnqueueDeliverable.

Variable cfg : Config.

Lemma eo_processMessage (tm : TelegramMessage) (ch : ChannelConfig) :
  preserves (enqueuesOnly deliverable) (ScraperService.processMessage cfg tm ch).
Proof.
  unfold ScraperService.processMessage.
  with_frame preserves_try_catch;
    [|intros e; destruct (codeIs 11000 e); with_frame preserves_ret].
  destruct (negb (truthy (tm_text tm))); [with_frame preserves_ret|].
  with_frame preserves_bind; [apply eo_findOne|].
  intros [existing|].
  - destruct (hasBonus existing && hasWebsite existing
              && negb (processed existing)); [|with_frame preserves_ret].
    destruct (ScraperService.shouldSendToGroups existing) eqn:Es;
      [|with_frame preserves_ret].
    with_frame preserves_bind; [apply eo_sendToTargetGroups; exact Es|].
    intros _. with_frame preserves_bind; [apply eo_saveProcessed|].
    intros _. with_frame preserves_ret.
  - cbv zeta.
    destruct ((length (ScraperService.formatLines (textOf tm)) <? 2)
              || (5 <? length (ScraperService.formatLines (textOf tm))));
      [with_frame preserves_ret|].
    destruct (negb (existsb ScraperService.lineHasUrl
                      (ScraperService.formatLines (textOf tm))));
      [with_frame preserves_ret|].
    intros w. unfold bind at 1. unfold Store.construct at 1.
    fold (docOf (nextOid w) tm ch [lit "bonus_format"]).
    fold (polled (nextOid w) tm ch).
    apply (frame_trans w (with_nextOid (S (nextOid w)) w));
      [intros j Hj; left; exact Hj|].
    assert (H : preserves (enqueuesOnly deliverable)
                  (Store.saveNew (polled (nextOid w) tm ch) ;;
                   if ScraperService.shouldSendToGroups (polled (nextOid w) tm ch)
                   then
                     MessageSender.sendToTargetGroups cfg
                       (polled (nextOid w) tm ch) ;;
                     Store.saveProcessed (_id (polled (nextOid w) tm ch)) ;;
                     ret ScraperService.BonusSent
                   else ret ScraperService.Undefined)).
    { with_frame preserves_bind; [apply eo_saveNew|]. intros _.
      destruct (ScraperService.shouldSendToGroups (polled (nextOid w) tm ch))
        eqn:Es; [|with_frame preserves_ret].
      with_frame preserves_bind; [apply eo_sendToTargetGroups; exact Es|].
      intros _. with_frame preserves_bind; [apply eo_saveProcessed|].
      intros _. with_frame preserves_ret. }
    apply H.
Qed.

Hypothesis bonusOnly : onlyWithBonusCode cfg = true.

Lemma eo_processRealTimeMessage (tm : TelegramMessage) (ch : ChannelConfig)
    (kws : list str) :
  preserves (enqueuesOnly deliverable)
    (RealTimeListener.processRealTimeMessage cfg tm ch kws).
Proof.
  unfold RealTimeListener.processRealTimeMessage.
  with_frame preserves_try_catch;
    [|intros e; destruct (codeIs 11000 e); with_frame preserves_ret].
  intros w. unfold bind at 1. unfold Store.construct at 1. cbv zeta.
  apply (frame_trans w (with_nextOid (S (nextOid w)) w));
    [intros j Hj; left; exact Hj|].
  destruct (tm_text tm) as [txt|]; [|intros j Hj; left; exact Hj].
  set (md := extractData
               (newMessage (nextOid w) (tm_id tm) (channelIdOf tm)
                  (c_username ch) (c_name ch) (textOf tm) kws
                  (tm_date tm * 1000))).
  assert (H : preserves (enqueuesOnly deliverable)
                (Store.saveNew md ;;
                 if RealTimeListener.shouldSendToGroups cfg md
                 then MessageSender.sendToTargetGroups cfg md
                 else ret tt)).
  { with_frame preserves_bind; [apply eo_saveNew|]. intros _.
    destruct (RealTimeListener.shouldSendToGroups cfg md) eqn:Es;
      [|with_frame preserves_ret].
    apply eo_sendToTargetGroups. unfold deliverable.
    pose proof (shouldSendToGroups_fresh (nextOid w) (tm_id tm)
                  (channelIdOf tm) (c_username ch) (c_name ch) (textOf tm)
                  kws (tm_date tm * 1000)) as Hs.
    cbv zeta in Hs. fold md in Hs. rewrite Hs.
    unfold RealTimeListener.shouldSendToGroups in Es. rewrite bonusOnly in Es.
    destruct (hasBonus md); [reflexivity|discriminate]. }
  apply H.
Qed.

Lemma eo_handleNewMessage (tm : TelegramMessage) :
  preserves (enqueuesOnly deliverable)
    (RealTimeListener.handleNewMessage cfg tm).
Proof.
  unfold RealTimeListener.handleNewMessage. cbv zeta.
  repeat first [apply eo_processRealTimeMessage | enqueue_step].
Qed.

End EnqueueDeliverable.

(** In bonus-only mode neither ingestion path ever enqueues a document
    that is not deliverable: every job in the queue after [processMessage],
    or after [handleNewMessage], was in the queue before or carries a
    document with both flags set, a code of 4 characters or more and a URL
    that starts with 'http'. For the polling path this holds in every
    mode. *)
Theorem only_deliverable_documents_are_enqueued (cfg : Config)
    (tm : TelegramMessage) (ch : ChannelConfig) (w : World) :
  onlyWithBonusCode cfg = true ->
  (forall j,
      In j (sendQueue (sender (snd (ScraperService.processMessage cfg tm ch w)))) ->
      In j (sendQueue (sender w)) \/ deliverable (originalMessage j))
  /\ (forall j,
        In j (sendQueue (sender (snd (RealTimeListener.handleNewMessage cfg tm w)))) ->
        In j (sendQueue (sender w)) \/ deliverable (originalMessage j)).
Proof.
  intros Hb. split.
  - exact (eo_processMessage cfg tm ch w).
  - exact (eo_handleNewMessage cfg Hb tm w).
Qed.

Lemma only_deliverable_documents_are_enqueued_witness :
  let w := Fixture.exhausted in
  (forall j,
      In j (sendQueue (sender (snd (ScraperService.processMessage Fixture.cfg
                                      Fixture.oneLine Fixture.chan w)))) ->
      In j (sendQueue (sender w)) \/ deliverable (originalMessage j))
  /\ (forall j,
        In j (sendQueue (sender (snd (RealTimeListener.handleNewMessage
                                        Fixture.cfg Fixture.oneLine w)))) ->
        In j (sendQueue (sender w)) \/ deliverable (originalMessage j)).
Proof.
  apply (only_deliverable_documents_are_enqueued Fixture.cfg Fixture.oneLine
           Fixture.chan Fixture.exhausted).
  reflexivity.
Defined.
